(** * DSWx-SAR: the GCOV frame mosaicking pipeline ([mosaic_gcov_frame.py])

    A shallow embedding of the tiling generator [slice_gen], of the tiled
    raster writer [RTCReader.read_write_rtc] and of the orchestration in
    [RTCReader.process_rtc_hdf5], with the properties the design document
    states about them. *)

From Stdlib Require Import ZArith List Bool Lia.
From Stdlib Require Import Strings.String Strings.Ascii DecimalString DecimalZ
  DecimalPos.
From Stdlib Require Import Floats.SpecFloat.
From stdpp Require Import base option list gmap strings.

Local Open Scope Z_scope.
Set Warnings "-register-all".

(* ===================================================================== *)
(** * Python values shared by the whole module *)
(* ===================================================================== *)

(** The exceptions the module can raise, by their Python class. *)
Inductive exn : Type :=
  | FileNotFoundError
  | ValueError
  | ZeroDivisionError
  | IndexError
  | AttributeError
  | TypeError
  | UnboundLocalError
  | RuntimeError.

(** Outcome of a call: a value, or a raised exception. *)
Inductive res (A : Type) : Type :=
  | Ok (a : A)
  | Raise (e : exn).
Arguments Ok {A} a.
Arguments Raise {A} e.

(** Python's [slice(start, stop)] object: the two bounds, stored as given. *)
Record slice : Type := Slice { start : Z; stop : Z }.

(** Number of items of [range(lo, hi, step)], as CPython computes it. *)
Definition range_len (lo hi step : Z) : Z :=
  if 0 <? step then
    if lo <? hi then (hi - lo - 1) / step + 1 else 0
  else if step <? 0 then
    if hi <? lo then (lo - hi - 1) / (- step) + 1 else 0
  else 0.

(** [range(lo, hi, step)] for a non-zero [step]. *)
Definition py_range (lo hi step : Z) : list Z :=
  (fun k => lo + k * step) <$> seqZ 0 (range_len lo hi step).

(* ===================================================================== *)
(** * Tiling engine: [slice_gen] *)
(* ===================================================================== *)

(** [slice_gen(total_size, batch_size, combine_rem)]: the slices the
    generator yields, in order.  [//] is floor division, which is [Z.div];
    a zero [batch_size] raises at the first statement. *)
Definition slice_gen (total_size batch_size : Z) (combine_rem : bool)
  : res (list slice) :=
  if batch_size =? 0 then Raise ZeroDivisionError else
  let num_complete_blks := total_size / batch_size in
  let num_total_complete := num_complete_blks * batch_size in
  let num_rem := total_size - num_total_complete in
  if combine_rem && (0 <? num_rem) then
    let body :=
      (fun start_idx => Slice start_idx (start_idx + batch_size))
        <$> py_range 0 (num_total_complete - batch_size) batch_size in
    let last_blk_start := num_total_complete - batch_size in
    let last_blk_stop := total_size in
    Ok (body ++ [Slice last_blk_start last_blk_stop])
  else
    Ok ((fun start_idx => Slice start_idx (start_idx + batch_size))
          <$> py_range 0 num_total_complete batch_size).

(** An index lies in a slice when [start <= i < stop]. *)
Definition in_slice (i : Z) (s : slice) : Prop := start s <= i < stop s.

(** The slices cover exactly the indices of [[0, total)]. *)
Definition covers_exactly (l : list slice) (total : Z) : Prop :=
  forall i, (exists s, s ∈ l /\ in_slice i s) <-> 0 <= i < total.

(** The slices come in increasing order and no two of them overlap. *)
Definition ordered_disjoint (l : list slice) : Prop :=
  forall (j k : nat) s t, (j < k)%nat ->
    l !! j = Some s -> l !! k = Some t -> stop s <= start t.

(** Every slice but the first is at least [block] long. *)
Definition tail_lengths_ge (l : list slice) (block : Z) : Prop :=
  forall (k : nat) s, (0 < k)%nat -> l !! k = Some s -> block <= stop s - start s.

(** The tiling property of the design document. *)
Definition tiles (l : list slice) (total block : Z) : Prop :=
  covers_exactly l total /\ ordered_disjoint l /\ tail_lengths_ge l block.

(** The full blocks [[k*b, k*b+b)] for [k < m]. *)
Definition full_blocks (block m : Z) : list slice :=
  (fun k => Slice (k * block) (k * block + block)) <$> seqZ 0 m.

(* ===================================================================== *)
(** * Samples and blocks *)
(* ===================================================================== *)

(** Samples are IEEE-754 values ([spec_float]): the backscatter layers and
    the rasters written are [float32].  [np.float32(n)] for an integer [n]
    is the binary32 value nearest to it. *)
Definition np_float32 (n : Z) : spec_float := binary_normalize 24 128 n 0 false.

Definition np_nan : spec_float := S754_nan.

(** [np.isinf]: true on both infinities. *)
Definition np_isinf (x : spec_float) : bool :=
  match x with
  | S754_infinity _ => true
  | _ => false
  end.

(** [x > y] and [x == y] on samples; both are false when a NaN is involved,
    and the two zeros compare equal. *)
Definition np_gt (x y : spec_float) : bool := SFltb y x.
Definition np_eq (x y : spec_float) : bool := SFeqb x y.

(** A 2-D array, as rows. *)
Definition block : Type := list (list spec_float).

(** Boolean-mask assignment [a[p(a)] = v]. *)
Definition mask_assign (p : spec_float -> bool) (v : spec_float) (a : block)
  : block :=
  map (map (fun x => if p x then v else x)) a.

(** A GDAL dataset opened read-only: its size and the samples of its band,
    by row and column.  The band is taken to hold floating-point samples,
    as the backscatter layers do; a band of integer type, on which the
    assignment of NaN raises, is outside the model. *)
Record Dataset : Type := {
  RasterXSize : Z;
  RasterYSize : Z;
  band_value : Z -> Z -> spec_float
}.

(** [ds.ReadAsArray(xoff, yoff, xsize, ysize)]: the window as an array, or
    [None] when the window does not lie inside the raster. *)
Definition ReadAsArray (ds : Dataset) (xoff yoff xsize ysize : Z)
  : option block :=
  if (0 <=? xoff) && (0 <=? yoff) && (0 <? xsize) && (0 <? ysize)
     && (xoff + xsize <=? RasterXSize ds) && (yoff + ysize <=? RasterYSize ds)
  then Some ((fun r => (fun c => band_value ds r c) <$> seqZ xoff xsize)
               <$> seqZ yoff ysize)
  else None.

(** [rasterio]'s [Affine]: the six coefficients of the transform. *)
Record Affine : Type := {
  aff_a : spec_float; aff_b : spec_float; aff_c : spec_float;
  aff_d : spec_float; aff_e : spec_float; aff_f : spec_float
}.

Definition f64_add := SFadd 53 1024.
Definition f64_sub := SFsub 53 1024.
Definition f64_mul := SFmul 53 1024.
Definition f64_div := SFdiv 53 1024.
Definition f64_of_Z (n : Z) : spec_float := binary_normalize 53 1024 n 0 false.

Definition Affine_translation (xoff yoff : spec_float) : Affine :=
  {| aff_a := f64_of_Z 1; aff_b := f64_of_Z 0; aff_c := xoff;
     aff_d := f64_of_Z 0; aff_e := f64_of_Z 1; aff_f := yoff |}.

Definition Affine_scale (sx sy : spec_float) : Affine :=
  {| aff_a := sx; aff_b := f64_of_Z 0; aff_c := f64_of_Z 0;
     aff_d := f64_of_Z 0; aff_e := sy; aff_f := f64_of_Z 0 |}.

(** [s * o] on two transforms. *)
Definition Affine_mul (s o : Affine) : Affine :=
  {| aff_a := f64_add (f64_mul (aff_a s) (aff_a o)) (f64_mul (aff_b s) (aff_d o));
     aff_b := f64_add (f64_mul (aff_a s) (aff_b o)) (f64_mul (aff_b s) (aff_e o));
     aff_c := f64_add (f64_add (f64_mul (aff_a s) (aff_c o))
                               (f64_mul (aff_b s) (aff_f o))) (aff_c s);
     aff_d := f64_add (f64_mul (aff_d s) (aff_a o)) (f64_mul (aff_e s) (aff_d o));
     aff_e := f64_add (f64_mul (aff_d s) (aff_b o)) (f64_mul (aff_e s) (aff_e o));
     aff_f := f64_add (f64_add (f64_mul (aff_d s) (aff_c o))
                               (f64_mul (aff_e s) (aff_f o))) (aff_f s) |}.

(** A value of the metadata dictionary: a decoded string or an integer. *)
Inductive MetaValue : Type :=
  | MStr (s : string)
  | MInt (n : Z).

Definition Metadata : Type := list (string * MetaValue).

(** A single-band [float32] GeoTIFF as [rasterio] writes it: the header
    given at creation, the samples written so far by (row, column), and the
    file-level tags. *)
Record GTiff : Type := {
  gt_height : Z;
  gt_width : Z;
  gt_crs : string;
  gt_transform : Affine;
  gt_band : gmap (Z * Z) spec_float;
  gt_tags : Metadata
}.

(** [rasterio.windows.Window(col_off, row_off, width, height)]. *)
Record Window : Type := {
  col_off : Z; row_off : Z; win_width : Z; win_height : Z
}.

Fixpoint write_row (r c : Z) (xs : list spec_float)
    (band : gmap (Z * Z) spec_float) : gmap (Z * Z) spec_float :=
  match xs with
  | [] => band
  | x :: xs' => write_row r (c + 1) xs' (<[(r, c) := x]> band)
  end.

Fixpoint write_rows (r c : Z) (rows : block)
    (band : gmap (Z * Z) spec_float) : gmap (Z * Z) spec_float :=
  match rows with
  | [] => band
  | row :: rows' => write_rows (r + 1) c rows' (write_row r c row band)
  end.

(** [dst.write(arr, 1, window=w)]: the array goes to the window of band 1;
    a window outside the raster is refused. *)
Definition dst_write (dst : GTiff) (arr : block) (w : Window) : res GTiff :=
  if (0 <=? col_off w) && (0 <=? row_off w)
     && (col_off w + win_width w <=? gt_width dst)
     && (row_off w + win_height w <=? gt_height dst)
  then Ok {| gt_height := gt_height dst; gt_width := gt_width dst;
             gt_crs := gt_crs dst; gt_transform := gt_transform dst;
             gt_band := write_rows (row_off w) (col_off w) arr (gt_band dst);
             gt_tags := gt_tags dst |}
  else Raise RuntimeError.

(** [dst.update_tags] with the entries of the dictionary [d] as keywords. *)
Definition update_tags (dst : GTiff) (d : Metadata) : GTiff :=
  {| gt_height := gt_height dst; gt_width := gt_width dst;
     gt_crs := gt_crs dst; gt_transform := gt_transform dst;
     gt_band := gt_band dst; gt_tags := d |}.

(* ===================================================================== *)
(** * State and exceptions *)
(* ===================================================================== *)

(** A computation over a state [S] that returns or raises; the state
    reached is kept in both cases, as the effects of a Python call are. *)
Definition ST (S A : Type) : Type := S -> res A * S.

Definition ret {S A} (a : A) : ST S A := fun s => (Ok a, s).
Definition raise {S A} (e : exn) : ST S A := fun s => (Raise e, s).

Definition bind {S A B} (m : ST S A) (k : A -> ST S B) : ST S B :=
  fun s =>
    match m s with
    | (Ok a, s') => k a s'
    | (Raise e, s') => (Raise e, s')
    end.

Notation "'do' x <- m ; k" := (bind m (fun x => k))
  (at level 10, x name, m at level 100, k at level 200).
Notation "'do' ' p <- m ; k" := (bind m (fun x => let 'p := x in k))
  (at level 10, p pattern, m at level 100, k at level 200).

Definition lift_res {S A} (r : res A) : ST S A := fun s => (r, s).

Definition get {S} : ST S S := fun s => (Ok s, s).
Definition put {S} (s : S) : ST S unit := fun _ => (Ok tt, s).

(** [for x in l: acc = body(x, acc)]. *)
Fixpoint fold_ {S A B} (body : A -> B -> ST S B) (l : list A) (acc : B)
  : ST S B :=
  match l with
  | [] => ret acc
  | x :: l' => do acc' <- body x acc; fold_ body l' acc'
  end.

(** The same loop with [break]: the body also says whether to leave. *)
Fixpoint fold_break {S A B} (body : A -> B -> ST S (B * bool)) (l : list A)
    (acc : B) : ST S B :=
  match l with
  | [] => ret acc
  | x :: l' =>
      do r <- body x acc;
      if snd r then ret (fst r) else fold_break body l' (fst r)
  end.

(** [for x in l: body(x)]. *)
Definition for_ {S A} (l : list A) (body : A -> ST S unit) : ST S unit :=
  fold_ (fun x _ => body x) l tt.

(** [enumerate(l)]. *)
Definition enumerate {A} (l : list A) : list (nat * A) :=
  zip (seq 0 (length l)) l.

(* ===================================================================== *)
(** * Files, archives and collaborators *)
(* ===================================================================== *)

(** Content of a raster file of the scratch or output directory.  What
    the reader writes itself is a [GTiff]; what the collaborators write is
    kept as the call that produced it. *)
Inductive Raster : Type :=
  | RTif (t : GTiff)
  | RWarp (src : Raster) (epsg_output : Z) (output_nodata : Z)
  | RMosaic (inputs : list Raster) (mosaic_mode : string)
            (geogrid : list (string * Raster)).

(** Effects other than file contents: warnings issued and mosaics
    requested (input paths, output path). *)
Inductive Event : Type :=
  | EvWarn (dataset : string)
  | EvMosaic (inputs : list string) (output : string).

Record World : Type := {
  files : gmap string Raster;
  log : list Event
}.

Definition M (A : Type) : Type := ST World A.

Definition read_file (path : string) : M Raster :=
  fun w =>
    match files w !! path with
    | Some r => (Ok r, w)
    | None => (Raise RuntimeError, w)
    end.

Definition write_file (path : string) (r : Raster) : M unit :=
  fun w => (Ok tt, {| files := <[path := r]> (files w); log := log w |}).

Definition emit (e : Event) : M unit :=
  fun w => (Ok tt, {| files := files w; log := log w ++ [e] |}).

(** [os.replace(src, dst)]. *)
Definition os_replace (src dst : string) : M unit :=
  fun w =>
    match files w !! src with
    | Some r =>
        (Ok tt, {| files := <[dst := r]> (delete src (files w));
                   log := log w |})
    | None => (Raise FileNotFoundError, w)
    end.

(** Modelled from the spec: [change_epsg_tif] of [dswx_sar_util], the
    reprojection collaborator (input path, output path, target CRS code,
    output no-data value).  It reads the input raster and writes its
    reprojection to the output path. *)
Definition change_epsg_tif (input_tif output_tif : string)
    (epsg_output output_nodata : Z) : M unit :=
  do r <- read_file input_tif;
  write_file output_tif (RWarp r epsg_output output_nodata).

(** Modelled from the spec: [DSWXGeogrid] of [dswx_sar.dswx_geogrid], the
    accumulator widened by each registration of a raster's footprint.  It is
    kept as the rasters registered so far, each as the file was when read;
    the footprint union is a fold over them. *)
Definition DSWXGeogrid : Type := list (string * Raster).

(** Modelled from the spec: [DSWXGeogrid.update_geogrid]; it opens the
    raster at the path and registers its footprint. *)
Definition update_geogrid (geogrid_in : DSWXGeogrid) (path : string)
  : M DSWXGeogrid :=
  do r <- read_file path;
  ret (geogrid_in ++ [(path, r)]).

(** Modelled from the spec: [mosaic_single_output_file] of
    [mosaic_rtc_burst], the combination collaborator (list of raster paths,
    observation-count rasters, output path, mode, scratch directory, target
    geogrid).  It reads every input and writes the merged raster. *)
Definition mosaic_single_output_file (input_list : list string)
    (nlooks_list : list string) (output : string) (mosaic_mode : string)
    (scratch_dir : string) (geogrid_in : DSWXGeogrid) : M unit :=
  do _ <- emit (EvMosaic input_list output);
  do rs <- fold_ (fun p acc => do r <- read_file p; ret (acc ++ [r]))
                 input_list [];
  write_file output (RMosaic rs mosaic_mode geogrid_in).

(** The majority-vote collaborator [majority_element] of
    [mosaic_rtc_burst] is a parameter of the development. *)
Class Collaborators : Type := {
  majority_element : list Z -> Z
}.

Fixpoint count_occ_Z (x : Z) (l : list Z) : nat :=
  match l with
  | [] => 0%nat
  | y :: l' => Nat.add (if x =? y then 1%nat else 0%nat) (count_occ_Z x l')
  end.

(** Modelled from the spec: a majority vote over the CRS codes, used where
    a concrete collaborator is needed: the code with the most occurrences,
    the earliest such on a tie (0 on an empty array). *)
Definition majority_vote (l : list Z) : Z :=
  fold_right
    (fun x best =>
       if (count_occ_Z best l <=? count_occ_Z x l)%nat then x else best)
    (hd 0 l) l.

Definition vote : Collaborators := {| majority_element := majority_vote |}.

(** The content of one input HDF5 archive that the reader looks at.  The
    scalar and coordinate datasets and the metadata are taken to be
    present; the raster layers are looked up by dataset path. *)
Record H5Product : Type := {
  listOfPolarizations : list string;
  projection : Z;
  xCoordinates : list spec_float;
  yCoordinates : list spec_float;
  xCoordinateSpacing : spec_float;
  yCoordinateSpacing : spec_float;
  orbitPassDirection : string;
  lookDirection : string;
  productVersion : string;
  zeroDopplerStartTime : string;
  zeroDopplerEndTime : string;
  frameNumber : Z;
  trackNumber : Z;
  absoluteOrbitNumber : Z;
  l1SlcGranules : list string;
  layers : gmap string Dataset
}.

(** The input paths that exist, with the archive at each. *)
Definition Archives : Type := gmap string H5Product.

(** [gdal.Open('HDF5:<input_rtc>:/<dataset_path>')]: the layer, or [None]
    when it cannot be opened. *)
Definition gdal_Open (archives : Archives) (input_rtc dataset_path : string)
  : option Dataset :=
  p ← archives !! input_rtc; layers p !! dataset_path.

(* ===================================================================== *)
(** * Strings and paths *)
(* ===================================================================== *)

(** [s.split(c)] for a one-character separator. *)
Fixpoint str_split (c : ascii) (s : string) : list string :=
  match s with
  | EmptyString => [EmptyString]
  | String a s' =>
      if Ascii.eqb a c then EmptyString :: str_split c s'
      else match str_split c s' with
           | [] => [String a EmptyString]
           | p :: ps => String a p :: ps
           end
  end.

(** [s.rfind(c)], with [None] for -1. *)
Fixpoint str_rfind (c : ascii) (s : string) : option nat :=
  match s with
  | EmptyString => None
  | String a s' =>
      match str_rfind c s' with
      | Some i => Some (S i)
      | None => if Ascii.eqb a c then Some 0%nat else None
      end
  end.

(** [Path(p).name]: the last component of the path. *)
Definition Path_name (p : string) : string :=
  default EmptyString
    (last (filter (fun c => c <> EmptyString /\ c <> "."%string)
                  (str_split "/"%char p))).

(** [Path(p).stem]: the name without its last suffix. *)
Definition Path_stem (p : string) : string :=
  let name := Path_name p in
  match str_rfind "."%char name with
  | Some i =>
      if ((0 <? i) && (i <? String.length name - 1))%nat
      then String.substring 0 i name
      else name
  | None => name
  end.

(** [str(n)] for an integer. *)
Definition str_of_Z (n : Z) : string := NilZero.string_of_int (Z.to_int n).

(** [np.sort] on an array of byte strings. *)
Fixpoint sorted_insert (x : string) (l : list string) : list string :=
  match l with
  | [] => [x]
  | y :: l' => if String.leb x y then x :: l else y :: sorted_insert x l'
  end.

Definition np_sort (l : list string) : list string :=
  fold_right sorted_insert [] l.

(** [np.all(a == b)] on two 1-D arrays: element-wise on equal shapes, by
    broadcasting when one side has a single element, and [None] when the
    shapes do not broadcast. *)
Definition np_all_eq (a b : list string) : option bool :=
  if (length a =? length b)%nat then
    Some (forallb (fun p => String.eqb (fst p) (snd p)) (zip a b))
  else
    match a, b with
    | [x], _ => Some (forallb (String.eqb x) b)
    | _, [y] => Some (forallb (fun x => String.eqb x y) a)
    | _, _ => None
    end.

(** The argument of [generate_nisar_dataset_name]: one name or several. *)
Inductive str_or_list : Type :=
  | OneStr (s : string)
  | StrList (l : list string).

(* ===================================================================== *)
(** * The reader: [RTCReader] *)
(* ===================================================================== *)

(** The instance attributes set by [DataReader.__init__]. *)
Record RTCReader : Type := {
  self_row_blk_size : Z;
  self_col_blk_size : Z
}.

(** The local variables of [write_rtc_geotiff] that are read after the
    loop that binds them; [None] is a name not bound yet. *)
Record Locals : Type := {
  output_gtiff : option string;
  num_rows : option Z;
  row_blk_size : option Z;
  geotransform : option Affine;
  crs : option string;
  dswx_metadata_dict : option Metadata
}.

Definition no_locals : Locals :=
  {| output_gtiff := None; num_rows := None; row_blk_size := None;
     geotransform := None; crs := None; dswx_metadata_dict := None |}.

Definition bind_geodata (loc : Locals) (g : Affine) (c : string)
    (d : Metadata) : Locals :=
  {| output_gtiff := output_gtiff loc; num_rows := num_rows loc;
     row_blk_size := row_blk_size loc;
     geotransform := Some g; crs := Some c; dswx_metadata_dict := Some d |}.

Definition bind_output_gtiff (loc : Locals) (p : string) : Locals :=
  {| output_gtiff := Some p; num_rows := num_rows loc;
     row_blk_size := row_blk_size loc;
     geotransform := geotransform loc; crs := crs loc;
     dswx_metadata_dict := dswx_metadata_dict loc |}.

Definition bind_rows (loc : Locals) (n b : Z) : Locals :=
  {| output_gtiff := output_gtiff loc; num_rows := Some n;
     row_blk_size := Some b;
     geotransform := geotransform loc; crs := crs loc;
     dswx_metadata_dict := dswx_metadata_dict loc |}.

Definition frequencyA : string := "/science/LSAR/GCOV/grids/frequencyA/".

(** [f'{scratch_dir}/{prefix}_{data_name}.tif'] and its temporary twin. *)
Definition gtiff_path (scratch_dir prefix data_name : string) : string :=
  scratch_dir +:+ "/" +:+ prefix +:+ "_" +:+ data_name +:+ ".tif".

Definition temp_gtiff_path (scratch_dir prefix data_name : string) : string :=
  scratch_dir +:+ "/" +:+ prefix +:+ "_temp_" +:+ data_name +:+ ".tif".

(** [Path(dataset_path).name[:2]]. *)
Definition data_name_of (dataset_path : string) : string :=
  String.substring 0 2 (Path_name dataset_path).

(** [Path(input_rtc).stem.split('-')[0]]. *)
Definition stem_prefix (input_rtc : string) : string :=
  hd EmptyString (str_split "-"%char (Path_stem input_rtc)).

(** The per-sample effect of the three mask assignments of
    [read_write_rtc], in their order. *)
Definition sanitize (designated_value x : spec_float) : spec_float :=
  let x := if np_isinf x then designated_value else x in
  let x := if np_gt x designated_value then designated_value else x in
  if np_eq x (S754_zero false) then np_nan else x.

Section Reader.

Context `{Collaborators}.
Variable archives : Archives.
Variable self : RTCReader.

(** [extract_file_name]. *)
Definition extract_file_name (input_rtc : string) : M string :=
  match archives !! input_rtc with
  | None => raise FileNotFoundError
  | Some _ =>
      let file_name := stem_prefix input_rtc in
      ret file_name
  end.

(** One turn of the loop of [extract_nisar_polarization]. *)
Definition read_polarizations (input_rtc : string)
    (polarizations : list string) : M (list string) :=
  match archives !! input_rtc with
  | None => raise FileNotFoundError
  | Some src_h5 =>
      let pols := np_sort (listOfPolarizations src_h5) in
      if (length polarizations =? 0)%nat then ret pols
      else
        match np_all_eq polarizations pols with
        | Some true => ret polarizations
        | _ => raise ValueError
        end
  end.

(** [extract_nisar_polarization]. *)
Definition extract_nisar_polarization (input_list : list string)
  : M (list string) :=
  do polarizations <- fold_ read_polarizations input_list [];
  let pols_rtc := polarizations in
  ret pols_rtc.

(** [generate_nisar_dataset_name]. *)
Definition generate_nisar_dataset_name (data_name : str_or_list)
  : list string :=
  let data_name :=
    match data_name with
    | OneStr s => [s]
    | StrList l => l
    end in
  let group := frequencyA in
  (fun dname => group +:+ dname +:+ dname) <$> data_name.

(** [generate_nisar_layover_name]. *)
Definition generate_nisar_layover_name (layover_name : string) : string :=
  let group := frequencyA in
  group +:+ layover_name.

(** [get_nisar_epsg]. *)
Definition get_nisar_epsg (input_list : list string) : M (list Z * bool) :=
  do epsg_array <-
    fold_ (fun input_rtc acc =>
             match archives !! input_rtc with
             | None => raise FileNotFoundError
             | Some src_h5 => ret (acc ++ [projection src_h5])
             end) input_list [];
  match epsg_array with
  | [] => raise IndexError
  | e0 :: _ =>
      let epsg_same_flag := forallb (fun e => e =? e0) epsg_array in
      ret (epsg_array, epsg_same_flag)
  end.

(** One turn of the inner loop of [read_write_rtc]: read the block,
    sanitize it, write it to its window. *)
Definition write_block (h5_ds : Dataset) (designated_value : spec_float)
    (slice_row slice_col : slice) : ST GTiff unit :=
  let row_slice_size := stop slice_row - start slice_row in
  let col_slice_size := stop slice_col - start slice_col in
  match ReadAsArray h5_ds (start slice_col) (start slice_row)
                    col_slice_size row_slice_size with
  | None => raise TypeError
  | Some ds_blk =>
      let ds_blk := mask_assign np_isinf designated_value ds_blk in
      let ds_blk :=
        mask_assign (fun x => np_gt x designated_value)
                    designated_value ds_blk in
      let ds_blk :=
        mask_assign (fun x => np_eq x (S754_zero false)) np_nan ds_blk in
      do dst <- get;
      do dst' <- lift_res
        (dst_write dst ds_blk
           {| col_off := start slice_col; row_off := start slice_row;
              win_width := col_slice_size;
              win_height := row_slice_size |});
      put dst'
  end.

(** The two loops of [read_write_rtc], on the raster being written. *)
Definition write_blocks (h5_ds : Dataset) (num_rows num_cols : Z)
    (row_blk_size col_blk_size : Z) (designated_value : spec_float)
  : ST GTiff unit :=
  do rows <- lift_res (slice_gen num_rows row_blk_size true);
  for_ rows (fun slice_row =>
    do cols <- lift_res (slice_gen num_cols col_blk_size true);
    for_ cols (fun slice_col =>
      write_block h5_ds designated_value slice_row slice_col)).

(** [read_write_rtc].  The file is created first and holds whatever was
    written when the call returns or raises.  The raster is created with
    the size asked for; a size that is not positive, with which no file can
    be created, is outside the model. *)
Definition read_write_rtc (h5_ds : Dataset) (output_gtiff : string)
    (num_rows num_cols : Z) (row_blk_size col_blk_size : Z)
    (designated_value : spec_float) (geotransform : Affine) (crs : string)
    (dswx_metadata_dict : Metadata) : M unit :=
  let row_blk_size := self_row_blk_size self in
  let col_blk_size := self_col_blk_size self in
  let created :=
    {| gt_height := num_rows; gt_width := num_cols; gt_crs := crs;
       gt_transform := geotransform; gt_band := ∅; gt_tags := [] |} in
  let '(r, dst) :=
    (do _ <- write_blocks h5_ds num_rows num_cols row_blk_size col_blk_size
                          designated_value;
     do dst <- get;
     put (update_tags dst dswx_metadata_dict)) created in
  do _ <- write_file output_gtiff (RTif dst);
  lift_res r.

(** [read_geodata_hdf5]. *)
Definition read_geodata_hdf5 (input_rtc : string) : M (Affine * string) :=
  match archives !! input_rtc with
  | None => raise FileNotFoundError
  | Some src_h5 =>
      match xCoordinates src_h5, yCoordinates src_h5 with
      | xmin :: _, ymin :: _ =>
          let xres := xCoordinateSpacing src_h5 in
          let yres := yCoordinateSpacing src_h5 in
          let epsg := projection src_h5 in
          let geotransform :=
            Affine_mul
              (Affine_translation
                 (f64_sub xmin (f64_div xres (f64_of_Z 2)))
                 (f64_sub ymin (f64_div yres (f64_of_Z 2))))
              (Affine_scale xres yres) in
          let crs := "EPSG:" +:+ str_of_Z epsg in
          ret (geotransform, crs)
      | _, _ => raise IndexError
      end
  end.

(** [read_metadata_hdf5]. *)
Definition read_metadata_hdf5 (input_rtc : string) : M Metadata :=
  match archives !! input_rtc with
  | None => raise FileNotFoundError
  | Some src_h5 =>
      match l1SlcGranules src_h5 with
      | [] => raise IndexError
      | input_slc_granules :: _ =>
          ret [ ("ORBIT_PASS_DIRECTION", MStr (orbitPassDirection src_h5));
                ("LOOK_DIRECTION", MStr (lookDirection src_h5));
                ("INPUT_L1_SLC_GRANULES", MStr input_slc_granules);
                ("PRODUCT_VERSION", MStr (productVersion src_h5));
                ("ZERO_DOPPLER_START_TIME", MStr (zeroDopplerStartTime src_h5));
                ("ZERO_DOPPLER_END_TIME", MStr (zeroDopplerEndTime src_h5));
                ("FRAME_NUMBER", MInt (frameNumber src_h5));
                ("TRACK_NUMBER", MInt (trackNumber src_h5));
                ("ABSOLUTE_ORBIT_NUMBER", MInt (absoluteOrbitNumber src_h5)) ]
      end
  end.

(** First loop of [write_rtc_geotiff], one input: create the
    intermediate GeoTIFF of every channel. *)
Definition stage_input (scratch_dir : string) (data_path : list string)
    (designated_value : spec_float) (input_rtc : string) (loc : Locals)
  : M Locals :=
  do output_prefix <- extract_file_name input_rtc;
  do gc <- read_geodata_hdf5 input_rtc;
  let geotransform := fst gc in
  let crs := snd gc in
  do dswx_metadata_dict <- read_metadata_hdf5 input_rtc;
  let loc := bind_geodata loc geotransform crs dswx_metadata_dict in
  fold_ (fun dataset_path loc =>
    let data_name := data_name_of dataset_path in
    let output_gtiff := gtiff_path scratch_dir output_prefix data_name in
    let loc := bind_output_gtiff loc output_gtiff in
    match gdal_Open archives input_rtc dataset_path with
    | None => raise AttributeError
    | Some h5_ds =>
        let num_cols := RasterXSize h5_ds in
        let num_rows := RasterYSize h5_ds in
        let row_blk_size := self_row_blk_size self in
        let col_blk_size := self_col_blk_size self in
        do _ <- read_write_rtc h5_ds output_gtiff num_rows num_cols
                  row_blk_size col_blk_size designated_value
                  geotransform crs dswx_metadata_dict;
        ret (bind_rows loc num_rows row_blk_size)
    end) data_path loc.

(** Second loop of [write_rtc_geotiff], one input: reproject the channel
    rasters of an input whose EPSG is not the most frequent one, and
    update the geogrid. *)
Definition harmonize_input (scratch_dir : string) (epsg_array : list Z)
    (most_freq_epsg : Z) (data_path : list string)
    (ix : nat * string) (acc : Locals * DSWXGeogrid)
  : M (Locals * DSWXGeogrid) :=
  let input_idx := fst ix in
  let input_rtc := snd ix in
  do input_prefix <- extract_file_name input_rtc;
  match epsg_array !! input_idx with
  | None => raise IndexError
  | Some epsg =>
      if negb (epsg =? most_freq_epsg) then
        fold_ (fun dataset_path acc =>
          let loc := fst acc in
          let geogrid_in := snd acc in
          let data_name := data_name_of dataset_path in
          let input_gtiff := gtiff_path scratch_dir input_prefix data_name in
          let temp_gtiff :=
            temp_gtiff_path scratch_dir input_prefix data_name in
          do _ <- change_epsg_tif input_gtiff temp_gtiff most_freq_epsg 255;
          match output_gtiff loc with
          | None => raise UnboundLocalError
          | Some output_gtiff =>
              do geogrid_in <- update_geogrid geogrid_in output_gtiff;
              do _ <- os_replace temp_gtiff input_gtiff;
              ret (loc, geogrid_in)
          end) data_path acc
      else
        fold_ (fun dataset_path acc =>
          let loc := fst acc in
          let geogrid_in := snd acc in
          let data_name := data_name_of dataset_path in
          let output_gtiff := gtiff_path scratch_dir input_prefix data_name in
          let loc := bind_output_gtiff loc output_gtiff in
          do geogrid_in <- update_geogrid geogrid_in output_gtiff;
          ret (loc, geogrid_in)) data_path acc
  end.

(** Third loop of [write_rtc_geotiff], one input: the layover/shadow
    mask.  The result also carries [layover_exist] and whether the loop
    is left. *)
Definition layover_input (scratch_dir : string) (epsg_array : list Z)
    (most_freq_epsg : Z) (layover_path : string)
    (designated_value : spec_float) (loc : Locals)
    (ix : nat * string) (acc : option bool * DSWXGeogrid)
  : M (option bool * DSWXGeogrid * bool) :=
  let input_idx := fst ix in
  let input_rtc := snd ix in
  let geogrid_in := snd acc in
  let layover_data := "HDF5:" +:+ input_rtc +:+ ":/" +:+ layover_path in
  match gdal_Open archives input_rtc layover_path with
  | None =>
      do _ <- emit (EvWarn layover_data);
      let layover_exist := false in
      ret (Some layover_exist, geogrid_in, true)
  | Some h5_layover =>
      let layover_exist := true in
      do output_prefix <- extract_file_name input_rtc;
      let output_layover_gtiff :=
        scratch_dir +:+ "/" +:+ output_prefix +:+ "_layover.tif" in
      let num_cols := RasterXSize h5_layover in
      let col_blk_size := self_col_blk_size self in
      match num_rows loc, row_blk_size loc, geotransform loc, crs loc,
            dswx_metadata_dict loc with
      | Some num_rows, Some row_blk_size, Some geotransform, Some crs,
        Some dswx_metadata_dict =>
          do _ <- read_write_rtc h5_layover output_layover_gtiff
                    num_rows num_cols row_blk_size col_blk_size
                    designated_value geotransform crs dswx_metadata_dict;
          match epsg_array !! input_idx with
          | None => raise IndexError
          | Some epsg =>
              if negb (epsg =? most_freq_epsg) then
                do input_prefix <- extract_file_name input_rtc;
                let input_layover_gtiff :=
                  scratch_dir +:+ "/" +:+ input_prefix +:+ "_layover.tif" in
                let temp_layover_gtiff :=
                  scratch_dir +:+ "/" +:+ input_prefix
                              +:+ "_temp_layover.tif" in
                do _ <- change_epsg_tif input_layover_gtiff
                          temp_layover_gtiff most_freq_epsg 255;
                do geogrid_in <- update_geogrid geogrid_in
                                   output_layover_gtiff;
                do _ <- os_replace temp_layover_gtiff input_layover_gtiff;
                ret (Some layover_exist, geogrid_in, false)
              else
                do geogrid_in <- update_geogrid geogrid_in
                                   output_layover_gtiff;
                ret (Some layover_exist, geogrid_in, false)
          end
      | _, _, _, _, _ => raise UnboundLocalError
      end
  end.

(** [write_rtc_geotiff]. *)
Definition write_rtc_geotiff (input_list : list string)
    (output_dir scratch_dir : string) (epsg_array : list Z)
    (data_path : list string) (layover_path : string)
  : M (bool * DSWXGeogrid) :=
  let most_freq_epsg := majority_element epsg_array in
  let designated_value := np_float32 500 in
  do loc <- fold_ (stage_input scratch_dir data_path designated_value)
                  input_list no_locals;
  let geogrid_in : DSWXGeogrid := [] in
  do lg <- fold_ (harmonize_input scratch_dir epsg_array most_freq_epsg
                                  data_path)
                 (enumerate input_list) (loc, geogrid_in);
  let loc := fst lg in
  let geogrid_in := snd lg in
  do eg <- fold_break
             (layover_input scratch_dir epsg_array most_freq_epsg
                            layover_path designated_value loc)
             (enumerate input_list) (None, geogrid_in);
  match fst eg with
  | None => raise UnboundLocalError
  | Some layover_exist => ret (layover_exist, snd eg)
  end.

(** [mosaic_rtc_geotiff]. *)
Definition mosaic_rtc_geotiff (input_list : list string)
    (data_path : list string) (output_dir scratch_dir : string)
    (geogrid_in : DSWXGeogrid) (nlooks_list : list string)
    (mosaic_mode mosaic_prefix : string) (layover_exist : bool) : M unit :=
  do _ <- for_ data_path (fun dataset_path =>
    let data_name := data_name_of dataset_path in
    do input_gtiff_list <-
      fold_ (fun input_rtc input_gtiff_list =>
               do input_prefix <- extract_file_name input_rtc;
               let input_gtiff :=
                 gtiff_path scratch_dir input_prefix data_name in
               ret (input_gtiff_list ++ [input_gtiff]))
            input_list [];
    let output_mosaic_gtiff :=
      output_dir +:+ "/" +:+ mosaic_prefix +:+ "_" +:+ data_name +:+ ".tif" in
    mosaic_single_output_file input_gtiff_list nlooks_list
                              output_mosaic_gtiff mosaic_mode scratch_dir
                              geogrid_in);
  if layover_exist then
    do layover_gtiff_list <-
      fold_ (fun input_rtc layover_gtiff_list =>
               do input_prefix <- extract_file_name input_rtc;
               let layover_gtiff :=
                 scratch_dir +:+ "/" +:+ input_prefix +:+ "_layover.tif" in
               ret (layover_gtiff_list ++ [layover_gtiff]))
            input_list [];
    let layover_mosaic_gtiff :=
      output_dir +:+ "/" +:+ mosaic_prefix +:+ "_layover.tif" in
    mosaic_single_output_file layover_gtiff_list nlooks_list
                              layover_mosaic_gtiff mosaic_mode scratch_dir
                              geogrid_in
  else ret tt.

(** [process_rtc_hdf5]. *)
Definition process_rtc_hdf5 (input_list : list string)
    (output_dir scratch_dir mosaic_mode mosaic_prefix : string) : M unit :=
  do pols_rtc <- extract_nisar_polarization input_list;
  let data_path := generate_nisar_dataset_name (StrList pols_rtc) in
  let layover_mask_name := "layoverShadowMask"%string in
  let layover_path := generate_nisar_layover_name layover_mask_name in
  do ef <- get_nisar_epsg input_list;
  let epsg_array := fst ef in
  do lg <- write_rtc_geotiff input_list output_dir scratch_dir epsg_array
                             data_path layover_path;
  let layover_exist := fst lg in
  let geogrid_in := snd lg in
  let nlooks_list : list string := [] in
  mosaic_rtc_geotiff input_list data_path output_dir scratch_dir geogrid_in
                     nlooks_list mosaic_mode mosaic_prefix layover_exist.

End Reader.

(** A computation keeps a property of the state, whether it returns or
    raises. *)
Definition keeps {S A} (I : S -> Prop) (m : ST S A) : Prop :=
  forall s, I s -> I (snd (m s)).

(* ===================================================================== *)
(** * Statements of the design document *)
(* ===================================================================== *)

(** The sanitization rule as the design document words it, between a
    source sample [x] and the written sample [y]: positive infinity and
    values above 500 become 500, an exact zero becomes NaN, every other
    value is unchanged. *)
Definition documented_sanitization (x y : spec_float) : Prop :=
  (x = S754_infinity false -> y = np_float32 500) /\
  (np_gt x (np_float32 500) = true -> y = np_float32 500) /\
  (np_eq x (S754_zero false) = true -> y = np_nan) /\
  (x <> S754_infinity false -> np_gt x (np_float32 500) = false ->
   np_eq x (S754_zero false) = false -> y = x).

(** What the writer does: as above, with both infinities sent to 500. *)
Definition applied_sanitization (x y : spec_float) : Prop :=
  (np_isinf x = true -> y = np_float32 500) /\
  (np_gt x (np_float32 500) = true -> y = np_float32 500) /\
  (np_eq x (S754_zero false) = true -> y = np_nan) /\
  (np_isinf x = false -> np_gt x (np_float32 500) = false ->
   np_eq x (S754_zero false) = false -> y = x).

(** Every sample present in the band is the sanitized source sample at
    the same row and column. *)
Definition band_sanitized (ds : Dataset) (dv : spec_float) (dst : GTiff)
  : Prop :=
  forall r c y, gt_band dst !! (r, c) = Some y ->
                y = sanitize dv (band_value ds r c).

(** A slice that is not empty and lies inside [[0, total]]. *)
Definition slice_within (total : Z) (s : slice) : Prop :=
  0 <= start s /\ start s < stop s /\ stop s <= total.

(** Every sample of the window of two slices has been written. *)
Definition window_written (slice_row slice_col : slice) (dst : GTiff)
  : Prop :=
  forall r c, in_slice r slice_row -> in_slice c slice_col ->
              is_Some (gt_band dst !! (r, c)).

(** No sample written so far has been lost. *)
Definition band_grows (dst dst' : GTiff) : Prop :=
  forall k, is_Some (gt_band dst !! k) -> is_Some (gt_band dst' !! k).

(** The header of the raster is the one given at creation, and no sample
    lies outside its dimensions. *)
Definition header_is (nr nc : Z) (c : string) (g : Affine) (dst : GTiff)
  : Prop :=
  gt_height dst = nr /\ gt_width dst = nc /\ gt_crs dst = c
  /\ gt_transform dst = g /\ gt_tags dst = []
  /\ forall r col, is_Some (gt_band dst !! (r, col)) ->
                   0 <= r < nr /\ 0 <= col < nc.

(** Two polarization lists name the same set of channels. *)
Definition same_pol_set (a b : list string) : Prop :=
  forall x, x ∈ a <-> x ∈ b.

(** The mosaics requested in a log, in order: input paths and output
    path of each. *)
Fixpoint mosaics (l : list Event) : list (list string * string) :=
  match l with
  | [] => []
  | EvMosaic inputs output :: l' => (inputs, output) :: mosaics l'
  | EvWarn _ :: l' => mosaics l'
  end.

(** The requests of mosaics made so far. *)
Definition requested (L : list (list string * string)) (w : World) : Prop :=
  mosaics (log w) = L.

(** The input exposes the layover/shadow mask dataset. *)
Definition exposes_layover (archives : Archives) (input_rtc : string) : bool :=
  match gdal_Open archives input_rtc (frequencyA +:+ "layoverShadowMask") with
  | Some _ => true
  | None => false
  end.

(** The mosaic of one channel over the intermediate rasters of every
    input, and the mosaic of the layover masks of every input. *)
Definition channel_mosaic (input_list : list string)
    (output_dir scratch_dir mosaic_prefix dataset_path : string)
  : list string * string :=
  ((fun q => gtiff_path scratch_dir (stem_prefix q) (data_name_of dataset_path))
     <$> input_list,
   output_dir +:+ "/" +:+ mosaic_prefix +:+ "_"
              +:+ data_name_of dataset_path +:+ ".tif").

Definition layover_mosaic (input_list : list string)
    (output_dir scratch_dir mosaic_prefix : string) : list string * string :=
  ((fun q => scratch_dir +:+ "/" +:+ stem_prefix q +:+ "_layover.tif")
     <$> input_list,
   output_dir +:+ "/" +:+ mosaic_prefix +:+ "_layover.tif").



(** The effect of harmonization on one raster file, from its content
    [before] to its content [after]: a conforming raster is left as it was,
    a non-conforming one is replaced by its reprojection to the most
    frequent EPSG with no-data value 255. *)
Definition harmonized (most : Z) (conforming : bool)
    (before after : option Raster) : Prop :=
  if conforming then after = before
  else exists r, before = Some r /\ after = Some (RWarp r most 255).

(** The layover raster of an input, and its temporary twin. *)
Definition layover_gtiff_path (scratch_dir input_rtc : string) : string :=
  scratch_dir +:+ "/" +:+ stem_prefix input_rtc +:+ "_layover.tif".

Definition temp_layover_gtiff_path (scratch_dir input_rtc : string) : string :=
  scratch_dir +:+ "/" +:+ stem_prefix input_rtc +:+ "_temp_layover.tif".

(** Whether a raster file is the output of the reprojection
    collaborator. *)
Definition is_reprojected (r : Raster) : bool :=
  match r with
  | RWarp _ _ _ => true
  | _ => false
  end.

(** The CRS in the header of a GeoTIFF the reader wrote. *)
Definition header_crs (r : Raster) : option string :=
  match r with
  | RTif t => Some (gt_crs t)
  | _ => None
  end.

(** The geotransform in the header of a GeoTIFF the reader wrote. *)
Definition raster_transform (r : Raster) : option Affine :=
  match r with
  | RTif t => Some (gt_transform t)
  | _ => None
  end.

(** The registrations of a geogrid: the path of each raster, and whether
    the file was a reprojected one when registered. *)
Definition registrations (g : DSWXGeogrid) : list (string * bool) :=
  (fun pr => (fst pr, is_reprojected (snd pr))) <$> g.

(** The geotransform [read_geodata_hdf5] resolves for an input. *)
Definition geotransform_of (archives : Archives) (input_rtc : string)
  : option Affine :=
  match fst (read_geodata_hdf5 archives input_rtc
                               {| files := ∅; log := [] |}) with
  | Ok gc => Some (fst gc)
  | Raise _ => None
  end.

(** ** A batch on which the run completes *)

(** The intermediate rasters of a batch (channels, then layover masks) and
    the temporary files used to reproject them. *)
Definition gtiff_paths (scratch_dir : string) (data_path input_list : list string)
  : list string :=
  q ← input_list; dp ← data_path;
  [gtiff_path scratch_dir (stem_prefix q) (data_name_of dp)].

Definition layover_paths (scratch_dir : string) (input_list : list string)
  : list string :=
  layover_gtiff_path scratch_dir <$> input_list.

Definition temp_paths (scratch_dir : string) (data_path input_list : list string)
  : list string :=
  (q ← input_list; dp ← data_path;
   [temp_gtiff_path scratch_dir (stem_prefix q) (data_name_of dp)])
  ++ (temp_layover_gtiff_path scratch_dir <$> input_list).

(** The EPSG code of an input (0 when the path does not exist). *)
Definition epsg_of (archives : Archives) (q : string) : Z :=
  from_option projection 0 (archives !! q).

(** An input the first loop can stage: the archive exists, carries the
    polarizations [P], has coordinates and a granule list, and each channel
    layer has at least one block of rows and of columns. *)
Definition stageable (archives : Archives) (self : RTCReader)
    (P : list string) (q : string) : Prop :=
  exists prod,
    archives !! q = Some prod
    /\ np_sort (listOfPolarizations prod) = P
    /\ xCoordinates prod <> [] /\ yCoordinates prod <> []
    /\ l1SlcGranules prod <> []
    /\ forall dp, dp ∈ generate_nisar_dataset_name (StrList P) ->
         exists ds, layers prod !! dp = Some ds
                    /\ self_row_blk_size self <= RasterYSize ds
                    /\ self_col_blk_size self <= RasterXSize ds.

(** The layover mask of an input, when it has one, has at least one block
    of columns and at least as many rows as every channel layer of the
    batch. *)
Definition mask_fits (archives : Archives) (self : RTCReader)
    (P input_list : list string) (q : string) : Prop :=
  forall ds_l,
    gdal_Open archives q (frequencyA +:+ "layoverShadowMask") = Some ds_l ->
    P <> []
    /\ self_col_blk_size self <= RasterXSize ds_l
    /\ forall q' dp ds,
         q' ∈ input_list ->
         dp ∈ generate_nisar_dataset_name (StrList P) ->
         gdal_Open archives q' dp = Some ds ->
         RasterYSize ds <= RasterYSize ds_l.

(** A batch on which every step of the run goes through. *)
Definition well_formed_batch (archives : Archives) (self : RTCReader)
    (scratch_dir : string) (P input_list : list string) : Prop :=
  input_list <> []
  /\ 0 < self_row_blk_size self /\ 0 < self_col_blk_size self
  /\ (forall q, q ∈ input_list ->
        stageable archives self P q
        /\ mask_fits archives self P input_list q)
  /\ (forall p,
        p ∈ temp_paths scratch_dir (generate_nisar_dataset_name (StrList P))
                       input_list ->
        (p ∉ gtiff_paths scratch_dir
               (generate_nisar_dataset_name (StrList P)) input_list)
        /\ (p ∉ layover_paths scratch_dir input_list)).

(** Every path of the list is a file. *)
Definition exist_all (paths : list string) (w : World) : Prop :=
  forall p, p ∈ paths -> is_Some (files w !! p).

(** The names the first loop leaves bound, on a batch with some channel. *)
Definition staged (archives : Archives) (self : RTCReader)
    (scratch_dir : string) (data_path input_list : list string)
    (loc : Locals) : Prop :=
  is_Some (geotransform loc) /\ is_Some (crs loc)
  /\ is_Some (dswx_metadata_dict loc)
  /\ (data_path <> [] ->
      row_blk_size loc = Some (self_row_blk_size self)
      /\ (exists p, output_gtiff loc = Some p
                    /\ p ∈ gtiff_paths scratch_dir data_path input_list)
      /\ (exists q dp ds,
            q ∈ input_list /\ dp ∈ data_path
            /\ gdal_Open archives q dp = Some ds
            /\ num_rows loc = Some (RasterYSize ds))).

(* ===================================================================== *)
(** * The entry point: [run] *)
(* ===================================================================== *)

(** The fields of the run configuration that [run] reads:
    [cfg.groups.input_file_group.input_file_path],
    [cfg.groups.processing.mosaic.mosaic_mode], [.mosaic_prefix],
    [.read_row_blk_size], [.read_col_blk_size] and
    [cfg.groups.product_path_group.scratch_path]. *)
Record RunConfig : Type := {
  input_file_path : list string;
  mosaic_mode : string;
  mosaic_prefix : string;
  scratch_path : string;
  read_row_blk_size : Z;
  read_col_blk_size : Z
}.

(** [os.makedirs(path, exist_ok=True)].  The state holds raster files and
    no directories; the call leaves it as it is. *)
Definition os_makedirs (path : string) : M unit := ret tt.

(** [run]: the reader is built from the block sizes of the configuration
    and the scratch directory is passed for both directories of
    [process_rtc_hdf5]. *)
Definition run `{Collaborators} (archives : Archives) (cfg : RunConfig)
  : M unit :=
  let input_list := input_file_path cfg in
  let mosaic_mode := mosaic_mode cfg in
  let mosaic_prefix := mosaic_prefix cfg in
  let scratch_dir := scratch_path cfg in
  do _ <- os_makedirs scratch_dir;
  let row_blk_size := read_row_blk_size cfg in
  let col_blk_size := read_col_blk_size cfg in
  let reader :=
    {| self_row_blk_size := row_blk_size;
       self_col_blk_size := col_blk_size |} in
  process_rtc_hdf5 archives reader input_list scratch_dir scratch_dir
                   mosaic_mode mosaic_prefix.

(* ===================================================================== *)
(** * Membership functions ([fuzzy_value_computation.py]) *)
(* ===================================================================== *)

(** [>=] and [<=] on samples; false when a NaN is involved. *)
Definition np_ge (x y : spec_float) : bool := SFleb y x.
Definition np_le (x y : spec_float) : bool := SFleb x y.

(** Conversion of a double to [float32], to nearest even. *)
Definition f32_of_f64 (x : spec_float) : spec_float :=
  match x with
  | S754_finite s m e =>
      binary_normalize 24 128 (if s then Z.neg m else Z.pos m) e s
  | _ => x
  end.

Definition f32_sub := SFsub 24 128.
Definition f32_mul := SFmul 24 128.
Definition f32_div := SFdiv 24 128.

(** [smf(values, minv, maxv)] on one element of [values], for Python
    floats [minv] and [maxv].  The element is converted to [float32]; the
    centre and the width are computed on doubles and converted when they
    meet the array; [x**2] is [x * x].  The four assignments to [output]
    are applied in their order. *)
Definition smf_value (minv maxv : spec_float) (value : spec_float)
  : spec_float :=
  let center_value := f64_div (f64_add minv maxv) (f64_of_Z 2) in
  let value := f32_of_f64 value in
  let output := S754_zero false in
  let width := f32_of_f64 (f64_sub maxv minv) in
  let membership :=
    let r := f32_div (f32_sub value (f32_of_f64 minv)) width in
    f32_mul (np_float32 2) (f32_mul r r) in
  let output :=
    if np_ge value (f32_of_f64 minv) && np_le value (f32_of_f64 center_value)
    then membership else output in
  let membership :=
    let r := f32_div (f32_sub value (f32_of_f64 maxv)) width in
    f32_sub (np_float32 1) (f32_mul (np_float32 2) (f32_mul r r)) in
  let output :=
    if np_ge value (f32_of_f64 center_value) && np_le value (f32_of_f64 maxv)
    then membership else output in
  let output :=
    if np_le value (f32_of_f64 minv) then np_float32 0 else output in
  let output :=
    if np_ge value (f32_of_f64 maxv) then np_float32 1 else output in
  output.

(** [smf] on an array, given as the list of its elements. *)
Definition smf (values : list spec_float) (minv maxv : spec_float)
  : list spec_float :=
  smf_value minv maxv <$> values.

(** [zmf(values, minv, maxv)] on one element of a [float64] array, for
    Python floats [minv] and [maxv] (as on the slope raster).  [mask_right]
    is computed by the same expression as [mask_left]. *)
Definition zmf_value (minv maxv : spec_float) (value : spec_float)
  : spec_float :=
  let center_value := f64_div (f64_add minv maxv) (f64_of_Z 2) in
  let output := S754_zero false in
  let membership_left :=
    let r := f64_div (f64_sub value minv) (f64_sub maxv minv) in
    f64_sub (f64_of_Z 1) (f64_mul (f64_of_Z 2) (f64_mul r r)) in
  let mask_left := np_ge value minv && np_le value center_value in
  let output := if mask_left then membership_left else output in
  let membership_right :=
    let r := f64_div (f64_sub value maxv) (f64_sub maxv minv) in
    f64_mul (f64_of_Z 2) (f64_mul r r) in
  let mask_right := np_ge value minv && np_le value center_value in
  let output := if mask_right then membership_right else output in
  let output := if np_ge value maxv then f64_of_Z 0 else output in
  let output := if np_le value minv then f64_of_Z 1 else output in
  output.

(** [zmf] on an array, given as the list of its elements. *)
Definition zmf (values : list spec_float) (minv maxv : spec_float)
  : list spec_float :=
  zmf_value minv maxv <$> values.

(* ===================================================================== *)
(** * Sample inputs *)
(* ===================================================================== *)

Definition dataset_of_rows (rows : list (list spec_float)) : Dataset :=
  {| RasterXSize := Z.of_nat (length (hd [] rows));
     RasterYSize := Z.of_nat (length rows);
     band_value := fun r c =>
       nth (Z.to_nat c) (nth (Z.to_nat r) rows []) S754_nan |}.

(** A product with the given polarization list, EPSG code, first x
    coordinate and layers; 30 m posting. *)
Definition sample_product (pols : list string) (epsg x0 : Z)
    (lay : list (string * Dataset)) : H5Product :=
  {| listOfPolarizations := pols; projection := epsg;
     xCoordinates := [f64_of_Z x0]; yCoordinates := [f64_of_Z 4000015];
     xCoordinateSpacing := f64_of_Z 30;
     yCoordinateSpacing := f64_of_Z (-30);
     orbitPassDirection := "Ascending"; lookDirection := "Left";
     productVersion := "0.1";
     zeroDopplerStartTime := "2023-01-01T00:00:00";
     zeroDopplerEndTime := "2023-01-01T00:00:10";
     frameNumber := 1; trackNumber := 2; absoluteOrbitNumber := 3;
     l1SlcGranules := ["slc.h5"%string];
     layers := list_to_map lay |}.

Definition HHHH : string := frequencyA +:+ "HHHH".
Definition VVVV : string := frequencyA +:+ "VVVV".
Definition layoverShadowMask : string := frequencyA +:+ "layoverShadowMask".

(** A 2 x 2 backscatter layer: [+inf, -inf / -0.0, 600]. *)
Definition hh_2x2 : Dataset :=
  dataset_of_rows [[S754_infinity false; S754_infinity true];
                   [S754_zero true; np_float32 600]].

(** A 2 x 2 backscatter layer of ordinary values. *)
Definition vv_2x2 : Dataset :=
  dataset_of_rows [[np_float32 1; np_float32 2];
                   [np_float32 3; np_float32 4]].

Definition mask_2x2 : Dataset :=
  dataset_of_rows [[np_float32 1; np_float32 1];
                   [np_float32 2; np_float32 3]].

Definition reader_1x2 : RTCReader :=
  {| self_row_blk_size := 1; self_col_blk_size := 2 |}.

Definition empty_world : World := {| files := ∅; log := [] |}.

Definition identity_transform : Affine :=
  Affine_mul (Affine_translation (f64_of_Z 0) (f64_of_Z 0))
             (Affine_scale (f64_of_Z 1) (f64_of_Z 1)).

Definition p_a : H5Product :=
  sample_product ["HH"%string] 32610 500015
    [(HHHH, hh_2x2); (layoverShadowMask, mask_2x2)].

Definition p_b : H5Product :=
  sample_product ["HH"%string] 32610 500075 [(HHHH, vv_2x2)].

Definition p_c : H5Product :=
  sample_product ["HH"%string] 32611 200015
    [(HHHH, vv_2x2); (layoverShadowMask, mask_2x2)].

Definition p_d : H5Product :=
  sample_product ["VV"%string] 32610 500015 [(VVVV, vv_2x2)].

Definition p_e : H5Product :=
  sample_product [] 32610 500015 [(HHHH, vv_2x2)].

Definition p_f : H5Product :=
  sample_product ["HH"%string] 32610 500135
    [(HHHH, vv_2x2); (layoverShadowMask, mask_2x2)].

(** The archives on disk in the examples; ["/in/missing.h5"] is not one. *)
Definition sample_archives : Archives :=
  list_to_map
    [("/in/a.h5"%string, p_a); ("/in/b.h5"%string, p_b);
     ("/in/c.h5"%string, p_c); ("/in/d.h5"%string, p_d);
     ("/in/e.h5"%string, p_e); ("/in/f.h5"%string, p_f);
     ("/in/rtc-1.h5"%string, p_c); ("/in/rtc-2.h5"%string, p_a);
     ("/in/rtc-3.h5"%string, p_f)].

(** A run of the pipeline of the examples. *)
Definition sample_run (input_list : list string) : res unit * World :=
  @process_rtc_hdf5 vote sample_archives reader_1x2 input_list
    "/out" "/scratch" "average" "mosaic" empty_world.

(** The first loop of [write_rtc_geotiff] on a batch of the examples, and
    the second loop run after it. *)
Definition sample_stage (input_list : list string) : res Locals * World :=
  fold_ (stage_input sample_archives reader_1x2 "/scratch" [HHHH]
                     (np_float32 500))
        input_list no_locals empty_world.


(** [write_rtc_geotiff] on a batch of the examples, with the EPSG codes
    [get_nisar_epsg] collects for it. *)
Definition sample_write (input_list : list string) (epsg_array : list Z)
  : res (bool * DSWXGeogrid) * World :=
  @write_rtc_geotiff vote sample_archives reader_1x2 input_list
    "/out" "/scratch" epsg_array [HHHH] layoverShadowMask empty_world.

(* ===================================================================== *)
(** * Auxiliary predicates and further examples *)
(* ===================================================================== *)

(** Whether the character occurs in the string. *)
Fixpoint str_mem (c : ascii) (s : string) : bool :=
  match s with
  | EmptyString => false
  | String a s' => Ascii.eqb a c || str_mem c s'
  end.

(** A GeoTIFF of the given size, CRS, geotransform and tags whose samples
    are sanitized samples of the dataset. *)
Definition raster_of (ds : Dataset) (dv : spec_float) (nr nc : Z)
    (c : string) (g : Affine) (meta : Metadata) (t : GTiff) : Prop :=
  gt_height t = nr /\ gt_width t = nc /\ gt_crs t = c /\ gt_transform t = g
  /\ gt_tags t = meta /\ band_sanitized ds dv t.

(** None of the paths is a file. *)
Definition no_file (paths : list string) (w : World) : Prop :=
  forall p, p ∈ paths -> files w !! p = None.

(** The output path of the mosaic of one channel, and of the layover
    mosaic. *)
Definition mosaic_gtiff_path (output_dir mosaic_prefix dataset_path : string)
  : string :=
  output_dir +:+ "/" +:+ mosaic_prefix +:+ "_"
             +:+ data_name_of dataset_path +:+ ".tif".

Definition layover_mosaic_gtiff_path (output_dir mosaic_prefix : string)
  : string :=
  output_dir +:+ "/" +:+ mosaic_prefix +:+ "_layover.tif".

(** A raster the combination collaborator wrote in the given mode over the
    given geogrid. *)
Definition is_mosaic (mosaic_mode : string) (g : DSWXGeogrid)
    (r : option Raster) : Prop :=
  exists rs, r = Some (RMosaic rs mosaic_mode g).

(** A reader with the given block sizes. *)
Definition reader (row_blk_size col_blk_size : Z) : RTCReader :=
  {| self_row_blk_size := row_blk_size; self_col_blk_size := col_blk_size |}.

(** A configuration of the examples: two inputs, and a mosaic prefix that
    is the file-name identifier of the first. *)
Definition sample_cfg : RunConfig :=
  {| input_file_path := ["/in/a.h5"; "/in/f.h5"]%string;
     mosaic_mode := "average";
     mosaic_prefix := "a";
     scratch_path := "/scratch";
     read_row_blk_size := 1;
     read_col_blk_size := 2 |}.

(** Between two states, every file is as it was or is a GeoTIFF the
    reader wrote. *)
Definition only_tif_written (w w' : World) : Prop :=
  forall p, files w' !! p = files w !! p
            \/ exists t, files w' !! p = Some (RTif t).

(** Each string of the list is at most the next one, in the order of
    [np.sort]. *)
Fixpoint ascending (l : list string) : bool :=
  match l with
  | a :: (b :: _) as l' => String.leb a b && ascending l'
  | _ => true
  end.

(** The longest prefix of the list whose elements all satisfy [p]. *)
Fixpoint take_while {A : Type} (p : A -> bool) (l : list A) : list A :=
  match l with
  | [] => []
  | x :: l' => if p x then x :: take_while p l' else []
  end.

(** [gdal.Open] finds the layer in the input. *)
Definition exposes_layer (archives : Archives) (layer_path : string)
    (input_rtc : string) : bool :=
  match gdal_Open archives input_rtc layer_path with
  | Some _ => true
  | None => false
  end.

(** Case analysis on the comparisons a float comparison unfolds to. *)
Ltac cmp_cases :=
  repeat match goal with
  | H : context [Pos.compare_cont Eq ?a ?b] |- _ =>
      change (Pos.compare_cont Eq a b) with (Pos.compare a b) in H
  | |- context [Pos.compare_cont Eq ?a ?b] =>
      change (Pos.compare_cont Eq a b) with (Pos.compare a b)
  end;
  repeat match goal with
  | H : context [Z.compare ?a ?b] |- _ =>
      destruct (Z.compare_spec a b); simpl in H; try discriminate
  | H : context [Pos.compare ?a ?b] |- _ =>
      destruct (Pos.compare_spec a b); simpl in H; try discriminate
  | |- context [Z.compare ?a ?b] =>
      destruct (Z.compare_spec a b); simpl; try reflexivity; try lia
  | |- context [Pos.compare ?a ?b] =>
      destruct (Pos.compare_spec a b); simpl; try reflexivity; try lia
  end.

(* ===================================================================== *)
(** * Properties *)
(* ===================================================================== *)

(** ** The tiling engine *)

Example slice_gen_10_3 :
  slice_gen 10 3 true = Ok [Slice 0 3; Slice 3 6; Slice 6 10].
Proof. reflexivity. Qed.

Example slice_gen_9_3 :
  slice_gen 9 3 true = Ok [Slice 0 3; Slice 3 6; Slice 6 9].
Proof. reflexivity. Qed.

Example slice_gen_10_3_drop :
  slice_gen 10 3 false = Ok [Slice 0 3; Slice 3 6; Slice 6 9].
Proof. reflexivity. Qed.

Example slice_gen_3_5 : slice_gen 3 5 true = Ok [Slice (-5) 3].
Proof. reflexivity. Qed.

Section SliceGen.

Implicit Types (total block : Z) (l : list slice).

Lemma range_len_blocks block m :
  0 < block -> 0 <= m -> range_len 0 (m * block) block = m.
Proof.
  intros Hb Hm. unfold range_len.
  destruct (Z.ltb_spec 0 block) as [_|]; [|lia].
  destruct (Z.ltb_spec 0 (m * block)) as [Hpos|Hnpos].
  - assert (1 <= m) by nia.
    replace (m * block - 0 - 1) with ((m - 1) * block + (block - 1)) by lia.
    rewrite Z.div_add_l by lia. rewrite Z.div_small by lia. lia.
  - nia.
Qed.

Lemma py_range_blocks block m :
  0 < block -> 0 <= m ->
  (fun i => Slice i (i + block)) <$> py_range 0 (m * block) block
  = full_blocks block m.
Proof.
  intros Hb Hm. unfold py_range, full_blocks.
  rewrite range_len_blocks by lia.
  rewrite <- list_fmap_compose. apply list_fmap_ext.
  intros _ k _. simpl. f_equal; lia.
Qed.

Lemma lookup_full_blocks block m (j : nat) s :
  full_blocks block m !! j = Some s ->
  s = Slice (Z.of_nat j * block) (Z.of_nat j * block + block)
  /\ Z.of_nat j < m.
Proof.
  unfold full_blocks. rewrite list_lookup_fmap.
  destruct (seqZ 0 m !! j) as [k|] eqn:E; [|discriminate].
  apply lookup_seqZ in E as [-> ?]. simpl. intros [= <-].
  split; [f_equal; lia | lia].
Qed.

Lemma length_full_blocks block m :
  0 <= m -> Z.of_nat (length (full_blocks block m)) = m.
Proof.
  intros. unfold full_blocks. rewrite length_fmap, length_seqZ. lia.
Qed.

(** Shape of the output when at least one block is complete: [m] full
    blocks followed by one closing slice that runs to [total]. *)
Lemma slice_gen_shape total block :
  0 < block -> block <= total ->
  let m := total / block - 1 in
  0 <= m /\ m * block + block <= total < m * block + 2 * block /\
  slice_gen total block true
  = Ok (full_blocks block m ++ [Slice (m * block) total]).
Proof.
  intros Hb Ht m.
  assert (Hn : 1 <= total / block).
  { apply Z.div_le_lower_bound; lia. }
  pose proof (Z.div_mod total block ltac:(lia)) as Hdm.
  pose proof (Z.mod_pos_bound total block Hb) as Hmod.
  split; [lia|]. split; [nia|].
  unfold slice_gen.
  destruct (Z.eqb_spec block 0) as [|_]; [lia|].
  cbv zeta.
  destruct (Z.ltb_spec 0 (total - total / block * block)) as [Hrem|Hrem]; simpl.
  - replace (total / block * block - block) with (m * block) by (unfold m; lia).
    rewrite py_range_blocks by lia. reflexivity.
  - assert (total = total / block * block) as Heq by lia.
    rewrite py_range_blocks by lia.
    replace (total / block) with (m + 1) at 1 by (unfold m; lia).
    unfold full_blocks. rewrite seqZ_app by lia. rewrite fmap_app.
    do 2 f_equal. subst m. rewrite seqZ_cons by lia. rewrite seqZ_nil by lia.
    simpl. f_equal. set (q := total / block) in *. clearbody q.
    f_equal; lia.
Qed.

(** Any list of that shape tiles [[0, total)]. *)
Lemma shape_tiles total block m :
  0 < block -> 0 <= m -> m * block + block <= total ->
  tiles (full_blocks block m ++ [Slice (m * block) total]) total block.
Proof.
  intros Hb Hm Ht. split; [|split].
  - intros i; split.
    + intros (s & Hin & Hi). unfold in_slice in Hi.
      apply elem_of_app in Hin as [Hin|Hin].
      * apply list_elem_of_lookup in Hin as [j Hj].
        apply lookup_full_blocks in Hj as [-> ?]. simpl in Hi. nia.
      * apply list_elem_of_singleton in Hin as ->. simpl in Hi. nia.
    + intros [Hlo Hhi].
      destruct (Z_lt_ge_dec i (m * block)) as [Hlt|Hge].
      * exists (Slice (i / block * block) (i / block * block + block)).
        pose proof (Z.div_mod i block ltac:(lia)).
        pose proof (Z.mod_pos_bound i block Hb).
        assert (0 <= i / block) by (apply Z.div_pos; lia).
        assert (i / block < m) by (apply Z.div_lt_upper_bound; lia).
        split; [|unfold in_slice; simpl; lia].
        apply elem_of_app. left. unfold full_blocks.
        apply list_elem_of_fmap. exists (i / block). split; [done|].
        apply elem_of_seqZ. lia.
      * exists (Slice (m * block) total).
        split; [|unfold in_slice; simpl; lia].
        apply elem_of_app. right. apply list_elem_of_singleton. done.
  - intros j k s t Hjk Hs Ht'.
    assert (Hlen := length_full_blocks block m Hm).
    rewrite lookup_app_l in Hs.
    2:{ apply lookup_lt_Some in Ht'. rewrite length_app in Ht'. simpl in Ht'. lia. }
    apply lookup_full_blocks in Hs as [-> Hj]. simpl.
    destruct (decide (k < length (full_blocks block m))%nat) as [Hk|Hk].
    + rewrite lookup_app_l in Ht' by done.
      apply lookup_full_blocks in Ht' as [-> ?]. simpl. nia.
    + rewrite lookup_app_r in Ht' by lia.
      destruct (k - length (full_blocks block m))%nat eqn:E; simpl in Ht'.
      * injection Ht' as <-. simpl. nia.
      * by rewrite lookup_nil in Ht'.
  - intros k s _ Hs.
    destruct (decide (k < length (full_blocks block m))%nat) as [Hk|Hk].
    + rewrite lookup_app_l in Hs by done.
      apply lookup_full_blocks in Hs as [-> ?]. simpl. lia.
    + rewrite lookup_app_r in Hs by lia.
      destruct (k - length (full_blocks block m))%nat eqn:E; simpl in Hs.
      * injection Hs as <-. simpl. lia.
      * by rewrite lookup_nil in Hs.
Qed.

(** With at least one complete block the generator tiles the extent. *)
Lemma slice_gen_tiles_full total block :
  0 < block -> block <= total ->
  exists l, slice_gen total block true = Ok l /\ tiles l total block.
Proof.
  intros Hb Ht.
  destruct (slice_gen_shape total block Hb Ht) as (Hm & [Hlo _] & ->).
  eexists; split; [reflexivity|]. by apply shape_tiles.
Qed.

(** An empty extent yields no slice, whatever [combine_rem]. *)
Lemma slice_gen_empty block cr :
  0 < block -> slice_gen 0 block cr = Ok [].
Proof.
  intros Hb. unfold slice_gen.
  destruct (Z.eqb_spec block 0); [lia|].
  change (0 / block) with 0. change (0 * block) with 0.
  rewrite andb_false_r. unfold py_range, range_len.
  destruct (Z.ltb_spec 0 block); [|lia]. reflexivity.
Qed.

(** An extent shorter than one block yields a single slice that starts
    one block before the origin. *)
Lemma slice_gen_short total block :
  0 < total < block ->
  slice_gen total block true = Ok [Slice (- block) total].
Proof.
  intros [Hlo Hhi]. unfold slice_gen.
  destruct (Z.eqb_spec block 0); [lia|].
  rewrite Z.div_small by lia. cbv zeta.
  replace (total - 0 * block) with total by lia.
  destruct (Z.ltb_spec 0 total); [|lia]. simpl.
  change (0 * block - block) with (- block).
  unfold py_range, range_len.
  destruct (Z.ltb_spec 0 block); [|lia].
  destruct (Z.ltb_spec 0 (- block)); [lia|].
  reflexivity.
Qed.

End SliceGen.

(** C1 (defect): the design document states that for every [total >= 0]
    and [block > 0] the slices of [slice_gen] with [combine_rem=True]
    partition [[0, total)].  With [total = 3] and [block = 5] the generator
    yields the single slice [(-5, 3)], which covers the indices -5..-1
    outside the extent: the slices do not tile it. *)
Theorem slice_gen_short_extent_not_tiled :
  slice_gen 3 5 true = Ok [Slice (-5) 3] /\ ~ tiles [Slice (-5) 3] 3 5.
Proof.
  split; [reflexivity|].
  intros [Hcov _]. destruct (Hcov (-5)) as [Hin _].
  assert (0 <= -5 < 3); [|lia].
  apply Hin. exists (Slice (-5) 3). split.
  - apply list_elem_of_singleton. reflexivity.
  - unfold in_slice. simpl. lia.
Qed.

(** C2 (defect): the design document states that [0 < total < block]
    yields one full-extent slice [(0, total)].  The generator yields one
    slice, but it starts at [-block], not at 0. *)
Theorem slice_gen_short_extent_starts_before_origin (total block : Z) :
  0 < total < block ->
  slice_gen total block true = Ok [Slice (- block) total]
  /\ Slice (- block) total <> Slice 0 total.
Proof.
  intros Hr. split; [by apply slice_gen_short|].
  intros [= Hs]. lia.
Qed.

Lemma slice_gen_short_extent_starts_before_origin_witness :
  0 < 2 < 4 /\
  slice_gen 2 4 true = Ok [Slice (- 4) 2] /\ Slice (- 4) 2 <> Slice 0 2.
Proof.
  split; [lia|].
  apply (slice_gen_short_extent_starts_before_origin 2 4). lia.
Defined.

(** ** The tiled raster writer *)

Section Writer.

Lemma np_float32_500 : np_float32 500 = S754_finite false 16384000 (-15).
Proof. reflexivity. Qed.

(** The three assignments act on each sample as [sanitize]. *)
Lemma mask_assign_sanitize dv (a : block) :
  mask_assign (fun x => np_eq x (S754_zero false)) np_nan
    (mask_assign (fun x => np_gt x dv) dv (mask_assign np_isinf dv a))
  = map (map (sanitize dv)) a.
Proof.
  unfold mask_assign. rewrite !map_map. apply map_ext. intros row.
  rewrite !map_map. apply map_ext. intros x. reflexivity.
Qed.

(** [sanitize] with the designated value 500 meets the applied rule. *)
Lemma sanitize_applied x : applied_sanitization x (sanitize (np_float32 500) x).
Proof.
  unfold applied_sanitization, sanitize.
  destruct (np_isinf x) eqn:Einf.
  - repeat split; try done.
    destruct x; try discriminate. destruct s; discriminate.
  - destruct (np_gt x (np_float32 500)) eqn:Egt.
    + repeat split; try done.
      unfold np_gt, np_eq, SFltb, SFeqb in *.
      destruct x as [s|s| |s m e]; simpl in *; try discriminate.
      destruct s; discriminate.
    + destruct (np_eq x (S754_zero false)) eqn:Eeq; repeat split; done.
Qed.

(** *** State invariants of computations *)

Lemma keeps_ret {S A} (I : S -> Prop) (a : A) : keeps I (ret a).
Proof. intros s Hs. exact Hs. Qed.

Lemma keeps_raise {S A} (I : S -> Prop) e : keeps I (@raise S A e).
Proof. intros s Hs. exact Hs. Qed.

Lemma keeps_lift_res {S A} (I : S -> Prop) (r : res A) :
  keeps I (@lift_res S A r).
Proof. intros s Hs. exact Hs. Qed.

Lemma keeps_bind {S A B} (I : S -> Prop) (m : ST S A) (k : A -> ST S B) :
  keeps I m -> (forall a, keeps I (k a)) -> keeps I (bind m k).
Proof.
  intros Hm Hk s Hs. unfold bind. specialize (Hm s Hs).
  destruct (m s) as [[a|e] s1]; simpl in *; [by apply Hk | done].
Qed.

Lemma keeps_fold {S A B} (I : S -> Prop) (body : A -> B -> ST S B) l acc :
  (forall x b, keeps I (body x b)) -> keeps I (fold_ body l acc).
Proof.
  intros Hbody. revert acc.
  induction l as [|x l IH]; intros acc; simpl.
  - apply keeps_ret.
  - apply keeps_bind; [apply Hbody | intros b; apply IH].
Qed.

Lemma keeps_for {S A} (I : S -> Prop) (l : list A) (body : A -> ST S unit) :
  (forall x, keeps I (body x)) -> keeps I (for_ l body).
Proof. intros Hbody. apply keeps_fold. intros x _. apply Hbody. Qed.

(** Read the state, compute a new one, store it. *)
Lemma keeps_update {S} (I : S -> Prop) (f : S -> res S) :
  (forall s s', I s -> f s = Ok s' -> I s') ->
  keeps I (do s <- get; do s' <- lift_res (f s); put s').
Proof.
  intros Hf s Hs. unfold bind, get, lift_res, put. simpl.
  destruct (f s) as [s'|e] eqn:E; simpl; [by eapply Hf | done].
Qed.

Lemma keeps_get_put {S} (I : S -> Prop) (f : S -> S) :
  (forall s, I s -> I (f s)) -> keeps I (do s <- get; put (f s)).
Proof. intros Hf s Hs. by apply Hf. Qed.

(** *** Writing a window *)

Lemma write_row_lookup r c0 xs band r' c' y :
  write_row r c0 xs band !! (r', c') = Some y ->
  band !! (r', c') = Some y \/
  exists j : nat, xs !! j = Some y /\ r' = r /\ c' = c0 + Z.of_nat j.
Proof.
  revert c0 band. induction xs as [|x xs IH]; intros c0 band; simpl.
  - auto.
  - intros Hl. apply IH in Hl as [Hl|(j & Hj & -> & ->)].
    + destruct (decide ((r, c0) = (r', c'))) as [[= <- <-]|Hne].
      * rewrite lookup_insert_eq in Hl. injection Hl as <-.
        right. exists 0%nat. split; [done|]. split; [done|lia].
      * rewrite lookup_insert_ne in Hl by done. auto.
    + right. exists (S j). split; [done|]. split; [done|lia].
Qed.

Lemma write_rows_lookup r0 c0 rows band r' c' y :
  write_rows r0 c0 rows band !! (r', c') = Some y ->
  band !! (r', c') = Some y \/
  exists (i j : nat) row,
    rows !! i = Some row /\ row !! j = Some y /\
    r' = r0 + Z.of_nat i /\ c' = c0 + Z.of_nat j.
Proof.
  revert r0 band. induction rows as [|row rows IH]; intros r0 band; simpl.
  - auto.
  - intros Hl. apply IH in Hl as [Hl|(i & j & row' & Hi & Hj & -> & ->)].
    + apply write_row_lookup in Hl as [Hl|(j & Hj & -> & ->)]; [auto|].
      right. exists 0%nat, j, row. repeat split; try done. lia.
    + right. exists (S i), j, row'. repeat split; try done. lia.
Qed.

(** The samples of a window read from the dataset, after the three
    assignments. *)
Lemma ReadAsArray_lookup ds xoff yoff xsize ysize blk dv (i j : nat) row y :
  ReadAsArray ds xoff yoff xsize ysize = Some blk ->
  map (map (sanitize dv)) blk !! i = Some row -> row !! j = Some y ->
  y = sanitize dv (band_value ds (yoff + Z.of_nat i) (xoff + Z.of_nat j)).
Proof.
  unfold ReadAsArray. destruct (_ && _); [|discriminate].
  intros [= <-] Hi Hj.
  change (map (map (sanitize dv))) with (fmap (M:=list) (fmap (M:=list) (sanitize dv))) in Hi.
  rewrite <- list_fmap_compose in Hi.
  rewrite list_lookup_fmap in Hi.
  destruct (seqZ yoff ysize !! i) as [r|] eqn:Er; [|discriminate].
  apply lookup_seqZ in Er as [-> _]. simpl in Hi. injection Hi as <-.
  rewrite <- list_fmap_compose in Hj. rewrite list_lookup_fmap in Hj.
  destruct (seqZ xoff xsize !! j) as [c|] eqn:Ec; [|discriminate].
  apply lookup_seqZ in Ec as [-> _]. simpl in Hj. by injection Hj as <-.
Qed.

Lemma write_blocks_keeps ds nr nc rb cb dv :
  keeps (band_sanitized ds dv) (write_blocks ds nr nc rb cb dv).
Proof.
  unfold write_blocks.
  apply keeps_bind; [apply keeps_lift_res|]. intros rows.
  apply keeps_for. intros slice_row.
  apply keeps_bind; [apply keeps_lift_res|]. intros cols.
  apply keeps_for. intros slice_col. unfold write_block.
  destruct (ReadAsArray _ _ _ _ _) as [blk|] eqn:Eread;
    [|apply keeps_raise].
  rewrite mask_assign_sanitize.
  apply keeps_update. intros dst dst' Hdst Hw r c y.
  unfold dst_write in Hw. destruct (_ && _); [|discriminate].
  injection Hw as <-. simpl. intros Hl.
  apply write_rows_lookup in Hl as [Hl|(i & j & row & Hi & Hj & -> & ->)].
  - by apply Hdst.
  - eapply ReadAsArray_lookup; eauto.
Qed.

(** The raster that [read_write_rtc] leaves at the output path. *)
Lemma read_write_rtc_file self ds out nr nc rb cb dv g c meta w :
  exists dst,
    files (snd (read_write_rtc self ds out nr nc rb cb dv g c meta w)) !! out
    = Some (RTif dst)
    /\ band_sanitized ds dv dst.
Proof.
  unfold read_write_rtc.
  set (created := {| gt_height := nr; gt_width := nc; gt_crs := c;
                     gt_transform := g; gt_band := ∅; gt_tags := [] |}).
  set (body := bind _ _).
  assert (Hk : keeps (band_sanitized ds dv) body).
  { apply keeps_bind; [apply write_blocks_keeps|]. intros _.
    apply (keeps_get_put _ (fun dst => update_tags dst meta)).
    intros dst Hdst. exact Hdst. }
  assert (Hc : band_sanitized ds dv created).
  { intros r c' y. simpl. by rewrite lookup_empty. }
  specialize (Hk created Hc).
  destruct (body created) as [r dst]. simpl in Hk.
  exists dst. split; [|exact Hk].
  unfold bind, write_file, lift_res. simpl. apply lookup_insert_eq.
Qed.

(** [read_write_rtc] touches no file but the one it writes. *)
Lemma read_write_rtc_frame self ds out nr nc rb cb dv g c meta w p :
  p <> out ->
  files (snd (read_write_rtc self ds out nr nc rb cb dv g c meta w)) !! p
  = files w !! p.
Proof.
  intros Hp. unfold read_write_rtc.
  set (created := {| gt_height := nr; gt_width := nc; gt_crs := c;
                     gt_transform := g; gt_band := ∅; gt_tags := [] |}).
  set (body := bind _ _).
  destruct (body created) as [r dst].
  unfold bind, write_file, lift_res. simpl. by rewrite lookup_insert_ne.
Qed.

End Writer.

(** C3 (counterexample): the rule as the design document words it leaves
    negative infinity unchanged, being neither positive infinity, nor above
    500, nor zero.  The writer turns the sample [-inf] at row 0, column 1 of
    the layer into 500. *)
Lemma documented_sanitization_fails_on_negative_infinity :
  exists dst,
    files (snd (read_write_rtc reader_1x2 hh_2x2 "/scratch/a_HH.tif" 2 2 1 2
                  (np_float32 500) identity_transform "EPSG:32610" []
                  empty_world)) !! "/scratch/a_HH.tif"
    = Some (RTif dst)
    /\ band_value hh_2x2 0 1 = S754_infinity true
    /\ gt_band dst !! (0, 1) = Some (np_float32 500)
    /\ ~ documented_sanitization (S754_infinity true) (np_float32 500).
Proof.
  eexists. split; [vm_compute; reflexivity|].
  split; [reflexivity|]. split; [vm_compute; reflexivity|].
  intros (_ & _ & _ & Hsame).
  assert (E : np_float32 500 = S754_infinity true)
    by (apply Hsame; [discriminate | reflexivity | reflexivity]).
  discriminate E.
Qed.

(** C3 (amended): on a raster of positive size, which is what the output
    file can be created with, and whatever the outcome of [read_write_rtc],
    every sample it has written to the output raster relates to the source
    sample at the same row and column as follows: an infinity of either
    sign becomes 500.0, a value greater than 500.0 becomes 500.0, an exact
    zero becomes NaN, and every other value is written unchanged. *)
Theorem read_write_rtc_applies_sanitization
    self ds out nr nc rb cb g c meta w :
  0 < nr -> 0 < nc ->
  exists dst,
    files (snd (read_write_rtc self ds out nr nc rb cb (np_float32 500)
                  g c meta w)) !! out
    = Some (RTif dst)
    /\ forall r col y,
         gt_band dst !! (r, col) = Some y ->
         applied_sanitization (band_value ds r col) y.
Proof.
  intros _ _.
  destruct (read_write_rtc_file self ds out nr nc rb cb (np_float32 500)
              g c meta w) as (dst & Hfile & Hband).
  exists dst. split; [exact Hfile|].
  intros r col y Hy. rewrite (Hband r col y Hy). apply sanitize_applied.
Qed.

Lemma read_write_rtc_applies_sanitization_witness :
  applied_sanitization (band_value hh_2x2 1 1) (np_float32 500)
  /\ applied_sanitization (band_value hh_2x2 1 0) np_nan.
Proof.
  destruct (read_write_rtc_applies_sanitization reader_1x2 hh_2x2
              "/scratch/a_HH.tif" 2 2 1 2 identity_transform "EPSG:32610" []
              empty_world ltac:(lia) ltac:(lia)) as (dst & Hfile & Hpx).
  vm_compute in Hfile. injection Hfile as <-.
  split; [apply (Hpx 1 1) | apply (Hpx 1 0)]; vm_compute; reflexivity.
Defined.

(** C10: two calls of [read_write_rtc] on the same reader that differ only
    in the [row_blk_size] and [col_blk_size] arguments have the same outcome
    and write the same raster: both arguments are overwritten by the
    attributes of the instance before they are used. *)
Theorem read_write_rtc_ignores_block_arguments
    self ds out nr nc rb1 cb1 rb2 cb2 dv g c meta w :
  read_write_rtc self ds out nr nc rb1 cb1 dv g c meta w
  = read_write_rtc self ds out nr nc rb2 cb2 dv g c meta w.
Proof. reflexivity. Qed.


(** ** Computations that return or raise *)

Section Monad.

Context {S A B : Type}.
Implicit Types (m : ST S A) (k : A -> ST S B).

Lemma bind_inv m k s r s' :
  bind m k s = (r, s') ->
  (exists e, m s = (Raise e, s') /\ r = Raise e) \/
  (exists a s1, m s = (Ok a, s1) /\ k a s1 = (r, s')).
Proof.
  unfold bind. destruct (m s) as [[a|e] s1]; intros Hk.
  - right. eauto.
  - left. injection Hk as <- <-. eauto.
Qed.

Lemma bind_Ok_inv m k s b s' :
  bind m k s = (Ok b, s') ->
  exists a s1, m s = (Ok a, s1) /\ k a s1 = (Ok b, s').
Proof.
  intros Hb. apply bind_inv in Hb as [(e & _ & He)|Hb]; [discriminate|done].
Qed.

Lemma bind_Ok m k s a s1 : m s = (Ok a, s1) -> bind m k s = k a s1.
Proof. unfold bind. by intros ->. Qed.

Lemma bind_Raise m k s e s1 :
  m s = (Raise e, s1) -> bind m k s = (Raise e, s1).
Proof. unfold bind. by intros ->. Qed.

End Monad.

Lemma fold_app {S A B} (body : A -> B -> ST S B) l1 l2 acc s :
  fold_ body (l1 ++ l2) acc s
  = bind (fold_ body l1 acc) (fold_ body l2) s.
Proof.
  revert acc s. induction l1 as [|x l1 IH]; intros acc s; simpl.
  - reflexivity.
  - unfold bind in *. destruct (body x acc s) as [[b|e] s1]; [apply IH|done].
Qed.

(** ** Discover: polarizations of the batch *)

Section Discover.

Context `{Collaborators}.
Variable archives : Archives.
Variable self : RTCReader.

Lemma sorted_insert_elem x y l : y ∈ sorted_insert x l <-> y = x \/ y ∈ l.
Proof.
  induction l as [|z l IH]; simpl.
  - rewrite list_elem_of_singleton. rewrite elem_of_nil. tauto.
  - destruct (String.leb x z).
    + rewrite elem_of_cons. tauto.
    + rewrite !elem_of_cons, IH. tauto.
Qed.

Lemma np_sort_elem y l : y ∈ np_sort l <-> y ∈ l.
Proof.
  induction l as [|x l IH]; simpl; [done|].
  rewrite sorted_insert_elem, elem_of_cons, IH. tauto.
Qed.

Lemma np_sort_nil l : np_sort l = [] -> l = [].
Proof.
  destruct l as [|x l]; [done|]. intros Hs.
  assert (Hx : x ∈ np_sort (x :: l)) by (apply np_sort_elem; left).
  rewrite Hs in Hx. by apply elem_of_nil in Hx.
Qed.

Lemma forallb_zip_eqb a b :
  length a = length b ->
  forallb (fun p => String.eqb (fst p) (snd p)) (zip a b) = true -> a = b.
Proof.
  revert b. induction a as [|x a IH]; intros [|y b]; simpl; try done.
  intros [= Hlen] Hall. apply andb_true_iff in Hall as [Hxy Hall].
  apply String.eqb_eq in Hxy as ->. f_equal. by apply IH.
Qed.

Lemma forallb_zip_refl a :
  forallb (fun p => String.eqb (fst p) (snd p)) (zip a a) = true.
Proof.
  induction a as [|x a IH]; simpl; [done|].
  by rewrite String.eqb_refl, IH.
Qed.

Lemma np_all_eq_refl a : np_all_eq a a = Some true.
Proof.
  unfold np_all_eq. rewrite Nat.eqb_refl. by rewrite forallb_zip_refl.
Qed.

Lemma forallb_eqb_all x b :
  forallb (String.eqb x) b = true -> forall y, y ∈ b -> y = x.
Proof.
  induction b as [|z b IH]; simpl; intros Hall y Hy.
  - by apply elem_of_nil in Hy.
  - apply andb_true_iff in Hall as [Hz Hall].
    apply String.eqb_eq in Hz as <-.
    apply elem_of_cons in Hy as [->|Hy]; [done|by apply IH].
Qed.

Lemma forallb_eqb_all_r y a :
  forallb (fun x => String.eqb x y) a = true -> forall x, x ∈ a -> x = y.
Proof.
  induction a as [|z a IH]; simpl; intros Hall x Hx.
  - by apply elem_of_nil in Hx.
  - apply andb_true_iff in Hall as [Hz Hall].
    apply String.eqb_eq in Hz as ->.
    apply elem_of_cons in Hx as [->|Hx]; [done|by apply IH].
Qed.

(** On non-empty arrays a passed comparison means equal channel sets. *)
Lemma np_all_eq_same_set a b :
  a <> [] -> b <> [] -> np_all_eq a b = Some true -> same_pol_set a b.
Proof.
  intros Ha Hb. unfold np_all_eq.
  destruct (Nat.eqb_spec (length a) (length b)) as [Hlen|Hlen].
  - intros [= Hall]. apply forallb_zip_eqb in Hall as ->; done.
  - destruct a as [|x [|x' a]]; [done| |].
    + intros [= Hall] y. rewrite list_elem_of_singleton.
      pose proof (forallb_eqb_all _ _ Hall) as Hy. split.
      * intros ->. destruct b as [|z b]; [done|].
        rewrite (Hy z) by left. left.
      * apply Hy.
    + destruct b as [|y [|y' b]]; [done| |discriminate].
      intros [= Hall] z. rewrite list_elem_of_singleton.
      pose proof (forallb_eqb_all_r y (x :: x' :: a) Hall) as Hz. split.
      * apply Hz.
      * intros ->. rewrite <- (Hz x) by left. left.
Qed.

(** Reading the polarizations never touches the files. *)
Lemma read_polarizations_state q acc w :
  snd (read_polarizations archives q acc w) = w.
Proof.
  unfold read_polarizations. destruct (archives !! q) as [prod|]; [|done].
  destruct (_ =? _)%nat; [done|].
  destruct (np_all_eq _ _) as [[]|]; done.
Qed.

(** The loop of [extract_nisar_polarization] leaves the state alone, and
    raises nothing but [FileNotFoundError] and [ValueError]. *)
Lemma fold_read_polarizations_cases l acc w :
  snd (fold_ (read_polarizations archives) l acc w) = w /\
  (fst (fold_ (read_polarizations archives) l acc w) = Raise FileNotFoundError
   \/ fst (fold_ (read_polarizations archives) l acc w) = Raise ValueError
   \/ ((exists pols,
          fst (fold_ (read_polarizations archives) l acc w) = Ok pols)
       /\ forall q, q ∈ l -> is_Some (archives !! q))).
Proof.
  revert acc. induction l as [|q l IH]; intros acc; simpl.
  - split; [done|]. right. right. split; [by eexists|].
    intros q Hq. by apply elem_of_nil in Hq.
  - unfold bind.
    pose proof (read_polarizations_state q acc w) as Hst.
    destruct (read_polarizations archives q acc w) as [[acc'|e] w1] eqn:E;
      simpl in Hst; subst w1.
    + destruct (IH acc') as (Hs & Hr). split; [done|].
      destruct Hr as [Hr|[Hr|[Hr Hall]]]; [by left|by right; left|].
      right. right. split; [done|].
      intros q' Hq'. apply elem_of_cons in Hq' as [->|Hq']; [|by apply Hall].
      unfold read_polarizations in E.
      destruct (archives !! q); [done|discriminate].
    + split; [done|]. simpl.
      unfold read_polarizations in E.
      destruct (archives !! q) as [prod|]; [|injection E as <-; by left].
      destruct (_ =? _)%nat; [discriminate|].
      destruct (np_all_eq _ _) as [[]|]; try discriminate;
        injection E as <-; right; by left.
Qed.

(** A failure of the first step is the failure of the run, with nothing
    written. *)
Lemma process_rtc_hdf5_discover_raises input_list out scratch mode prefix w e :
  fst (fold_ (read_polarizations archives) input_list [] w) = Raise e ->
  process_rtc_hdf5 archives self input_list out scratch mode prefix w
  = (Raise e, w).
Proof.
  intros He.
  destruct (fold_read_polarizations_cases input_list [] w) as [Hs _].
  unfold process_rtc_hdf5, extract_nisar_polarization, bind.
  destruct (fold_ _ input_list [] w) as [r w1]; simpl in *; subst.
  reflexivity.
Qed.

(** Products that agree on their sorted polarization list pass the
    check. *)
Lemma fold_read_polarizations_agree pre P acc w :
  acc = [] \/ acc = P ->
  (forall q, q ∈ pre ->
     exists prod, archives !! q = Some prod
                  /\ np_sort (listOfPolarizations prod) = P) ->
  exists acc', fold_ (read_polarizations archives) pre acc w = (Ok acc', w)
               /\ (acc' = [] \/ acc' = P).
Proof.
  revert acc. induction pre as [|q pre IH]; intros acc Hacc Hall; simpl.
  - by exists acc.
  - destruct (Hall q) as (prod & Hq & Hsort); [left|].
    assert (Hstep : exists acc1,
      read_polarizations archives q acc w = (Ok acc1, w)
      /\ (acc1 = [] \/ acc1 = P)).
    { unfold read_polarizations. rewrite Hq, Hsort.
      destruct acc as [|x acc]; simpl.
      - exists P. split; [done|by right].
      - destruct Hacc as [Hnil| ->]; [done|].
        rewrite np_all_eq_refl. eexists. split; [done|by right]. }
    destruct Hstep as (acc1 & Hstep & Hacc1).
    rewrite (bind_Ok _ _ _ _ _ Hstep).
    apply IH; [done|]. intros q' Hq'. apply Hall. by right.
Qed.

(** The first missing path of a list that has one. *)
Lemma first_missing (l : list string) :
  (exists p, p ∈ l /\ archives !! p = None) ->
  exists pre p post,
    l = pre ++ p :: post /\ archives !! p = None
    /\ forall q, q ∈ pre -> is_Some (archives !! q).
Proof.
  induction l as [|x l IH]; intros (p & Hp & Hnone).
  - by apply elem_of_nil in Hp.
  - destruct (archives !! x) as [prod|] eqn:Ex.
    + apply elem_of_cons in Hp as [->|Hp]; [congruence|].
      destruct IH as (pre & p' & post & -> & Hp' & Hpre); [by eauto|].
      exists (x :: pre), p', post. split; [done|]. split; [done|].
      intros q Hq. apply elem_of_cons in Hq as [->|Hq]; [by rewrite Ex|].
      by apply Hpre.
    + exists [], x, l. split; [done|]. split; [done|].
      intros q Hq. by apply elem_of_nil in Hq.
Qed.

(** Once a non-empty list is held, every further product either fails the
    check or has the same channel set. *)
Lemma fold_read_polarizations_checks l rest acc w :
  acc <> [] ->
  (forall q, q ∈ l ->
     exists prod, archives !! q = Some prod
                  /\ listOfPolarizations prod <> []) ->
  fold_ (read_polarizations archives) (l ++ rest) acc w
  = (Raise ValueError, w)
  \/ ((forall q prod, q ∈ l -> archives !! q = Some prod ->
         same_pol_set acc (listOfPolarizations prod))
      /\ fold_ (read_polarizations archives) (l ++ rest) acc w
         = fold_ (read_polarizations archives) rest acc w).
Proof.
  intros Hacc. induction l as [|q l IH]; intros Hall; simpl.
  - right. split; [|done]. intros q prod Hq. by apply elem_of_nil in Hq.
  - destruct (Hall q) as (prod & Hq & Hne); [left|].
    assert (Hsne : np_sort (listOfPolarizations prod) <> [])
      by (intros Hs; by apply np_sort_nil in Hs).
    assert (Hstep :
      read_polarizations archives q acc w = (Raise ValueError, w)
      \/ (read_polarizations archives q acc w = (Ok acc, w)
          /\ same_pol_set acc (listOfPolarizations prod))).
    { unfold read_polarizations. rewrite Hq.
      destruct acc as [|x acc]; [done|]. simpl.
      destruct (np_all_eq (x :: acc) _) as [[]|] eqn:E; [|by left..].
      right. split; [done|].
      apply np_all_eq_same_set in E; [|done..].
      intros y. rewrite (E y). apply np_sort_elem. }
    destruct Hstep as [Hstep|[Hstep Hset]].
    + left. by rewrite (bind_Raise _ _ _ _ _ Hstep).
    + rewrite (bind_Ok _ _ _ _ _ Hstep).
      destruct IH as [IH|[IHset IHeq]].
      * intros q' Hq'. apply Hall. by right.
      * by left.
      * right. split; [|done].
        intros q' prod' Hq' Hprod'.
        apply elem_of_cons in Hq' as [->|Hq']; [|by eapply IHset].
        rewrite Hq in Hprod'. by injection Hprod' as <-.
Qed.

End Discover.

(** C8 (counterexample): the third path does not exist, but the first two
    products disagree on their polarizations, and the run raises
    [ValueError], not [FileNotFoundError]. *)
Lemma missing_input_after_inconsistent_pair :
  sample_archives !! "/in/missing.h5"%string = None
  /\ sample_run ["/in/a.h5"; "/in/d.h5"; "/in/missing.h5"]%string
     = (Raise ValueError, empty_world).
Proof. split; vm_compute; reflexivity. Qed.

(** C8 (amended): for every input list that contains a path that does not
    exist, the run aborts before anything is written, with
    [FileNotFoundError] or, when products listed earlier disagree on their
    polarizations, with [ValueError]; it is [FileNotFoundError] whenever the
    products before the first missing path all carry the same polarization
    list. *)
Theorem missing_input_aborts_before_output
    `{Collaborators} archives self input_list out scratch mode prefix w :
  (exists p, p ∈ input_list /\ archives !! p = None) ->
  (process_rtc_hdf5 archives self input_list out scratch mode prefix w
   = (Raise FileNotFoundError, w)
   \/ process_rtc_hdf5 archives self input_list out scratch mode prefix w
      = (Raise ValueError, w))
  /\ (forall pre p post P,
        input_list = pre ++ p :: post -> archives !! p = None ->
        (forall q, q ∈ pre ->
           exists prod, archives !! q = Some prod
                        /\ np_sort (listOfPolarizations prod) = P) ->
        process_rtc_hdf5 archives self input_list out scratch mode prefix w
        = (Raise FileNotFoundError, w)).
Proof.
  intros (p & Hp & Hnone). split.
  - destruct (fold_read_polarizations_cases archives input_list [] w)
      as (_ & [Hr|[Hr|[_ Hall]]]).
    + left. by apply process_rtc_hdf5_discover_raises.
    + right. by apply process_rtc_hdf5_discover_raises.
    + destruct (Hall p Hp) as [prod Hprod]. congruence.
  - intros pre p' post P -> Hnone' Hpre.
    apply process_rtc_hdf5_discover_raises.
    rewrite fold_app.
    destruct (fold_read_polarizations_agree archives pre P [] w)
      as (acc' & Hfold & _); [by left|done|].
    rewrite (bind_Ok _ _ _ _ _ Hfold). simpl.
    unfold bind, read_polarizations. by rewrite Hnone'.
Qed.

Lemma missing_input_aborts_before_output_witness :
  sample_run ["/in/a.h5"; "/in/missing.h5"; "/in/d.h5"]%string
  = (Raise FileNotFoundError, empty_world).
Proof.
  assert (Hex : exists p,
    p ∈ ["/in/a.h5"; "/in/missing.h5"; "/in/d.h5"]%string
    /\ sample_archives !! p = None).
  { exists "/in/missing.h5"%string. split; [|vm_compute; reflexivity].
    apply elem_of_cons. right. apply elem_of_cons. by left. }
  destruct (@missing_input_aborts_before_output vote sample_archives
              reader_1x2 _ "/out" "/scratch" "average" "mosaic" empty_world
              Hex) as [_ Hfirst].
  apply (Hfirst ["/in/a.h5"%string] "/in/missing.h5"%string
                ["/in/d.h5"%string] ["HH"%string]).
  - reflexivity.
  - vm_compute; reflexivity.
  - intros q Hq. apply list_elem_of_singleton in Hq as ->.
    exists p_a. split; vm_compute; reflexivity.
Defined.

(** C7 (counterexample): two batches in which a product's polarization
    set differs from that of a product listed before it, and the run does
    not raise [ValueError].  In the first a missing path comes between the
    two and the run raises [FileNotFoundError]; in the second the first
    product has an empty polarization list, the second product's list is
    adopted without a check, and the run completes. *)
Lemma inconsistent_polarizations_not_reported :
  ~ same_pol_set (listOfPolarizations p_a) (listOfPolarizations p_d)
  /\ sample_run ["/in/a.h5"; "/in/missing.h5"; "/in/d.h5"]%string
     = (Raise FileNotFoundError, empty_world)
  /\ ~ same_pol_set (listOfPolarizations p_e) (listOfPolarizations p_a)
  /\ fst (sample_run ["/in/e.h5"; "/in/a.h5"]%string) = Ok tt.
Proof.
  split; [|split; [|split]].
  - intros Hs. destruct (Hs "HH"%string) as [Hin _].
    assert (Hd : "HH"%string ∈ listOfPolarizations p_d) by (apply Hin; left).
    apply list_elem_of_singleton in Hd. discriminate.
  - vm_compute; reflexivity.
  - intros Hs. destruct (Hs "HH"%string) as [_ Hin].
    assert (He : "HH"%string ∈ listOfPolarizations p_e) by (apply Hin; left).
    by apply elem_of_nil in He.
  - vm_compute; reflexivity.
Qed.

(** C7 (amended): for every batch [l ++ rest] in which every path of [l]
    exists and carries a non-empty polarization list, and two products of
    [l] have different polarization sets, the run raises [ValueError] before
    any intermediate or output raster is written. *)
Theorem inconsistent_polarizations_abort
    `{Collaborators} archives self l rest out scratch mode prefix w
    qi qj pi pj :
  (forall q, q ∈ l ->
     exists prod, archives !! q = Some prod
                  /\ listOfPolarizations prod <> []) ->
  qi ∈ l -> qj ∈ l ->
  archives !! qi = Some pi -> archives !! qj = Some pj ->
  ~ same_pol_set (listOfPolarizations pi) (listOfPolarizations pj) ->
  process_rtc_hdf5 archives self (l ++ rest) out scratch mode prefix w
  = (Raise ValueError, w).
Proof.
  intros Hall Hi Hj Hpi Hpj Hdiff.
  apply process_rtc_hdf5_discover_raises.
  destruct l as [|q0 l]; [by apply elem_of_nil in Hi|].
  destruct (Hall q0) as (p0 & Hq0 & Hne0); [left|].
  simpl. unfold bind at 1. unfold read_polarizations at 1.
  rewrite Hq0. simpl.
  destruct (fold_read_polarizations_checks archives l rest
              (np_sort (listOfPolarizations p0)) w) as [Hr|[Hset _]].
  - intros Hs. by apply np_sort_nil in Hs.
  - intros q Hq. apply Hall. by right.
  - by rewrite Hr.
  - exfalso. apply Hdiff.
    assert (Hsame : forall q prod, q ∈ q0 :: l -> archives !! q = Some prod ->
      same_pol_set (np_sort (listOfPolarizations p0))
                   (listOfPolarizations prod)).
    { intros q prod Hq Hprod.
      apply elem_of_cons in Hq as [->|Hq]; [|by eapply Hset].
      rewrite Hq0 in Hprod. injection Hprod as <-.
      intros y. apply np_sort_elem. }
    intros y. rewrite <- (Hsame qi pi Hi Hpi y). apply (Hsame qj pj Hj Hpj y).
Qed.

Lemma inconsistent_polarizations_abort_witness :
  sample_run ["/in/a.h5"; "/in/b.h5"; "/in/d.h5"; "/in/missing.h5"]%string
  = (Raise ValueError, empty_world).
Proof.
  apply (@inconsistent_polarizations_abort vote sample_archives reader_1x2
           ["/in/a.h5"; "/in/b.h5"; "/in/d.h5"]%string
           ["/in/missing.h5"%string] "/out" "/scratch" "average" "mosaic"
           empty_world "/in/a.h5" "/in/d.h5" p_a p_d).
  - intros q Hq.
    repeat (apply elem_of_cons in Hq as [->|Hq];
            [eexists; split; [vm_compute; reflexivity | discriminate]|]).
    by apply elem_of_nil in Hq.
  - by left.
  - right. right. by left.
  - vm_compute; reflexivity.
  - vm_compute; reflexivity.
  - intros Hs. destruct (Hs "HH"%string) as [Hin _].
    assert (Hd : "HH"%string ∈ listOfPolarizations p_d) by (apply Hin; left).
    apply list_elem_of_singleton in Hd. discriminate.
Defined.


(** ** Combine: which mosaics are requested *)

Section Combine.

Context `{Collaborators}.
Variable archives : Archives.
Variable self : RTCReader.

Lemma mosaics_app l1 l2 : mosaics (l1 ++ l2) = mosaics l1 ++ mosaics l2.
Proof.
  induction l1 as [|[d|i o] l1 IH]; simpl; [done|done|by rewrite IH].
Qed.

Lemma keeps_read_file I p : keeps I (read_file p).
Proof. intros w Hw. unfold read_file. by destruct (files w !! p). Qed.

Lemma keeps_write_file L p r : keeps (requested L) (write_file p r).
Proof. intros w Hw. exact Hw. Qed.

Lemma keeps_os_replace L p q : keeps (requested L) (os_replace p q).
Proof. intros w Hw. unfold os_replace. by destruct (files w !! p). Qed.

Lemma keeps_warn L d : keeps (requested L) (emit (EvWarn d)).
Proof.
  intros w Hw. unfold requested in *. simpl. rewrite mosaics_app, Hw.
  simpl. by rewrite app_nil_r.
Qed.

Lemma keeps_extract_file_name I q : keeps I (extract_file_name archives q).
Proof. intros w Hw. unfold extract_file_name. by destruct (archives !! q). Qed.

Lemma keeps_read_geodata_hdf5 I q : keeps I (read_geodata_hdf5 archives q).
Proof.
  intros w Hw. unfold read_geodata_hdf5.
  destruct (archives !! q) as [p|]; [|done].
  by destruct (xCoordinates p), (yCoordinates p).
Qed.

Lemma keeps_read_metadata_hdf5 I q : keeps I (read_metadata_hdf5 archives q).
Proof.
  intros w Hw. unfold read_metadata_hdf5.
  destruct (archives !! q) as [p|]; [|done].
  by destruct (l1SlcGranules p).
Qed.

Lemma keeps_read_write_rtc L ds out nr nc rb cb dv g c meta :
  keeps (requested L) (read_write_rtc self ds out nr nc rb cb dv g c meta).
Proof.
  intros w Hw. unfold read_write_rtc.
  destruct (bind _ _ _) as [r dst].
  apply keeps_bind; [apply keeps_write_file|intros; apply keeps_lift_res|done].
Qed.

Lemma keeps_change_epsg_tif L p q e n :
  keeps (requested L) (change_epsg_tif p q e n).
Proof.
  apply keeps_bind; [apply keeps_read_file|]. intros r.
  apply keeps_write_file.
Qed.

Lemma keeps_update_geogrid I g p : keeps I (update_geogrid g p).
Proof.
  apply keeps_bind; [apply keeps_read_file|]. intros r. apply keeps_ret.
Qed.

Lemma keeps_fold_break {S A B} (I : S -> Prop)
    (body : A -> B -> ST S (B * bool)) l acc :
  (forall x b, keeps I (body x b)) -> keeps I (fold_break body l acc).
Proof.
  intros Hbody. revert acc.
  induction l as [|x l IH]; intros acc; simpl.
  - apply keeps_ret.
  - apply keeps_bind; [apply Hbody|]. intros [b brk]. simpl.
    destruct brk; [apply keeps_ret|apply IH].
Qed.

Lemma keeps_stage_input L scratch data_path dv q loc :
  keeps (requested L) (stage_input archives self scratch data_path dv q loc).
Proof.
  unfold stage_input.
  apply keeps_bind; [apply keeps_extract_file_name|]. intros prefix.
  apply keeps_bind; [apply keeps_read_geodata_hdf5|]. intros gc.
  apply keeps_bind; [apply keeps_read_metadata_hdf5|]. intros meta.
  apply keeps_fold. intros dp loc'.
  destruct (gdal_Open _ _ _); [|apply keeps_raise].
  apply keeps_bind; [apply keeps_read_write_rtc|]. intros _. apply keeps_ret.
Qed.

Lemma keeps_harmonize_input L scratch epsg_array most data_path ix acc :
  keeps (requested L)
    (harmonize_input archives scratch epsg_array most data_path ix acc).
Proof.
  unfold harmonize_input.
  apply keeps_bind; [apply keeps_extract_file_name|]. intros prefix.
  destruct (epsg_array !! _); [|apply keeps_raise].
  destruct (negb _).
  - apply keeps_fold. intros dp acc'.
    apply keeps_bind; [apply keeps_change_epsg_tif|]. intros _.
    destruct (output_gtiff _); [|apply keeps_raise].
    apply keeps_bind; [apply keeps_update_geogrid|]. intros g.
    apply keeps_bind; [apply keeps_os_replace|]. intros _. apply keeps_ret.
  - apply keeps_fold. intros dp acc'.
    apply keeps_bind; [apply keeps_update_geogrid|]. intros g.
    apply keeps_ret.
Qed.

Lemma keeps_layover_input L scratch epsg_array most lp dv loc ix acc :
  keeps (requested L)
    (layover_input archives self scratch epsg_array most lp dv loc ix acc).
Proof.
  unfold layover_input.
  destruct (gdal_Open _ _ _).
  - apply keeps_bind; [apply keeps_extract_file_name|]. intros prefix.
    destruct (num_rows loc), (row_blk_size loc), (geotransform loc),
      (crs loc), (dswx_metadata_dict loc); try apply keeps_raise.
    apply keeps_bind; [apply keeps_read_write_rtc|]. intros _.
    destruct (epsg_array !! _); [|apply keeps_raise].
    destruct (negb _).
    + apply keeps_bind; [apply keeps_extract_file_name|]. intros prefix'.
      apply keeps_bind; [apply keeps_change_epsg_tif|]. intros _.
      apply keeps_bind; [apply keeps_update_geogrid|]. intros g.
      apply keeps_bind; [apply keeps_os_replace|]. intros _. apply keeps_ret.
    + apply keeps_bind; [apply keeps_update_geogrid|]. intros g.
      apply keeps_ret.
  - apply keeps_bind; [apply keeps_warn|]. intros _. apply keeps_ret.
Qed.

(** [write_rtc_geotiff] requests no mosaic. *)
Lemma keeps_write_rtc_geotiff L input_list out scratch epsg_array data_path lp :
  keeps (requested L)
    (write_rtc_geotiff archives self input_list out scratch epsg_array
                       data_path lp).
Proof.
  unfold write_rtc_geotiff.
  apply keeps_bind; [apply keeps_fold; intros; apply keeps_stage_input|].
  intros loc.
  apply keeps_bind; [apply keeps_fold; intros; apply keeps_harmonize_input|].
  intros lg.
  apply keeps_bind;
    [apply keeps_fold_break; intros; apply keeps_layover_input|].
  intros eg. destruct (fst eg); [apply keeps_ret|apply keeps_raise].
Qed.

Lemma keeps_read_polarizations I q acc :
  keeps I (read_polarizations archives q acc).
Proof. intros w Hw. by rewrite read_polarizations_state. Qed.

Lemma keeps_extract_nisar_polarization I input_list :
  keeps I (extract_nisar_polarization archives input_list).
Proof.
  apply keeps_bind; [|intros; apply keeps_ret].
  apply keeps_fold. intros. apply keeps_read_polarizations.
Qed.

Lemma keeps_get_nisar_epsg I input_list :
  keeps I (get_nisar_epsg archives input_list).
Proof.
  apply keeps_bind.
  - apply keeps_fold. intros q acc.
    destruct (archives !! q); [apply keeps_ret|apply keeps_raise].
  - intros [|e0 l]; [apply keeps_raise|apply keeps_ret].
Qed.

(** What one turn of the layover loop returns: the flag, and whether the
    loop is left. *)
Lemma layover_input_result scratch epsg_array most dv loc n q acc w r w' :
  layover_input archives self scratch epsg_array most
    (frequencyA +:+ "layoverShadowMask") dv loc (n, q) acc w = (Ok r, w') ->
  fst (fst r) = Some (exposes_layover archives q)
  /\ snd r = negb (exposes_layover archives q).
Proof.
  unfold layover_input, exposes_layover. simpl.
  destruct (gdal_Open _ _ _) as [ds|].
  - intros Hb.
    apply bind_Ok_inv in Hb as (prefix & w1 & _ & Hb).
    destruct (num_rows loc), (row_blk_size loc), (geotransform loc),
      (crs loc), (dswx_metadata_dict loc); try discriminate.
    apply bind_Ok_inv in Hb as (? & w2 & _ & Hb).
    destruct (epsg_array !! n); [|discriminate].
    destruct (negb _).
    + apply bind_Ok_inv in Hb as (? & w3 & _ & Hb).
      apply bind_Ok_inv in Hb as (? & w4 & _ & Hb).
      apply bind_Ok_inv in Hb as (? & w5 & _ & Hb).
      apply bind_Ok_inv in Hb as (? & w6 & _ & Hb).
      by injection Hb as <- <-.
    + apply bind_Ok_inv in Hb as (? & w3 & _ & Hb).
      by injection Hb as <- <-.
  - intros Hb. apply bind_Ok_inv in Hb as (? & w1 & _ & Hb).
    by injection Hb as <- <-.
Qed.

(** A turn on an input that lacks the mask raises nothing: it warns, sets
    the flag to [False] and leaves the loop. *)
Lemma layover_input_missing scratch epsg_array most lp dv loc n q acc w :
  gdal_Open archives q lp = None ->
  layover_input archives self scratch epsg_array most lp dv loc (n, q) acc w
  = (Ok (Some false, snd acc, true),
     {| files := files w;
        log := log w ++ [EvWarn ("HDF5:" +:+ q +:+ ":/" +:+ lp)] |}).
Proof. intros Hq. unfold layover_input. simpl. by rewrite Hq. Qed.

(** The flag the layover loop ends with: every input exposes the mask. *)
Lemma layover_loop_flag scratch epsg_array most dv loc l n le0 g w eg w' :
  fold_break
    (layover_input archives self scratch epsg_array most
       (frequencyA +:+ "layoverShadowMask") dv loc)
    (zip (seq n (length l)) l) (le0, g) w = (Ok eg, w') ->
  fst eg = match l with
           | [] => le0
           | _ => Some (forallb (exposes_layover archives) l)
           end.
Proof.
  revert n le0 g w. induction l as [|q l IH]; intros n le0 g w; simpl.
  - by intros [= <- <-].
  - intros Hb. apply bind_Ok_inv in Hb as (r & w1 & Hstep & Hb).
    apply layover_input_result in Hstep as [Hflag Hbrk].
    rewrite Hbrk in Hb. destruct r as [[le1 g1] brk]. simpl in *. subst le1.
    destruct (exposes_layover archives q); simpl in *.
    + apply IH in Hb. rewrite Hb. by destruct l.
    + by injection Hb as <- <-.
Qed.

Lemma write_rtc_geotiff_flag input_list out scratch epsg_array data_path
    w le g w' :
  write_rtc_geotiff archives self input_list out scratch epsg_array data_path
    (frequencyA +:+ "layoverShadowMask") w = (Ok (le, g), w') ->
  le = forallb (exposes_layover archives) input_list.
Proof.
  unfold write_rtc_geotiff. intros Hb.
  apply bind_Ok_inv in Hb as (loc & w1 & _ & Hb).
  apply bind_Ok_inv in Hb as (lg & w2 & _ & Hb).
  apply bind_Ok_inv in Hb as (eg & w3 & Hloop & Hb).
  apply layover_loop_flag in Hloop.
  destruct (fst eg) as [le'|]; [|discriminate].
  injection Hb as <- <- <-.
  destruct input_list; [discriminate|]. by injection Hloop.
Qed.

(** The list of paths built over the inputs. *)
Lemma fold_extract_paths (f : string -> string) l acc w lst w' :
  fold_ (fun q acc =>
           do p <- extract_file_name archives q; ret (acc ++ [f p]))
        l acc w = (Ok lst, w') ->
  w' = w /\ lst = acc ++ ((fun q => f (stem_prefix q)) <$> l).
Proof.
  revert acc. induction l as [|q l IH]; intros acc; simpl.
  - intros [= <- <-]. by rewrite app_nil_r.
  - intros Hb. apply bind_Ok_inv in Hb as (acc1 & w1 & Hstep & Hb).
    apply bind_Ok_inv in Hstep as (p & w2 & Hp & Hstep).
    unfold extract_file_name in Hp.
    destruct (archives !! q); [|discriminate].
    injection Hp as <- <-. injection Hstep as <- <-.
    apply IH in Hb as [-> ->]. split; [done|]. by rewrite <- app_assoc.
Qed.

(** A call of the combination collaborator is recorded, whatever its
    outcome. *)
Lemma mosaic_single_output_file_requested L inputs nl output mode sd g w :
  requested L w ->
  requested (L ++ [(inputs, output)])
    (snd (mosaic_single_output_file inputs nl output mode sd g w)).
Proof.
  intros Hw. unfold mosaic_single_output_file.
  rewrite (bind_Ok _ _ _ tt
             {| files := files w; log := log w ++ [EvMosaic inputs output] |})
    by reflexivity.
  apply keeps_bind.
  - apply keeps_fold. intros p acc.
    apply keeps_bind; [apply keeps_read_file|intros; apply keeps_ret].
  - intros rs. apply keeps_write_file.
  - unfold requested in *. simpl. by rewrite mosaics_app, Hw.
Qed.

(** The mosaics [mosaic_rtc_geotiff] requests when it returns: one per
    channel, and the layover mosaic when the flag is set. *)
Lemma mosaic_rtc_geotiff_requested L input_list data_path out scratch g
    nl mode prefix le w w' :
  requested L w ->
  mosaic_rtc_geotiff archives input_list data_path out scratch g nl mode
    prefix le w = (Ok tt, w') ->
  requested
    (L ++ (channel_mosaic input_list out scratch prefix <$> data_path)
       ++ (if le then [layover_mosaic input_list out scratch prefix] else []))
    w'.
Proof.
  unfold mosaic_rtc_geotiff. intros Hw Hb.
  apply bind_Ok_inv in Hb as ([] & w1 & Hloop & Hb).
  assert (Hchan :
    requested (L ++ (channel_mosaic input_list out scratch prefix
                       <$> data_path)) w1).
  { clear Hb. revert L w Hw Hloop. unfold for_.
    induction data_path as [|dp dps IH]; intros L w Hw; simpl.
    - intros [= <-]. by rewrite app_nil_r.
    - intros Hb. apply bind_Ok_inv in Hb as ([] & w2 & Hstep & Hb).
      apply bind_Ok_inv in Hstep as (lst & w3 & Hlst & Hstep).
      apply fold_extract_paths in Hlst as [-> ->]. simpl in Hstep.
      match type of Hstep with
      | mosaic_single_output_file ?i _ ?o _ _ _ _ = _ =>
          pose proof (mosaic_single_output_file_requested
                        L i nl o mode scratch g w Hw)
            as Hreq
      end.
      rewrite Hstep in Hreq. simpl in Hreq.
      specialize (IH _ _ Hreq Hb).
      by rewrite <- app_assoc in IH. }
  destruct le.
  - apply bind_Ok_inv in Hb as (lst & w2 & Hlst & Hb).
    apply fold_extract_paths in Hlst as [-> ->]. simpl in Hb.
    match type of Hb with
    | mosaic_single_output_file ?i _ ?o _ _ _ _ = _ =>
        pose proof (mosaic_single_output_file_requested
                      _ i nl o mode scratch g w1 Hchan)
          as Hreq
    end.
    rewrite Hb in Hreq. simpl in Hreq. by rewrite <- app_assoc in Hreq.
  - injection Hb as <-. by rewrite app_nil_r.
Qed.

End Combine.

(** C4 (counterexample): the first input exposes the layover/shadow mask,
    the second does not; the run completes and requests the HH mosaic only:
    no layover mosaic is produced although one input has the mask. *)
Lemma layover_mosaic_skipped_when_one_input_lacks_mask :
  exposes_layover sample_archives "/in/a.h5" = true
  /\ exposes_layover sample_archives "/in/b.h5" = false
  /\ fst (sample_run ["/in/a.h5"; "/in/b.h5"]%string) = Ok tt
  /\ mosaics (log (snd (sample_run ["/in/a.h5"; "/in/b.h5"]%string)))
     = [(["/scratch/a_HH.tif"; "/scratch/b_HH.tif"]%string,
         "/out/mosaic_HH.tif"%string)].
Proof. repeat split; vm_compute; reflexivity. Qed.

(** C4 (amended): when the run completes, it has requested one mosaic per
    channel, over the intermediate rasters of all inputs, and then the
    layover mosaic exactly when every input exposes the layover/shadow mask
    dataset, over the layover rasters of all inputs; when some input lacks
    the mask, layover mosaicking is skipped without error. *)
Theorem layover_mosaic_iff_every_input_has_mask
    `{Collaborators} archives self input_list out scratch mode prefix w w' :
  process_rtc_hdf5 archives self input_list out scratch mode prefix w
  = (Ok tt, w') ->
  exists pols,
    extract_nisar_polarization archives input_list w = (Ok pols, w)
    /\ mosaics (log w')
       = mosaics (log w)
         ++ (channel_mosaic input_list out scratch prefix
               <$> generate_nisar_dataset_name (StrList pols))
         ++ (if forallb (exposes_layover archives) input_list
             then [layover_mosaic input_list out scratch prefix]
             else []).
Proof.
  unfold process_rtc_hdf5. intros Hb.
  apply bind_Ok_inv in Hb as (pols & w1 & Hpols & Hb).
  assert (w1 = w) as ->.
  { pose proof (keeps_extract_nisar_polarization archives (eq w) input_list
                  w eq_refl) as Hw.
    rewrite Hpols in Hw. by simpl in Hw. }
  exists pols. split; [done|].
  apply bind_Ok_inv in Hb as (ef & w2 & Hepsg & Hb).
  apply bind_Ok_inv in Hb as ([le g] & w3 & Hwrite & Hb).
  pose proof (keeps_get_nisar_epsg archives (requested (mosaics (log w)))
                input_list w eq_refl) as Hw2.
  rewrite Hepsg in Hw2. simpl in Hw2.
  pose proof (keeps_write_rtc_geotiff archives self _ input_list out scratch
                (fst ef) (generate_nisar_dataset_name (StrList pols))
                (generate_nisar_layover_name "layoverShadowMask") w2 Hw2)
    as Hw3.
  rewrite Hwrite in Hw3. simpl in Hw3.
  apply write_rtc_geotiff_flag in Hwrite as ->.
  simpl in Hb.
  by apply (mosaic_rtc_geotiff_requested archives _ _ _ _ _ _ _ _ _ _ _ _ Hw3)
    in Hb.
Qed.

Lemma layover_mosaic_iff_every_input_has_mask_witness :
  exists pols,
    extract_nisar_polarization sample_archives ["/in/a.h5"; "/in/f.h5"]%string
      empty_world = (Ok pols, empty_world)
    /\ mosaics (log (snd (sample_run ["/in/a.h5"; "/in/f.h5"]%string)))
       = mosaics (log empty_world)
         ++ (channel_mosaic ["/in/a.h5"; "/in/f.h5"]%string
               "/out" "/scratch" "mosaic"
               <$> generate_nisar_dataset_name (StrList pols))
         ++ (if forallb (exposes_layover sample_archives)
                        ["/in/a.h5"; "/in/f.h5"]%string
             then [layover_mosaic ["/in/a.h5"; "/in/f.h5"]%string
                     "/out" "/scratch" "mosaic"]
             else []).
Proof.
  apply (@layover_mosaic_iff_every_input_has_mask vote sample_archives
           reader_1x2 ["/in/a.h5"; "/in/f.h5"]%string
           "/out" "/scratch" "average" "mosaic" empty_world).
  vm_compute. reflexivity.
Defined.


(** ** Harmonize: which rasters are replaced *)

Section Harmonize.

Variable archives : Archives.
Variables (scratch : string) (epsg_array : list Z) (most : Z).

(** Reprojection of one raster: only the raster and its temporary file
    are touched, and the raster becomes its reprojection. *)
Lemma reproject_step input_gtiff temp_gtiff stale g w g' w' :
  (do _ <- change_epsg_tif input_gtiff temp_gtiff most 255;
   do geogrid_in <- update_geogrid g stale;
   do _ <- os_replace temp_gtiff input_gtiff;
   ret geogrid_in) w = (Ok g', w') ->
  input_gtiff <> temp_gtiff ->
  (exists r, files w !! input_gtiff = Some r
             /\ files w' !! input_gtiff = Some (RWarp r most 255))
  /\ (forall p, p <> input_gtiff -> p <> temp_gtiff ->
                files w' !! p = files w !! p).
Proof.
  intros Hb Hne.
  apply bind_Ok_inv in Hb as ([] & w1 & Hwarp & Hb).
  apply bind_Ok_inv in Hb as (g1 & w2 & Hupd & Hb).
  apply bind_Ok_inv in Hb as ([] & w3 & Hrep & Hb).
  injection Hb as <- <-.
  unfold change_epsg_tif in Hwarp.
  apply bind_Ok_inv in Hwarp as (r & w0 & Hread & Hwarp).
  unfold read_file in Hread.
  destruct (files w !! input_gtiff) as [r0|] eqn:Ein; [|discriminate].
  injection Hread as <- <-. injection Hwarp as <-.
  unfold update_geogrid in Hupd.
  apply bind_Ok_inv in Hupd as (r1 & w0 & Hread & Hupd).
  unfold read_file in Hread.
  destruct (files _ !! stale); [|discriminate].
  injection Hread as <- <-. injection Hupd as _ <-.
  unfold os_replace in Hrep. simpl in Hrep.
  rewrite lookup_insert_eq in Hrep. injection Hrep as <-. simpl.
  split.
  - exists r0. split; [done|]. apply lookup_insert_eq.
  - intros p Hp1 Hp2.
    rewrite lookup_insert_ne by done.
    rewrite lookup_delete_ne by done.
    by rewrite lookup_insert_ne.
Qed.



(** The channel loop of an input that is not reprojected: no file is
    touched. *)
Lemma conforming_fold prefix dps acc w acc' w' :
  fold_ (fun dataset_path acc =>
    let loc := fst acc in
    let geogrid_in := snd acc in
    let data_name := data_name_of dataset_path in
    let output_gtiff := gtiff_path scratch prefix data_name in
    let loc := bind_output_gtiff loc output_gtiff in
    do geogrid_in <- update_geogrid geogrid_in output_gtiff;
    ret (loc, geogrid_in)) dps acc w = (Ok acc', w') ->
  w' = w.
Proof.
  revert acc w. induction dps as [|dp dps IH]; intros acc w; simpl.
  - by intros [= <- <-].
  - intros Hb. apply bind_Ok_inv in Hb as (acc1 & w1 & Hstep & Hb).
    apply IH in Hb as ->.
    apply bind_Ok_inv in Hstep as (g1 & w2 & Hupd & Hstep).
    injection Hstep as <- <-.
    unfold update_geogrid in Hupd.
    apply bind_Ok_inv in Hupd as (r1 & w0 & Hread & Hupd).
    unfold read_file in Hread. destruct (files w !! _); [|discriminate].
    injection Hread as <- <-. by injection Hupd as _ <-.
Qed.



End Harmonize.

(** ** The layover turn of the third loop *)

Section LayoverTurn.

Variable archives : Archives.
Variable self : RTCReader.
Variables (scratch : string) (epsg_array : list Z) (most : Z).

Lemma append_inj_l (s a b : string) : s +:+ a = s +:+ b -> a = b.
Proof. induction s as [|c s IH]; simpl; [done|]. intros [= Hs]. auto. Qed.

Lemma layover_path_not_temp q :
  layover_gtiff_path scratch q <> temp_layover_gtiff_path scratch q.
Proof.
  unfold layover_gtiff_path, temp_layover_gtiff_path. intros Heq.
  do 3 apply append_inj_l in Heq. discriminate.
Qed.

(** One turn of the third loop on an input that exposes the mask: the
    layover raster is written, then harmonized, and no other file but its
    temporary twin is touched. *)
Lemma layover_input_files lp dv loc n q acc w r w' ds :
  layover_input archives self scratch epsg_array most lp dv loc (n, q) acc w
  = (Ok r, w') ->
  gdal_Open archives q lp = Some ds ->
  exists e dst,
    epsg_array !! n = Some e
    /\ band_sanitized ds dv dst
    /\ harmonized most (e =? most) (Some (RTif dst))
                  (files w' !! layover_gtiff_path scratch q)
    /\ (forall p, p <> layover_gtiff_path scratch q ->
                  p <> temp_layover_gtiff_path scratch q ->
                  files w' !! p = files w !! p).
Proof.
  unfold layover_input. simpl. intros Hb Hds. rewrite Hds in Hb.
  apply bind_Ok_inv in Hb as (prefix & w1 & Hprefix & Hb).
  unfold extract_file_name in Hprefix.
  destruct (archives !! q) eqn:Hq; [|discriminate].
  injection Hprefix as <- <-.
  destruct (num_rows loc) as [nr|], (row_blk_size loc) as [rb|],
    (geotransform loc) as [g|], (crs loc) as [c|],
    (dswx_metadata_dict loc) as [meta|]; try discriminate.
  apply bind_Ok_inv in Hb as ([] & w2 & Hwrite & Hb).
  destruct (read_write_rtc_file self ds
              (scratch +:+ "/" +:+ stem_prefix q +:+ "_layover.tif")
              nr (RasterXSize ds) rb (self_col_blk_size self) dv g c meta w)
    as (dst & Hfile & Hband).
  assert (Hframe : forall p,
    p <> layover_gtiff_path scratch q -> files w2 !! p = files w !! p).
  { intros p Hp.
    pose proof (read_write_rtc_frame self ds
                  (scratch +:+ "/" +:+ stem_prefix q +:+ "_layover.tif")
                  nr (RasterXSize ds) rb (self_col_blk_size self) dv g c meta
                  w p Hp) as Hfr.
    by rewrite Hwrite in Hfr. }
  rewrite Hwrite in Hfile. simpl in Hfile.
  fold (layover_gtiff_path scratch q) in *.
  fold (temp_layover_gtiff_path scratch q) in *.
  destruct (epsg_array !! n) as [e|]; [|discriminate].
  exists e, dst. split; [done|]. split; [done|].
  unfold harmonized.
  destruct (e =? most); simpl in Hb.
  - apply bind_Ok_inv in Hb as (g1 & w3 & Hupd & Hb).
    injection Hb as _ <-.
    unfold update_geogrid in Hupd.
    apply bind_Ok_inv in Hupd as (r1 & w0 & Hread & Hupd).
    unfold read_file in Hread. rewrite Hfile in Hread.
    injection Hread as <- <-. injection Hupd as _ <-.
    split; [done|]. intros p Hp _. by apply Hframe.
  - apply bind_Ok_inv in Hb as (prefix' & w3 & Hprefix & Hb).
    unfold extract_file_name in Hprefix. rewrite Hq in Hprefix.
    injection Hprefix as <- <-.
    fold (layover_gtiff_path scratch q) in *.
    fold (temp_layover_gtiff_path scratch q) in *.
    assert (Hstep :
      (do _ <- change_epsg_tif (layover_gtiff_path scratch q)
                 (temp_layover_gtiff_path scratch q) most 255;
       do geogrid_in <- update_geogrid (snd acc) (layover_gtiff_path scratch q);
       do _ <- os_replace (temp_layover_gtiff_path scratch q)
                 (layover_gtiff_path scratch q);
       ret geogrid_in) w2 = (Ok (snd (fst r)), w')).
    { apply bind_Ok_inv in Hb as ([] & w4 & Hwarp & Hb).
      apply bind_Ok_inv in Hb as (g1 & w5 & Hupd & Hb).
      apply bind_Ok_inv in Hb as ([] & w6 & Hrep & Hb).
      injection Hb as <- <-. simpl.
      rewrite (bind_Ok _ _ _ _ _ Hwarp), (bind_Ok _ _ _ _ _ Hupd).
      by rewrite (bind_Ok _ _ _ _ _ Hrep). }
    apply reproject_step in Hstep as [(r0 & Hr0 & Hr1) Hother];
      [|apply layover_path_not_temp].
    rewrite Hfile in Hr0. injection Hr0 as <-.
    split; [by exists (RTif dst)|].
    intros p Hp1 Hp2. rewrite Hother by done. by apply Hframe.
Qed.

End LayoverTurn.




(** ** Stale names in [write_rtc_geotiff] *)

(** C5 (defect): the design document requires the geogrid to be updated,
    after the reprojection of a non-conforming raster, with the footprint of
    that reprojected raster.  On a batch whose first input has EPSG 32611
    and whose two others have the most frequent EPSG 32610, the channel
    turn of the first input registers the HH raster of the last input
    (the name [output_gtiff] still holds the path bound last), and its
    layover turn registers the layover raster as it is before the
    reprojected file replaces it; the two reprojected rasters, in place at
    the end, are never registered. *)
Theorem geogrid_not_updated_with_reprojected_raster :
  fst (get_nisar_epsg sample_archives
         ["/in/c.h5"; "/in/a.h5"; "/in/f.h5"]%string empty_world)
  = Ok ([32611; 32610; 32610], false)
  /\ majority_vote [32611; 32610; 32610] = 32610
  /\ exists g w,
       sample_write ["/in/c.h5"; "/in/a.h5"; "/in/f.h5"]%string
                    [32611; 32610; 32610]
       = (Ok (true, g), w)
       /\ registrations g
          = [("/scratch/f_HH.tif", false);
             ("/scratch/a_HH.tif", false);
             ("/scratch/f_HH.tif", false);
             ("/scratch/c_layover.tif", false);
             ("/scratch/a_layover.tif", false);
             ("/scratch/f_layover.tif", false)]%string
       /\ is_reprojected <$> files w !! "/scratch/c_HH.tif"%string
          = Some true
       /\ is_reprojected <$> files w !! "/scratch/c_layover.tif"%string
          = Some true.
Proof.
  split; [vm_compute; reflexivity|].
  split; [vm_compute; reflexivity|].
  eexists _, _. split; [vm_compute; reflexivity|].
  repeat split; vm_compute; reflexivity.
Qed.

(** The same defect can register a footprint that is not in the most
    frequent EPSG: when the last input is itself non-conforming, the turn of
    an earlier non-conforming input registers the raster of the last one,
    which is still in EPSG 32611 at that point. *)
Example geogrid_registers_unreprojected_raster :
  majority_vote [32611; 32610; 32610; 32610; 32611] = 32610
  /\ exists le g w,
       sample_write
         ["/in/c.h5"; "/in/a.h5"; "/in/b.h5"; "/in/f.h5"; "/in/rtc-1.h5"]%string
         [32611; 32610; 32610; 32610; 32611]
       = (Ok (le, g), w)
       /\ (fun pr => (fst pr, header_crs (snd pr))) <$> g !! 0%nat
          = Some ("/scratch/rtc_HH.tif"%string, Some "EPSG:32611"%string).
Proof.
  split; [vm_compute; reflexivity|].
  eexists _, _, _. split; vm_compute; reflexivity.
Qed.

(** C6 (defect): the design document requires every intermediate raster,
    the layover rasters included, to be created with the geotransform, CRS,
    metadata and dimensions of its own input.  On two inputs that both
    expose the mask, the layover raster of the first is created with the
    geotransform of the second: the third loop reuses the names bound last
    by the first loop.  The channel raster of the first input has its
    own. *)
Theorem layover_raster_created_with_stale_geodata :
  geotransform_of sample_archives "/in/a.h5"
  <> geotransform_of sample_archives "/in/f.h5"
  /\ files (snd (sample_run ["/in/a.h5"; "/in/f.h5"]%string))
       !! "/scratch/a_HH.tif"%string ≫= raster_transform
     = geotransform_of sample_archives "/in/a.h5"
  /\ files (snd (sample_run ["/in/a.h5"; "/in/f.h5"]%string))
       !! "/scratch/a_layover.tif"%string ≫= raster_transform
     = geotransform_of sample_archives "/in/f.h5".
Proof.
  split; [|split].
  - vm_compute. discriminate.
  - vm_compute. reflexivity.
  - vm_compute. reflexivity.
Qed.

(** ** The raster writer on a raster of at least one block *)

Section WriterTotal.

Lemma slice_gen_within total block :
  0 < block -> block <= total ->
  exists l,
    slice_gen total block true = Ok l
    /\ Forall (slice_within total) l
    /\ forall i, 0 <= i < total -> exists s, s ∈ l /\ in_slice i s.
Proof.
  intros Hb Ht.
  destruct (slice_gen_shape total block Hb Ht) as (Hm & [Hlo Hhi] & Heq).
  eexists. split; [exact Heq|].
  destruct (shape_tiles total block _ Hb Hm Hlo) as (Hcov & _ & _).
  split; [|intros i Hi; by apply Hcov].
  apply Forall_app. split.
  - apply Forall_forall. intros s Hs.
    apply list_elem_of_lookup in Hs as [j Hj].
    apply lookup_full_blocks in Hj as [-> Hj]. unfold slice_within. simpl.
    nia.
  - apply Forall_singleton. unfold slice_within. simpl. nia.
Qed.

Lemma write_row_grows r c0 xs band k :
  is_Some (band !! k) -> is_Some (write_row r c0 xs band !! k).
Proof.
  revert c0 band. induction xs as [|x xs IH]; intros c0 band Hk; simpl.
  - done.
  - apply IH. destruct (decide ((r, c0) = k)) as [<-|Hne].
    + rewrite lookup_insert_eq. by eexists.
    + by rewrite lookup_insert_ne.
Qed.

Lemma write_rows_grows r0 c0 rows band k :
  is_Some (band !! k) -> is_Some (write_rows r0 c0 rows band !! k).
Proof.
  revert r0 band. induction rows as [|row rows IH]; intros r0 band Hk; simpl.
  - done.
  - apply IH. by apply write_row_grows.
Qed.

Lemma write_row_written r c0 xs band (j : nat) :
  (j < length xs)%nat ->
  is_Some (write_row r c0 xs band !! (r, c0 + Z.of_nat j)).
Proof.
  revert c0 band j. induction xs as [|x xs IH]; intros c0 band j Hj; simpl.
  - simpl in Hj. lia.
  - destruct j as [|j].
    + apply write_row_grows. replace (c0 + Z.of_nat 0) with c0 by lia.
      rewrite lookup_insert_eq. by eexists.
    + replace (c0 + Z.of_nat (S j)) with (c0 + 1 + Z.of_nat j) by lia.
      apply IH. simpl in Hj. lia.
Qed.

Lemma write_rows_written r0 c0 rows band (i j : nat) row :
  rows !! i = Some row -> (j < length row)%nat ->
  is_Some (write_rows r0 c0 rows band
             !! (r0 + Z.of_nat i, c0 + Z.of_nat j)).
Proof.
  revert r0 band i. induction rows as [|row' rows IH]; intros r0 band i; simpl.
  - intros Hi. by destruct i.
  - destruct i as [|i]; simpl.
    + intros [= ->] Hj. apply write_rows_grows.
      replace (r0 + Z.of_nat 0) with r0 by lia. by apply write_row_written.
    + intros Hi Hj.
      replace (r0 + Z.of_nat (S i)) with (r0 + 1 + Z.of_nat i) by lia.
      by apply IH.
Qed.

(** The sanitized window read from the dataset: its shape. *)
Lemma ReadAsArray_shape ds xoff yoff xsize ysize blk dv (i : nat) row :
  ReadAsArray ds xoff yoff xsize ysize = Some blk ->
  map (map (sanitize dv)) blk !! i = Some row ->
  Z.of_nat i < ysize /\ Z.of_nat (length row) = Z.max 0 xsize.
Proof.
  unfold ReadAsArray. destruct (_ && _); [|discriminate].
  intros [= <-] Hi.
  change (map (map (sanitize dv)))
    with (fmap (M:=list) (fmap (M:=list) (sanitize dv))) in Hi.
  rewrite <- list_fmap_compose in Hi. rewrite list_lookup_fmap in Hi.
  destruct (seqZ yoff ysize !! i) as [r|] eqn:Er; [|discriminate].
  apply lookup_seqZ in Er as [-> Hlt]. simpl in Hi. injection Hi as <-.
  split; [done|]. rewrite !length_fmap, length_seqZ. lia.
Qed.

Lemma ReadAsArray_rows ds xoff yoff xsize ysize blk dv (i : nat) :
  ReadAsArray ds xoff yoff xsize ysize = Some blk ->
  Z.of_nat i < ysize ->
  is_Some (map (map (sanitize dv)) blk !! i).
Proof.
  unfold ReadAsArray. destruct (_ && _); [|discriminate].
  intros [= <-] Hi. apply lookup_lt_is_Some.
  rewrite length_map, length_fmap, length_seqZ. lia.
Qed.

(** One block, on slices that lie inside the source and the raster. *)
Lemma write_block_total ds dv nr nc c g slice_row slice_col dst :
  slice_within nr slice_row -> slice_within nc slice_col ->
  nr <= RasterYSize ds -> nc <= RasterXSize ds ->
  header_is nr nc c g dst ->
  exists dst',
    write_block ds dv slice_row slice_col dst = (Ok tt, dst')
    /\ header_is nr nc c g dst'
    /\ window_written slice_row slice_col dst'
    /\ band_grows dst dst'.
Proof.
  intros (Hr0 & Hr1 & Hr2) (Hc0 & Hc1 & Hc2) Hnr Hnc
         (Hh & Hw & Hcrs & Htr & Htags & Hrange).
  unfold write_block.
  destruct (ReadAsArray ds (start slice_col) (start slice_row)
              (stop slice_col - start slice_col)
              (stop slice_row - start slice_row)) as [blk|] eqn:Eread.
  2:{ exfalso. unfold ReadAsArray in Eread.
      destruct (Z.leb_spec 0 (start slice_col)); [|lia].
      destruct (Z.leb_spec 0 (start slice_row)); [|lia].
      destruct (Z.ltb_spec 0 (stop slice_col - start slice_col)); [|lia].
      destruct (Z.ltb_spec 0 (stop slice_row - start slice_row)); [|lia].
      destruct (Z.leb_spec (start slice_col
                            + (stop slice_col - start slice_col))
                           (RasterXSize ds)); [|lia].
      destruct (Z.leb_spec (start slice_row
                            + (stop slice_row - start slice_row))
                           (RasterYSize ds)); [|lia].
      discriminate. }
  rewrite mask_assign_sanitize.
  unfold bind, get, lift_res, put, dst_write. simpl.
  rewrite Hh, Hw.
  destruct (Z.leb_spec 0 (start slice_col)); [|lia].
  destruct (Z.leb_spec 0 (start slice_row)); [|lia].
  destruct (Z.leb_spec (start slice_col + (stop slice_col - start slice_col))
                       nc); [|lia].
  destruct (Z.leb_spec (start slice_row + (stop slice_row - start slice_row))
                       nr); [|lia].
  simpl. eexists. split; [reflexivity|].
  split; [|split].
  - unfold header_is. simpl. do 5 (split; [done|]).
    intros r col [y Hy].
    apply write_rows_lookup in Hy as [Hy|(i & j & row & Hi & Hj & -> & ->)].
    + apply Hrange. by eexists.
    + destruct (ReadAsArray_shape _ _ _ _ _ _ dv i row Eread Hi)
        as [Hil Hlen].
      apply lookup_lt_Some in Hj. lia.
  - intros r col [Hrl Hrh] [Hcl Hch]. simpl.
    destruct (ReadAsArray_rows _ _ _ _ _ _ dv
                (Z.to_nat (r - start slice_row)) Eread) as [row Hrow];
      [lia|].
    destruct (ReadAsArray_shape _ _ _ _ _ _ dv _ row Eread Hrow)
      as [_ Hlen].
    replace r with (start slice_row + Z.of_nat (Z.to_nat (r - start slice_row)))
      at 1 by lia.
    replace col
      with (start slice_col + Z.of_nat (Z.to_nat (col - start slice_col)))
      at 1 by lia.
    eapply write_rows_written; [exact Hrow|]. lia.
  - intros k Hk. simpl. by apply write_rows_grows.
Qed.

(** A loop whose every turn returns, keeps [I], grows the state along the
    preorder [R] and establishes [Q] for its item. *)
Lemma for_total {S A} (I : S -> Prop) (Q : A -> S -> Prop)
    (R : S -> S -> Prop) (body : A -> ST S unit) l s :
  (forall s, R s s) ->
  (forall s1 s2 s3, R s1 s2 -> R s2 s3 -> R s1 s3) ->
  (forall y s1 s2, R s1 s2 -> Q y s1 -> Q y s2) ->
  (forall x s, x ∈ l -> I s ->
     exists s1, body x s = (Ok tt, s1) /\ I s1 /\ Q x s1 /\ R s s1) ->
  I s ->
  exists s', for_ l body s = (Ok tt, s') /\ I s' /\ R s s'
             /\ forall x, x ∈ l -> Q x s'.
Proof.
  intros Hrefl Htrans Hmono. unfold for_.
  revert s. induction l as [|x l IH]; intros s Hbody Hs; simpl.
  - exists s. repeat split; try done. intros x Hx. by apply elem_of_nil in Hx.
  - destruct (Hbody x s) as (s1 & Hstep & Hs1 & Hq & Hr); [left|done|].
    destruct (IH s1) as (s' & Hrest & Hs' & Hr' & Hq'); [|done|].
    { intros y s0 Hy. apply Hbody. by right. }
    exists s'. rewrite (bind_Ok _ _ _ _ _ Hstep).
    split; [done|]. split; [done|]. split; [by eapply Htrans|].
    intros y Hy. apply elem_of_cons in Hy as [->|Hy]; [|by apply Hq'].
    by eapply Hmono.
Qed.

Lemma window_written_grows slice_row slice_col dst dst' :
  band_grows dst dst' ->
  window_written slice_row slice_col dst ->
  window_written slice_row slice_col dst'.
Proof. intros Hg Hw r c Hr Hc. apply Hg. by apply Hw. Qed.

(** The two loops on a raster of at least one block in each direction:
    they return, and every sample of the raster has been written. *)
Lemma write_blocks_total ds nr nc rb cb dv c g dst :
  0 < rb <= nr -> 0 < cb <= nc ->
  nr <= RasterYSize ds -> nc <= RasterXSize ds ->
  header_is nr nc c g dst ->
  exists dst',
    write_blocks ds nr nc rb cb dv dst = (Ok tt, dst')
    /\ header_is nr nc c g dst'
    /\ forall r col, 0 <= r < nr -> 0 <= col < nc ->
                     is_Some (gt_band dst' !! (r, col)).
Proof.
  intros [Hrb Hrn] [Hcb Hcn] Hnr Hnc Hdst.
  destruct (slice_gen_within nr rb Hrb Hrn) as (rows & Hrows & Hrin & Hrcov).
  destruct (slice_gen_within nc cb Hcb Hcn) as (cols & Hcols & Hcin & Hccov).
  assert (Hrefl : forall s : GTiff, band_grows s s) by (intros s k Hk; exact Hk).
  assert (Htrans : forall s1 s2 s3 : GTiff,
            band_grows s1 s2 -> band_grows s2 s3 -> band_grows s1 s3).
  { intros s1 s2 s3 H12 H23 k Hk. by apply H23, H12. }
  assert (Hinner : forall slice_row s,
            slice_row ∈ rows -> header_is nr nc c g s ->
            exists s1,
              (do cols <- lift_res (slice_gen nc cb true);
               for_ cols (fun slice_col =>
                 write_block ds dv slice_row slice_col)) s = (Ok tt, s1)
              /\ header_is nr nc c g s1
              /\ (forall slice_col, slice_col ∈ cols ->
                                    window_written slice_row slice_col s1)
              /\ band_grows s s1).
  { intros slice_row s Hrow Hs. rewrite Hcols.
    destruct (for_total (header_is nr nc c g)
                (fun slice_col s => window_written slice_row slice_col s)
                band_grows
                (fun slice_col => write_block ds dv slice_row slice_col)
                cols s Hrefl Htrans) as (s1 & Hrun & Hhdr & Hg & Hwritten).
    - intros slice_col s1 s2 Hg Hq. by eapply window_written_grows.
    - intros slice_col s0 Hcol Hs0.
      apply (write_block_total ds dv nr nc c g); try done.
      + rewrite Forall_forall in Hrin. by apply Hrin.
      + rewrite Forall_forall in Hcin. by apply Hcin.
    - exact Hs.
    - exists s1. split; [exact Hrun|]. split; [exact Hhdr|].
      split; [exact Hwritten|exact Hg]. }
  destruct (for_total (header_is nr nc c g)
              (fun slice_row s =>
                 forall slice_col, slice_col ∈ cols ->
                                   window_written slice_row slice_col s)
              band_grows
              (fun slice_row =>
                 do cols <- lift_res (slice_gen nc cb true);
                 for_ cols (fun slice_col =>
                   write_block ds dv slice_row slice_col))
              rows dst Hrefl Htrans) as (dst' & Hrun & Hhdr & _ & Hwritten).
  - intros slice_row s1 s2 Hg Hq slice_col Hcol.
    eapply window_written_grows; [exact Hg|by apply Hq].
  - exact Hinner.
  - exact Hdst.
  - exists dst'. split; [|split; [exact Hhdr|]].
    + unfold write_blocks. rewrite Hrows. exact Hrun.
    + intros r col Hr Hc.
      destruct (Hrcov r Hr) as (slice_row & Hrow & Hinr).
      destruct (Hccov col Hc) as (slice_col & Hcol & Hinc).
      by apply (Hwritten slice_row Hrow slice_col Hcol).
Qed.

(** [read_write_rtc] on a source of at least one block in each direction:
    the call returns, and the file holds a raster of the requested
    dimensions, CRS, transform and tags whose samples are exactly the
    sanitized samples of the source. *)
Theorem read_write_rtc_total self ds out nr nc rb cb dv g c meta w :
  0 < self_row_blk_size self <= nr -> 0 < self_col_blk_size self <= nc ->
  nr <= RasterYSize ds -> nc <= RasterXSize ds ->
  exists dst,
    read_write_rtc self ds out nr nc rb cb dv g c meta w
    = (Ok tt, {| files := <[out := RTif dst]> (files w); log := log w |})
    /\ gt_height dst = nr /\ gt_width dst = nc /\ gt_crs dst = c
    /\ gt_transform dst = g /\ gt_tags dst = meta
    /\ forall r col,
         gt_band dst !! (r, col)
         = if decide (0 <= r < nr /\ 0 <= col < nc)
           then Some (sanitize dv (band_value ds r col))
           else None.
Proof.
  intros Hrb Hcb Hnr Hnc.
  set (created := {| gt_height := nr; gt_width := nc; gt_crs := c;
                     gt_transform := g; gt_band := ∅; gt_tags := [] |}).
  assert (Hcreated : header_is nr nc c g created).
  { unfold header_is. simpl. do 5 (split; [done|]).
    intros r col [y Hy]. by rewrite lookup_empty in Hy. }
  destruct (write_blocks_total ds nr nc _ _ dv c g created
              Hrb Hcb Hnr Hnc Hcreated)
    as (dst & Hrun & (Hh & Hw & Hcrs & Htr & Htags & Hrange) & Hall).
  assert (Hsan : band_sanitized ds dv dst).
  { pose proof (write_blocks_keeps ds nr nc (self_row_blk_size self)
                  (self_col_blk_size self) dv created) as Hk.
    rewrite Hrun in Hk. apply Hk.
    intros r col y. simpl. by rewrite lookup_empty. }
  exists (update_tags dst meta).
  unfold read_write_rtc. fold created.
  rewrite (bind_Ok _ _ _ _ _ Hrun).
  split; [reflexivity|]. simpl.
  repeat split; try done.
  intros r col. destruct (decide _) as [[Hr Hc]|Hout].
  - destruct (Hall r col Hr Hc) as [y Hy]. rewrite Hy.
    f_equal. by apply Hsan.
  - destruct (gt_band dst !! (r, col)) as [y|] eqn:Hy; [|done].
    exfalso. apply Hout. apply Hrange. by eexists.
Qed.

End WriterTotal.

(** ** Stage: the header of the channel rasters *)

Section Stage.

Variable archives : Archives.
Variable self : RTCReader.

(** The header [read_write_rtc] creates the file with, whatever the
    outcome of the call. *)
Lemma read_write_rtc_header ds out nr nc rb cb dv g c meta w :
  exists dst,
    files (snd (read_write_rtc self ds out nr nc rb cb dv g c meta w)) !! out
    = Some (RTif dst)
    /\ gt_height dst = nr /\ gt_width dst = nc
    /\ gt_crs dst = c /\ gt_transform dst = g.
Proof.
  unfold read_write_rtc.
  set (created := {| gt_height := nr; gt_width := nc; gt_crs := c;
                     gt_transform := g; gt_band := ∅; gt_tags := [] |}).
  set (body := bind _ _).
  set (I := fun dst : GTiff =>
         gt_height dst = nr /\ gt_width dst = nc
         /\ gt_crs dst = c /\ gt_transform dst = g).
  assert (Hk : keeps I body).
  { apply keeps_bind.
    - unfold write_blocks.
      apply keeps_bind; [apply keeps_lift_res|]. intros rows.
      apply keeps_for. intros slice_row.
      apply keeps_bind; [apply keeps_lift_res|]. intros cols.
      apply keeps_for. intros slice_col. unfold write_block.
      destruct (ReadAsArray _ _ _ _ _); [|apply keeps_raise].
      apply keeps_update. intros dst dst' Hdst Hw.
      unfold dst_write in Hw. destruct (_ && _); [|discriminate].
      by injection Hw as <-.
    - intros _. apply (keeps_get_put _ (fun dst => update_tags dst meta)).
      intros dst Hdst. exact Hdst. }
  specialize (Hk created). destruct (body created) as [r dst].
  exists dst. split.
  - unfold bind, write_file, lift_res. simpl. apply lookup_insert_eq.
  - apply Hk. by unfold I.
Qed.

(** The channel loop of one input keeps, and extends to the rasters it
    writes, the fact that a file is a GeoTIFF with the given geotransform
    and CRS. *)
Lemma stage_fold_headers scratch dv q g c meta dps D loc w loc' w' :
  fold_ (fun dataset_path loc =>
    let data_name := data_name_of dataset_path in
    let output_gtiff := gtiff_path scratch (stem_prefix q) data_name in
    let loc := bind_output_gtiff loc output_gtiff in
    match gdal_Open archives q dataset_path with
    | None => raise AttributeError
    | Some h5_ds =>
        let num_cols := RasterXSize h5_ds in
        let num_rows := RasterYSize h5_ds in
        let row_blk_size := self_row_blk_size self in
        let col_blk_size := self_col_blk_size self in
        do _ <- read_write_rtc self h5_ds output_gtiff num_rows num_cols
                  row_blk_size col_blk_size dv g c meta;
        ret (bind_rows loc num_rows row_blk_size)
    end) dps loc w = (Ok loc', w') ->
  (forall p, p ∈ D ->
     exists t, files w !! p = Some (RTif t)
               /\ gt_transform t = g /\ gt_crs t = c) ->
  forall p,
    p ∈ D ++ ((fun dp => gtiff_path scratch (stem_prefix q) (data_name_of dp))
                <$> dps) ->
    exists t, files w' !! p = Some (RTif t)
              /\ gt_transform t = g /\ gt_crs t = c.
Proof.
  revert D loc w. induction dps as [|dp dps IH]; intros D loc w Hb HD.
  - simpl in Hb. injection Hb as _ <-. simpl. by rewrite app_nil_r.
  - simpl in Hb. apply bind_Ok_inv in Hb as (loc1 & w1 & Hstep & Hb).
    destruct (gdal_Open archives q dp) as [ds|]; [|discriminate].
    apply bind_Ok_inv in Hstep as ([] & w2 & Hwrite & Hstep).
    injection Hstep as <- <-.
    set (out := gtiff_path scratch (stem_prefix q) (data_name_of dp)) in *.
    destruct (read_write_rtc_header ds out (RasterYSize ds) (RasterXSize ds)
                (self_row_blk_size self) (self_col_blk_size self)
                dv g c meta w) as (t1 & Ht1 & _ & _ & Hc1 & Hg1).
    rewrite Hwrite in Ht1. simpl in Ht1.
    intros p Hp. simpl in Hp.
    apply (IH (D ++ [out]) _ _ Hb); [|by rewrite <- app_assoc].
    intros p' Hp'.
    destruct (decide (p' = out)) as [->|Hne]; [by exists t1|].
    apply elem_of_app in Hp' as [Hp'|Hp'].
    + destruct (HD p' Hp') as (t & Ht & Hg & Hc). exists t.
      split; [|done]. rewrite <- Ht.
      pose proof (read_write_rtc_frame self ds out (RasterYSize ds)
                    (RasterXSize ds) (self_row_blk_size self)
                    (self_col_blk_size self) dv g c meta w p' Hne) as Hfr.
      by rewrite Hwrite in Hfr.
    + by apply list_elem_of_singleton in Hp'.
Qed.

(** The channel rasters an input's turn of the first loop leaves behind
    carry the geotransform and CRS resolved from that input. *)
Lemma stage_input_headers scratch data_path dv q loc w loc' w' :
  stage_input archives self scratch data_path dv q loc w = (Ok loc', w') ->
  exists g c,
    read_geodata_hdf5 archives q w = (Ok (g, c), w)
    /\ forall dp, dp ∈ data_path ->
         exists t,
           files w' !! gtiff_path scratch (stem_prefix q) (data_name_of dp)
           = Some (RTif t)
           /\ gt_transform t = g /\ gt_crs t = c.
Proof.
  unfold stage_input. intros Hb.
  apply bind_Ok_inv in Hb as (prefix & w1 & Hprefix & Hb).
  assert (prefix = stem_prefix q /\ w1 = w) as [-> ->].
  { unfold extract_file_name in Hprefix.
    destruct (archives !! q); [|discriminate]. by injection Hprefix. }
  apply bind_Ok_inv in Hb as ([g c] & w1 & Hgeo & Hb).
  assert (w1 = w) as ->.
  { pose proof (keeps_read_geodata_hdf5 archives (eq w) q w eq_refl) as Hw.
    rewrite Hgeo in Hw. by simpl in Hw. }
  apply bind_Ok_inv in Hb as (meta & w1 & Hmeta & Hb).
  assert (w1 = w) as ->.
  { pose proof (keeps_read_metadata_hdf5 archives (eq w) q w eq_refl) as Hw.
    rewrite Hmeta in Hw. by simpl in Hw. }
  exists g, c. split; [done|]. simpl in Hb.
  intros dp Hdp.
  apply (stage_fold_headers scratch dv q g c meta data_path [] _ _ _ _ Hb).
  - intros p Hp. by apply elem_of_nil in Hp.
  - simpl. apply list_elem_of_fmap. by exists dp.
Qed.

End Stage.

(** ** Completion of the run on a well-formed batch *)

Section Completion.

Context `{Collaborators}.
Variable archives : Archives.
Variable self : RTCReader.
Variable scratch : string.

(** A loop whose every turn returns and carries an invariant of the
    items done, the accumulator and the state. *)
Lemma fold_progress {S A B} (I : list A -> B -> S -> Prop)
    (body : A -> B -> ST S B) l acc s :
  (forall pre x post b s,
     l = pre ++ x :: post -> I pre b s ->
     exists b' s', body x b s = (Ok b', s') /\ I (pre ++ [x]) b' s') ->
  I [] acc s ->
  exists b' s', fold_ body l acc s = (Ok b', s') /\ I l b' s'.
Proof.
  intros Hbody Hinit.
  assert (Hgen : forall rest pre acc s,
    l = pre ++ rest -> I pre acc s ->
    exists b' s', fold_ body rest acc s = (Ok b', s') /\ I l b' s').
  { induction rest as [|x rest IH]; intros pre acc0 s0 Hl Hpre; simpl.
    - rewrite app_nil_r in Hl. subst pre. by exists acc0, s0.
    - destruct (Hbody pre x rest acc0 s0 Hl Hpre) as (b1 & s1 & Hstep & H1).
      rewrite (bind_Ok _ _ _ _ _ Hstep).
      apply (IH (pre ++ [x])); [|done]. by rewrite <- app_assoc. }
  by apply (Hgen l []).
Qed.

Lemma exist_all_write paths p r w :
  exist_all paths w ->
  exist_all paths {| files := <[p := r]> (files w); log := log w |}.
Proof.
  intros Hw p' Hp'. simpl. destruct (decide (p = p')) as [->|Hne].
  - rewrite lookup_insert_eq. by eexists.
  - rewrite lookup_insert_ne by done. by apply Hw.
Qed.

Lemma exist_all_app l1 l2 w :
  exist_all (l1 ++ l2) w <-> exist_all l1 w /\ exist_all l2 w.
Proof.
  unfold exist_all. split.
  - intros Hw. split; intros p Hp; apply Hw, elem_of_app; auto.
  - intros [H1 H2] p Hp. apply elem_of_app in Hp as [Hp|Hp]; auto.
Qed.

(** *** Discover *)

Lemma read_polarizations_agree P acc q prod w :
  acc = [] \/ acc = P ->
  archives !! q = Some prod -> np_sort (listOfPolarizations prod) = P ->
  read_polarizations archives q acc w = (Ok P, w).
Proof.
  intros Hacc Hq Hsort. unfold read_polarizations. rewrite Hq, Hsort.
  destruct acc as [|x acc]; simpl; [done|].
  destruct Hacc as [Hnil| ->]; [done|]. by rewrite np_all_eq_refl.
Qed.

Lemma fold_read_polarizations_held l P w :
  (forall q, q ∈ l ->
     exists prod, archives !! q = Some prod
                  /\ np_sort (listOfPolarizations prod) = P) ->
  fold_ (read_polarizations archives) l P w = (Ok P, w).
Proof.
  induction l as [|q l IH]; intros Hall; simpl; [done|].
  destruct (Hall q) as (prod & Hq & Hsort); [left|].
  rewrite (bind_Ok _ _ _ _ _
             (read_polarizations_agree P P q prod w (or_intror eq_refl)
                                       Hq Hsort)).
  apply IH. intros q' Hq'. apply Hall. by right.
Qed.

Lemma extract_nisar_polarization_total l P w :
  l <> [] ->
  (forall q, q ∈ l ->
     exists prod, archives !! q = Some prod
                  /\ np_sort (listOfPolarizations prod) = P) ->
  extract_nisar_polarization archives l w = (Ok P, w).
Proof.
  intros Hne Hall. unfold extract_nisar_polarization.
  destruct l as [|q l]; [done|]. simpl.
  destruct (Hall q) as (prod & Hq & Hsort); [left|].
  rewrite (bind_Ok _ _ _ P w); [done|].
  rewrite (bind_Ok _ _ _ _ _
             (read_polarizations_agree P [] q prod w (or_introl eq_refl)
                                       Hq Hsort)).
  apply fold_read_polarizations_held. intros q' Hq'. apply Hall. by right.
Qed.

Lemma get_nisar_epsg_total l w :
  l <> [] -> (forall q, q ∈ l -> is_Some (archives !! q)) ->
  exists flag,
    get_nisar_epsg archives l w = (Ok (epsg_of archives <$> l, flag), w).
Proof.
  intros Hne Hall. unfold get_nisar_epsg.
  assert (Hfold : forall acc,
    fold_ (fun input_rtc acc =>
             match archives !! input_rtc with
             | None => raise FileNotFoundError
             | Some src_h5 => ret (acc ++ [projection src_h5])
             end) l acc w
    = (Ok (acc ++ (epsg_of archives <$> l)), w)).
  { clear Hne. induction l as [|q l IH]; intros acc; simpl.
    - by rewrite app_nil_r.
    - destruct (Hall q) as [prod Hq]; [left|].
      unfold bind at 1. rewrite Hq. simpl.
      rewrite IH by (intros q' Hq'; apply Hall; by right).
      unfold epsg_of at 2. rewrite Hq. simpl. by rewrite <- app_assoc. }
  rewrite (bind_Ok _ _ _ _ _ (Hfold [])). simpl.
  destruct l as [|q l]; [done|]. simpl. by eexists.
Qed.

(** *** Combine *)

Lemma elem_of_gtiff_paths data_path input_list p :
  p ∈ gtiff_paths scratch data_path input_list <->
  exists q dp, q ∈ input_list /\ dp ∈ data_path
               /\ p = gtiff_path scratch (stem_prefix q) (data_name_of dp).
Proof.
  unfold gtiff_paths. rewrite list_elem_of_bind. split.
  - intros (q & Hp & Hq). apply list_elem_of_bind in Hp as (dp & Hp & Hdp).
    apply list_elem_of_singleton in Hp. by exists q, dp.
  - intros (q & dp & Hq & Hdp & ->). exists q. split; [|done].
    apply list_elem_of_bind. exists dp. split; [|done].
    by apply list_elem_of_singleton.
Qed.

Lemma fold_extract_paths_total (f : string -> string) l acc w :
  (forall q, q ∈ l -> is_Some (archives !! q)) ->
  fold_ (fun q acc =>
           do p <- extract_file_name archives q; ret (acc ++ [f p]))
        l acc w
  = (Ok (acc ++ ((fun q => f (stem_prefix q)) <$> l)), w).
Proof.
  revert acc. induction l as [|q l IH]; intros acc Hall; simpl.
  - by rewrite app_nil_r.
  - destruct (Hall q) as [prod Hq]; [left|].
    unfold bind at 1. unfold bind at 1. unfold extract_file_name at 1.
    rewrite Hq. simpl.
    rewrite IH by (intros q' Hq'; apply Hall; by right).
    by rewrite <- app_assoc.
Qed.

Lemma fold_read_file_total l acc w :
  exist_all l w ->
  exists rs,
    fold_ (fun p acc => do r <- read_file p; ret (acc ++ [r])) l acc w
    = (Ok rs, w).
Proof.
  revert acc. induction l as [|p l IH]; intros acc Hall; simpl.
  - by exists acc.
  - destruct (Hall p) as [r Hr]; [left|].
    unfold bind at 1. unfold bind at 1. unfold read_file at 1.
    rewrite Hr. simpl. apply IH. intros p' Hp'. apply Hall. by right.
Qed.

Lemma mosaic_single_output_file_total inputs nl output mode sd g w :
  exist_all inputs w ->
  exists w',
    mosaic_single_output_file inputs nl output mode sd g w = (Ok tt, w')
    /\ forall paths, exist_all paths w -> exist_all paths w'.
Proof.
  intros Hin. unfold mosaic_single_output_file.
  set (w1 := {| files := files w;
                log := log w ++ [EvMosaic inputs output] |}).
  destruct (fold_read_file_total inputs [] w1) as [rs Hrs]; [done|].
  eexists. split.
  - rewrite (bind_Ok _ _ _ tt w1) by reflexivity.
    rewrite (bind_Ok _ _ _ _ _ Hrs). reflexivity.
  - intros paths Hpaths. by apply (exist_all_write paths output _ w1).
Qed.

Lemma mosaic_rtc_geotiff_total input_list data_path out g nl mode prefix
    le w :
  (forall q, q ∈ input_list -> is_Some (archives !! q)) ->
  exist_all (gtiff_paths scratch data_path input_list) w ->
  (le = true -> exist_all (layover_paths scratch input_list) w) ->
  exists w',
    mosaic_rtc_geotiff archives input_list data_path out scratch g nl mode
                       prefix le w = (Ok tt, w').
Proof.
  intros Hall Hg Hl. unfold mosaic_rtc_geotiff.
  destruct (fold_progress
              (fun (_ : list string) (_ : unit) w =>
                 exist_all (gtiff_paths scratch data_path input_list) w
                 /\ (le = true ->
                     exist_all (layover_paths scratch input_list) w))
              (fun dataset_path (_ : unit) =>
                 do input_gtiff_list <-
                   fold_ (fun input_rtc input_gtiff_list =>
                            do input_prefix <-
                              extract_file_name archives input_rtc;
                            ret (input_gtiff_list
                                   ++ [gtiff_path scratch input_prefix
                                         (data_name_of dataset_path)]))
                         input_list [];
                 mosaic_single_output_file input_gtiff_list nl
                   (out +:+ "/" +:+ prefix +:+ "_"
                        +:+ data_name_of dataset_path +:+ ".tif")
                   mode scratch g)
              data_path tt w) as ([] & w1 & Hloop & Hg1 & Hl1).
  - intros pre dp post [] w0 Hdp [Hg0 Hl0].
    rewrite (bind_Ok _ _ _ _ _
               (fold_extract_paths_total
                  (fun p => gtiff_path scratch p (data_name_of dp))
                  input_list [] w0 Hall)).
    simpl.
    destruct (mosaic_single_output_file_total
                ((fun q => gtiff_path scratch (stem_prefix q)
                                      (data_name_of dp)) <$> input_list)
                nl (out +:+ "/" +:+ prefix +:+ "_"
                        +:+ data_name_of dp +:+ ".tif")
                mode scratch g w0) as (w2 & Hrun & Hkeep).
    { intros p Hp. apply Hg0. apply list_elem_of_fmap in Hp as (q & -> & Hq).
      apply elem_of_gtiff_paths. exists q, dp. split; [done|].
      split; [|done]. rewrite Hdp. apply elem_of_app. right. left. }
    exists tt, w2. split; [done|]. split; [by apply Hkeep|].
    intros Hle. by apply Hkeep, Hl0.
  - done.
  - unfold for_. rewrite (bind_Ok _ _ _ _ _ Hloop).
    destruct le; [|by eexists].
    rewrite (bind_Ok _ _ _ _ _
               (fold_extract_paths_total
                  (fun p => scratch +:+ "/" +:+ p +:+ "_layover.tif")
                  input_list [] w1 Hall)).
    simpl.
    destruct (mosaic_single_output_file_total
                ((fun q => scratch +:+ "/" +:+ stem_prefix q
                                   +:+ "_layover.tif") <$> input_list)
                nl (out +:+ "/" +:+ prefix +:+ "_layover.tif")
                mode scratch g w1) as (w2 & Hrun & _).
    { by apply Hl1. }
    by exists w2.
Qed.

(** *** Stage *)

Lemma extract_file_name_total q prod w :
  archives !! q = Some prod ->
  extract_file_name archives q w = (Ok (stem_prefix q), w).
Proof. intros Hq. unfold extract_file_name. by rewrite Hq. Qed.

Lemma read_geodata_hdf5_total q prod w :
  archives !! q = Some prod ->
  xCoordinates prod <> [] -> yCoordinates prod <> [] ->
  exists gc, read_geodata_hdf5 archives q w = (Ok gc, w).
Proof.
  intros Hq Hx Hy. unfold read_geodata_hdf5. rewrite Hq.
  destruct (xCoordinates prod); [done|].
  destruct (yCoordinates prod); [done|]. by eexists.
Qed.

Lemma read_metadata_hdf5_total q prod w :
  archives !! q = Some prod -> l1SlcGranules prod <> [] ->
  exists meta, read_metadata_hdf5 archives q w = (Ok meta, w).
Proof.
  intros Hq Hg. unfold read_metadata_hdf5. rewrite Hq.
  destruct (l1SlcGranules prod); [done|]. by eexists.
Qed.

(** The names bound by the channel loop of input [q] after the channels
    [pre]. *)
Lemma stage_fold_total dv q g c meta data_path loc w K :
  (forall dp, dp ∈ data_path ->
     exists ds, gdal_Open archives q dp = Some ds
                /\ self_row_blk_size self <= RasterYSize ds
                /\ self_col_blk_size self <= RasterXSize ds) ->
  0 < self_row_blk_size self -> 0 < self_col_blk_size self ->
  exist_all K w ->
  is_Some (geotransform loc) -> is_Some (crs loc) ->
  is_Some (dswx_metadata_dict loc) ->
  exists loc' w',
    fold_ (fun dataset_path loc =>
      let data_name := data_name_of dataset_path in
      let output_gtiff := gtiff_path scratch (stem_prefix q) data_name in
      let loc := bind_output_gtiff loc output_gtiff in
      match gdal_Open archives q dataset_path with
      | None => raise AttributeError
      | Some h5_ds =>
          let num_cols := RasterXSize h5_ds in
          let num_rows := RasterYSize h5_ds in
          let row_blk_size := self_row_blk_size self in
          let col_blk_size := self_col_blk_size self in
          do _ <- read_write_rtc self h5_ds output_gtiff num_rows num_cols
                    row_blk_size col_blk_size dv g c meta;
          ret (bind_rows loc num_rows row_blk_size)
      end) data_path loc w = (Ok loc', w')
    /\ exist_all
         (K ++ ((fun dp => gtiff_path scratch (stem_prefix q)
                                      (data_name_of dp)) <$> data_path)) w'
    /\ is_Some (geotransform loc') /\ is_Some (crs loc')
    /\ is_Some (dswx_metadata_dict loc')
    /\ (data_path <> [] ->
        row_blk_size loc' = Some (self_row_blk_size self)
        /\ (exists dp, dp ∈ data_path
              /\ output_gtiff loc'
                 = Some (gtiff_path scratch (stem_prefix q)
                                    (data_name_of dp)))
        /\ (exists dp ds, dp ∈ data_path
              /\ gdal_Open archives q dp = Some ds
              /\ num_rows loc' = Some (RasterYSize ds))).
Proof.
  intros Hlayers Hrb Hcb HK Hg Hc Hm.
  apply (fold_progress
    (fun pre (loc1 : Locals) w1 =>
       exist_all
         (K ++ ((fun dp => gtiff_path scratch (stem_prefix q)
                                      (data_name_of dp)) <$> pre)) w1
       /\ is_Some (geotransform loc1) /\ is_Some (crs loc1)
       /\ is_Some (dswx_metadata_dict loc1)
       /\ (pre <> [] ->
           row_blk_size loc1 = Some (self_row_blk_size self)
           /\ (exists dp, dp ∈ pre
                 /\ output_gtiff loc1
                    = Some (gtiff_path scratch (stem_prefix q)
                                       (data_name_of dp)))
           /\ (exists dp ds, dp ∈ pre
                 /\ gdal_Open archives q dp = Some ds
                 /\ num_rows loc1 = Some (RasterYSize ds))))).
  - intros pre dp post loc1 w1 Hdp (Hex1 & Hg1 & Hc1 & Hm1 & _).
    destruct (Hlayers dp) as (ds & Hopen & Hrows & Hcols).
    { rewrite Hdp. apply elem_of_app. right. left. }
    cbv zeta. rewrite Hopen.
    destruct (read_write_rtc_total self ds
                (gtiff_path scratch (stem_prefix q) (data_name_of dp))
                (RasterYSize ds) (RasterXSize ds)
                (self_row_blk_size self) (self_col_blk_size self)
                dv g c meta w1) as (dst & Hrun & _); try lia.
    rewrite (bind_Ok _ _ _ _ _ Hrun).
    eexists _, _. split; [reflexivity|]. simpl.
    split; [|split; [done|split; [done|split; [done|]]]].
    + rewrite fmap_app, app_assoc. apply exist_all_app. split.
      * by apply exist_all_write.
      * intros p Hp. apply list_elem_of_singleton in Hp as ->. simpl.
        rewrite lookup_insert_eq. by eexists.
    + intros _. split; [done|]. split.
      * exists dp. split; [|done]. apply elem_of_app. right. left.
      * exists dp, ds. split; [|done]. apply elem_of_app. right. left.
  - split; [by rewrite app_nil_r|]. done.
Qed.

Lemma stage_input_total P dv q loc w K :
  stageable archives self P q ->
  0 < self_row_blk_size self -> 0 < self_col_blk_size self ->
  exist_all K w ->
  exists loc' w',
    stage_input archives self scratch
                (generate_nisar_dataset_name (StrList P)) dv q loc w
    = (Ok loc', w')
    /\ exist_all
         (K ++ gtiff_paths scratch
                 (generate_nisar_dataset_name (StrList P)) [q]) w'
    /\ staged archives self scratch
              (generate_nisar_dataset_name (StrList P)) [q] loc'.
Proof.
  intros (prod & Hq & _ & Hx & Hy & Hgran & Hlayers) Hrb Hcb HK.
  set (data_path := generate_nisar_dataset_name (StrList P)) in *.
  destruct (read_geodata_hdf5_total q prod w Hq Hx Hy) as ([g c] & Hgeo).
  destruct (read_metadata_hdf5_total q prod w Hq Hgran) as (meta & Hmeta).
  unfold stage_input.
  rewrite (bind_Ok _ _ _ _ _ (extract_file_name_total q prod w Hq)).
  rewrite (bind_Ok _ _ _ _ _ Hgeo).
  rewrite (bind_Ok _ _ _ _ _ Hmeta). simpl fst. simpl snd.
  destruct (stage_fold_total dv q g c meta data_path
              (bind_geodata loc g c meta) w K)
    as (loc' & w' & Hfold & Hex & Hg & Hc & Hm & Hbound); try done.
  - intros dp Hdp. destruct (Hlayers dp Hdp) as (ds & Hds & Hrows & Hcols).
    exists ds. split; [|done]. unfold gdal_Open. rewrite Hq. exact Hds.
  - exists loc', w'. split; [exact Hfold|]. split.
    + intros p Hp. apply Hex. apply elem_of_app in Hp as [Hp|Hp].
      * apply elem_of_app. by left.
      * apply elem_of_app. right.
        apply elem_of_gtiff_paths in Hp as (q' & dp & Hq' & Hdp & ->).
        apply list_elem_of_singleton in Hq' as ->.
        apply list_elem_of_fmap. by exists dp.
    + unfold staged. do 3 (split; [done|]). intros Hne.
      destruct (Hbound Hne)
        as (Hrow & (dp & Hdp & Hout) & (dp' & ds & Hdp' & Hopen & Hnum)).
      split; [done|]. split.
      * eexists. split; [exact Hout|]. apply elem_of_gtiff_paths.
        exists q, dp. split; [left|done].
      * exists q, dp', ds. split; [left|done].
Qed.

Lemma staged_mono data_path l1 l2 loc :
  (forall q, q ∈ l1 -> q ∈ l2) ->
  staged archives self scratch data_path l1 loc ->
  staged archives self scratch data_path l2 loc.
Proof.
  intros Hsub (Hg & Hc & Hm & Hbound). unfold staged.
  do 3 (split; [done|]). intros Hne.
  destruct (Hbound Hne)
    as (Hrow & (p & Hout & Hp) & (q & dp & ds & Hq & Hdp & Hopen & Hnum)).
  split; [done|]. split.
  - exists p. split; [done|].
    apply elem_of_gtiff_paths in Hp as (q' & dp' & Hq' & Hdp' & ->).
    apply elem_of_gtiff_paths. exists q', dp'. auto.
  - exists q, dp, ds. auto.
Qed.

Lemma gtiff_paths_app data_path l1 l2 :
  gtiff_paths scratch data_path (l1 ++ l2)
  = gtiff_paths scratch data_path l1 ++ gtiff_paths scratch data_path l2.
Proof. unfold gtiff_paths. apply bind_app. Qed.

(** The first loop on a batch of stageable inputs. *)
Lemma stage_loop_total P dv input_list w :
  input_list <> [] ->
  (forall q, q ∈ input_list -> stageable archives self P q) ->
  0 < self_row_blk_size self -> 0 < self_col_blk_size self ->
  exists loc w',
    fold_ (stage_input archives self scratch
                       (generate_nisar_dataset_name (StrList P)) dv)
          input_list no_locals w = (Ok loc, w')
    /\ exist_all (gtiff_paths scratch
                    (generate_nisar_dataset_name (StrList P)) input_list) w'
    /\ staged archives self scratch
              (generate_nisar_dataset_name (StrList P)) input_list loc.
Proof.
  intros Hne Hall Hrb Hcb.
  set (data_path := generate_nisar_dataset_name (StrList P)) in *.
  destruct (fold_progress
    (fun pre loc w =>
       exist_all (gtiff_paths scratch data_path pre) w
       /\ (pre <> [] -> staged archives self scratch data_path pre loc))
    (stage_input archives self scratch data_path dv)
    input_list no_locals w) as (loc & w' & Hfold & Hex & Hst).
  - intros pre q post loc w0 Hq [Hex0 _].
    destruct (stage_input_total P dv q loc w0
                (gtiff_paths scratch data_path pre))
      as (loc' & w1 & Hrun & Hex1 & Hst1); try done.
    { apply Hall. rewrite Hq. apply elem_of_app. right. left. }
    exists loc', w1. split; [done|]. split.
    + by rewrite gtiff_paths_app.
    + intros _. eapply staged_mono; [|exact Hst1].
      intros q' Hq'. apply elem_of_app. by right.
  - split; [|done]. intros p Hp. by apply elem_of_nil in Hp.
  - exists loc, w'. split; [done|]. split; [done|]. by apply Hst.
Qed.

(** *** Harmonize *)

Lemma elem_of_enumerate_from {A} (l : list A) n i x :
  (i, x) ∈ zip (seq n (length l)) l ->
  (n <= i)%nat /\ l !! (i - n)%nat = Some x.
Proof.
  revert n. induction l as [|y l IH]; intros n; simpl.
  - intros Hin. by apply elem_of_nil in Hin.
  - intros Hin. apply elem_of_cons in Hin as [[= -> ->]|Hin].
    + split; [lia|]. by rewrite Nat.sub_diag.
    + apply IH in Hin as [Hle Hl]. split; [lia|].
      replace (i - n)%nat with (S (i - S n)) by lia. done.
Qed.

Lemma elem_of_enumerate {A} (l : list A) i x :
  (i, x) ∈ enumerate l -> l !! i = Some x.
Proof.
  intros Hin. apply elem_of_enumerate_from in Hin as [_ Hl].
  by rewrite Nat.sub_0_r in Hl.
Qed.

Lemma epsg_lookup (input_list : list string) (i : nat) q :
  input_list !! i = Some q ->
  (epsg_of archives <$> input_list) !! i = Some (epsg_of archives q).
Proof. intros Hq. by rewrite list_lookup_fmap, Hq. Qed.

(** Replacing a raster by way of a temporary file that is not itself an
    intermediate raster keeps every intermediate raster in place. *)
Lemma reproject_total input_gtiff temp_gtiff stale most g w paths :
  is_Some (files w !! input_gtiff) ->
  is_Some (files w !! stale) ->
  exist_all paths w -> temp_gtiff ∉ paths ->
  exists w1 g' w',
    change_epsg_tif input_gtiff temp_gtiff most 255 w = (Ok tt, w1)
    /\ update_geogrid g stale w1 = (Ok g', w1)
    /\ os_replace temp_gtiff input_gtiff w1 = (Ok tt, w')
    /\ exist_all paths w'
    /\ is_Some (files w' !! input_gtiff).
Proof.
  intros [r Hr] [rs Hs] Hpaths Htemp.
  set (w1 := {| files := <[temp_gtiff := RWarp r most 255]> (files w);
                log := log w |}).
  assert (Hwarp : change_epsg_tif input_gtiff temp_gtiff most 255 w
                  = (Ok tt, w1)).
  { unfold change_epsg_tif, bind, read_file. by rewrite Hr. }
  destruct (files w1 !! stale) as [rs1|] eqn:Hs1.
  2:{ exfalso. unfold w1 in Hs1. simpl in Hs1.
      destruct (decide (temp_gtiff = stale)) as [->|Hne].
      - by rewrite lookup_insert_eq in Hs1.
      - rewrite lookup_insert_ne in Hs1 by done. congruence. }
  assert (Hupd : update_geogrid g stale w1 = (Ok (g ++ [(stale, rs1)]), w1)).
  { unfold update_geogrid, bind, read_file. by rewrite Hs1. }
  eexists w1, _, _. split; [exact Hwarp|]. split; [exact Hupd|]. split.
  - unfold os_replace. simpl. rewrite lookup_insert_eq. reflexivity.
  - simpl. split.
    + intros p Hp. simpl.
      destruct (decide (input_gtiff = p)) as [->|Hne].
      * rewrite lookup_insert_eq. by eexists.
      * rewrite lookup_insert_ne by done.
        assert (temp_gtiff <> p) by (intros ->; by apply Htemp).
        rewrite lookup_delete_ne by done.
        rewrite lookup_insert_ne by done. by apply Hpaths.
    + rewrite lookup_insert_eq. by eexists.
Qed.

Lemma update_geogrid_total g p w :
  is_Some (files w !! p) ->
  exists g', update_geogrid g p w = (Ok g', w).
Proof.
  intros [r Hr]. unfold update_geogrid, bind, read_file. rewrite Hr.
  by eexists.
Qed.

Lemma staged_bind_output_gtiff data_path input_list loc p :
  p ∈ gtiff_paths scratch data_path input_list ->
  staged archives self scratch data_path input_list loc ->
  staged archives self scratch data_path input_list
         (bind_output_gtiff loc p).
Proof.
  intros Hp (Hg & Hc & Hm & Hbound). unfold staged. simpl.
  do 3 (split; [done|]). intros Hne.
  destruct (Hbound Hne) as (Hrow & _ & Hnum).
  split; [done|]. split; [by exists p|done].
Qed.

(** The second loop on a staged batch. *)
Lemma harmonize_loop_total data_path input_list most loc g w :
  (forall q, q ∈ input_list -> is_Some (archives !! q)) ->
  (forall p, p ∈ temp_paths scratch data_path input_list ->
             p ∉ gtiff_paths scratch data_path input_list) ->
  exist_all (gtiff_paths scratch data_path input_list) w ->
  staged archives self scratch data_path input_list loc ->
  exists acc' w',
    fold_ (harmonize_input archives scratch (epsg_of archives <$> input_list)
                           most data_path)
          (enumerate input_list) (loc, g) w = (Ok acc', w')
    /\ exist_all (gtiff_paths scratch data_path input_list) w'
    /\ staged archives self scratch data_path input_list (fst acc').
Proof.
  intros Hall Htemp Hex Hst.
  apply (fold_progress
    (fun (_ : list (nat * string)) (acc : Locals * DSWXGeogrid) w =>
       exist_all (gtiff_paths scratch data_path input_list) w
       /\ staged archives self scratch data_path input_list (fst acc)));
    [|done].
  intros pre [i q] post acc0 w0 Hx [Hex0 Hst0].
  assert (Hiq : input_list !! i = Some q).
  { apply elem_of_enumerate. rewrite Hx. apply elem_of_app. right. left. }
  assert (Hq : q ∈ input_list) by (by eapply list_elem_of_lookup_2).
  destruct (Hall q Hq) as [prod Hprod].
  unfold harmonize_input. simpl fst. simpl snd.
  rewrite (bind_Ok _ _ _ _ _ (extract_file_name_total q prod w0 Hprod)).
  rewrite (epsg_lookup input_list i q Hiq).
  destruct (negb (epsg_of archives q =? most)).
  - apply (fold_progress
      (fun (_ : list string) (acc : Locals * DSWXGeogrid) w =>
         exist_all (gtiff_paths scratch data_path input_list) w
         /\ staged archives self scratch data_path input_list (fst acc)));
      [|done].
    intros pre' dp post' acc1 w1 Hdp [Hex1 Hst1].
    assert (Hdp' : dp ∈ data_path).
    { rewrite Hdp. apply elem_of_app. right. left. }
    assert (Hne : data_path <> []) by (intros Hn; rewrite Hn in Hdp';
                                       by apply elem_of_nil in Hdp').
    destruct Hst1 as (Hg1 & Hc1 & Hm1 & Hbound).
    destruct (Hbound Hne) as (Hrow & (stale & Hout & Hstale) & Hnum).
    destruct (reproject_total
                (gtiff_path scratch (stem_prefix q) (data_name_of dp))
                (temp_gtiff_path scratch (stem_prefix q) (data_name_of dp))
                stale most (snd acc1) w1
                (gtiff_paths scratch data_path input_list))
      as (w2 & g' & w3 & Hwarp & Hupd & Hrep & Hex3 & _).
    { apply Hex1. apply elem_of_gtiff_paths. by exists q, dp. }
    { by apply Hex1. }
    { done. }
    { apply Htemp. unfold temp_paths. apply elem_of_app. left.
      apply list_elem_of_bind. exists q. split; [|done].
      apply list_elem_of_bind. exists dp. split; [|done].
      by apply list_elem_of_singleton. }
    cbv zeta. rewrite (bind_Ok _ _ _ _ _ Hwarp). rewrite Hout.
    rewrite (bind_Ok _ _ _ _ _ Hupd), (bind_Ok _ _ _ _ _ Hrep).
    eexists _, _. split; [reflexivity|]. simpl. split; [done|].
    unfold staged. do 3 (split; [done|]). done.
  - apply (fold_progress
      (fun (_ : list string) (acc : Locals * DSWXGeogrid) w =>
         exist_all (gtiff_paths scratch data_path input_list) w
         /\ staged archives self scratch data_path input_list (fst acc)));
      [|done].
    intros pre' dp post' acc1 w1 Hdp [Hex1 Hst1].
    assert (Hdp' : dp ∈ data_path).
    { rewrite Hdp. apply elem_of_app. right. left. }
    assert (Hin : gtiff_path scratch (stem_prefix q) (data_name_of dp)
                  ∈ gtiff_paths scratch data_path input_list).
    { apply elem_of_gtiff_paths. by exists q, dp. }
    destruct (update_geogrid_total (snd acc1) _ w1 (Hex1 _ Hin))
      as [g' Hupd].
    cbv zeta. rewrite (bind_Ok _ _ _ _ _ Hupd).
    eexists _, _. split; [reflexivity|]. simpl. split; [done|].
    by apply staged_bind_output_gtiff.
Qed.

(** *** Layover masks *)

Lemma fold_break_progress {S A B} (I : list A -> B -> S -> Prop)
    (J : B -> S -> Prop) (body : A -> B -> ST S (B * bool)) l acc s :
  (forall pre x post b s,
     l = pre ++ x :: post -> I pre b s ->
     exists r s', body x b s = (Ok r, s')
                  /\ if snd r then J (fst r) s'
                     else I (pre ++ [x]) (fst r) s') ->
  I [] acc s ->
  exists b' s', fold_break body l acc s = (Ok b', s')
                /\ (J b' s' \/ I l b' s').
Proof.
  intros Hbody Hinit.
  assert (Hgen : forall rest pre acc s,
    l = pre ++ rest -> I pre acc s ->
    exists b' s', fold_break body rest acc s = (Ok b', s')
                  /\ (J b' s' \/ I l b' s')).
  { induction rest as [|x rest IH]; intros pre acc0 s0 Hl Hpre; simpl.
    - rewrite app_nil_r in Hl. subst pre. exists acc0, s0. auto.
    - destruct (Hbody pre x rest acc0 s0 Hl Hpre)
        as ([b1 brk] & s1 & Hstep & H1).
      rewrite (bind_Ok _ _ _ _ _ Hstep). simpl in *.
      destruct brk.
      + exists b1, s1. auto.
      + apply (IH (pre ++ [x])); [|done]. by rewrite <- app_assoc. }
  by apply (Hgen l []).
Qed.

Lemma snd_enumerate {A} (l : list A) : snd <$> enumerate l = l.
Proof. unfold enumerate. apply snd_zip. by rewrite length_seq. Qed.

Lemma dataset_names_nonempty P :
  P <> [] -> generate_nisar_dataset_name (StrList P) <> [].
Proof. by destruct P. Qed.

(** The third loop on a staged batch whose masks fit. *)
Lemma layover_loop_total P input_list most dv loc g w :
  0 < self_row_blk_size self -> 0 < self_col_blk_size self ->
  (forall q, q ∈ input_list ->
     stageable archives self P q
     /\ mask_fits archives self P input_list q) ->
  (forall p,
     p ∈ temp_paths scratch (generate_nisar_dataset_name (StrList P))
                    input_list ->
     (p ∉ gtiff_paths scratch (generate_nisar_dataset_name (StrList P))
                      input_list)
     /\ (p ∉ layover_paths scratch input_list)) ->
  exist_all (gtiff_paths scratch (generate_nisar_dataset_name (StrList P))
                         input_list) w ->
  staged archives self scratch (generate_nisar_dataset_name (StrList P))
         input_list loc ->
  exists eg w',
    fold_break
      (layover_input archives self scratch (epsg_of archives <$> input_list)
                     most (frequencyA +:+ "layoverShadowMask") dv loc)
      (enumerate input_list) (None, g) w = (Ok eg, w')
    /\ exist_all (gtiff_paths scratch
                    (generate_nisar_dataset_name (StrList P)) input_list) w'
    /\ (input_list <> [] ->
        exists le, fst eg = Some le
                   /\ (le = true ->
                       exist_all (layover_paths scratch input_list) w')).
Proof.
  intros Hrb Hcb Hall Htemp Hex Hst.
  set (data_path := generate_nisar_dataset_name (StrList P)) in *.
  set (gtiffs := gtiff_paths scratch data_path input_list) in *.
  destruct (fold_break_progress
    (fun (pre : list (nat * string)) (acc : option bool * DSWXGeogrid) w =>
       exist_all gtiffs w
       /\ exist_all (layover_paths scratch (snd <$> pre)) w
       /\ (pre <> [] -> fst acc = Some true))
    (fun (acc : option bool * DSWXGeogrid) w =>
       exist_all gtiffs w /\ fst acc = Some false)
    (layover_input archives self scratch (epsg_of archives <$> input_list)
                   most (frequencyA +:+ "layoverShadowMask") dv loc)
    (enumerate input_list) (None, g) w) as (eg & w' & Hrun & Hfinal).
  - intros pre [i q] post acc0 w0 Hx (Hex0 & Hlay0 & _).
    assert (Hiq : input_list !! i = Some q).
    { apply elem_of_enumerate. rewrite Hx. apply elem_of_app. right. left. }
    assert (Hq : q ∈ input_list) by (by eapply list_elem_of_lookup_2).
    destruct (Hall q Hq) as [Hstage Hfits].
    destruct Hstage as (prod & Hprod & _).
    destruct (gdal_Open archives q (frequencyA +:+ "layoverShadowMask"))
      as [ds_l|] eqn:Hmask.
    2:{ rewrite (layover_input_missing archives self scratch _ most _ dv loc
                   i q acc0 w0 Hmask).
        eexists _, _. split; [reflexivity|]. simpl. done. }
    destruct (Hfits ds_l Hmask) as (HP & Hcols & Hrows).
    pose proof (dataset_names_nonempty P HP) as Hne.
    destruct Hst as ([g0 Hg0] & [c0 Hc0] & [meta0 Hm0] & Hbound).
    destruct (Hbound Hne)
      as (Hrow & _ & (q' & dp & ds & Hq' & Hdp & Hopen & Hnum)).
    assert (Hblk : self_row_blk_size self <= RasterYSize ds).
    { destruct (Hall q' Hq') as [(prod' & Hprod' & _ & _ & _ & _ & Hlayers) _].
      destruct (Hlayers dp Hdp) as (ds' & Hds' & Hb & _).
      unfold gdal_Open in Hopen. rewrite Hprod' in Hopen. simpl in Hopen.
      rewrite Hds' in Hopen. by injection Hopen as <-. }
    specialize (Hrows q' dp ds Hq' Hdp Hopen).
    destruct (read_write_rtc_total self ds_l (layover_gtiff_path scratch q)
                (RasterYSize ds) (RasterXSize ds_l)
                (self_row_blk_size self) (self_col_blk_size self)
                dv g0 c0 meta0 w0) as (dst & Hwrite & _); try lia.
    set (w1 := {| files := <[layover_gtiff_path scratch q := RTif dst]>
                             (files w0);
                  log := log w0 |}) in *.
    set (kept := gtiffs ++ layover_paths scratch (snd <$> pre)
                 ++ [layover_gtiff_path scratch q]).
    assert (Hkept1 : exist_all kept w1).
    { apply exist_all_app. split; [by apply exist_all_write|].
      apply exist_all_app. split; [by apply exist_all_write|].
      intros p Hp. apply list_elem_of_singleton in Hp as ->. simpl.
      rewrite lookup_insert_eq. by eexists. }
    assert (Hpre : forall q0, q0 ∈ snd <$> pre -> q0 ∈ input_list).
    { intros q0 Hq0. rewrite <- (snd_enumerate input_list), Hx.
      rewrite fmap_app. apply elem_of_app. by left. }
    unfold layover_input. cbn [fst snd]. rewrite Hmask.
    rewrite (bind_Ok _ _ _ _ _ (extract_file_name_total q prod w0 Hprod)).
    rewrite Hnum, Hrow, Hg0, Hc0, Hm0.
    fold (layover_gtiff_path scratch q).
    rewrite (bind_Ok _ _ _ _ _ Hwrite).
    rewrite (epsg_lookup input_list i q Hiq).
    assert (Hdone : forall w2,
      exist_all kept w2 ->
      exist_all gtiffs w2
      /\ exist_all (layover_paths scratch (snd <$> (pre ++ [(i, q)]))) w2
      /\ (pre ++ [(i, q)] <> [] -> Some true = Some true)).
    { intros w2 Hk. apply exist_all_app in Hk as [Hk1 Hk2].
      split; [done|]. split; [|done].
      unfold layover_paths in *. rewrite !fmap_app. simpl. exact Hk2. }
    destruct (negb (epsg_of archives q =? most)).
    + rewrite (bind_Ok _ _ _ _ _ (extract_file_name_total q prod w1 Hprod)).
      fold (layover_gtiff_path scratch q).
      fold (temp_layover_gtiff_path scratch q).
      destruct (reproject_total (layover_gtiff_path scratch q)
                  (temp_layover_gtiff_path scratch q)
                  (layover_gtiff_path scratch q) most (snd acc0) w1 kept)
        as (w2 & g' & w3 & Hwarp & Hupd & Hrep & Hex3 & _).
      { simpl. rewrite lookup_insert_eq. by eexists. }
      { simpl. rewrite lookup_insert_eq. by eexists. }
      { done. }
      { assert (Htl : temp_layover_gtiff_path scratch q
                      ∈ temp_paths scratch data_path input_list).
        { unfold temp_paths. apply elem_of_app. right.
          apply list_elem_of_fmap. by exists q. }
        destruct (Htemp _ Htl) as [Hng Hnl].
        intros Hin. apply elem_of_app in Hin as [Hin|Hin]; [done|].
        apply elem_of_app in Hin as [Hin|Hin].
        - apply Hnl. unfold layover_paths in *.
          apply list_elem_of_fmap in Hin as (q0 & Heq & Hq0).
          apply list_elem_of_fmap. exists q0. split; [done|]. by apply Hpre.
        - apply list_elem_of_singleton in Hin.
          by apply (layover_path_not_temp scratch q). }
      rewrite (bind_Ok _ _ _ _ _ Hwarp), (bind_Ok _ _ _ _ _ Hupd).
      rewrite (bind_Ok _ _ _ _ _ Hrep).
      eexists _, _. split; [reflexivity|]. simpl. by apply Hdone.
    + destruct (update_geogrid_total (snd acc0)
                  (layover_gtiff_path scratch q) w1) as [g' Hupd].
      { simpl. rewrite lookup_insert_eq. by eexists. }
      rewrite (bind_Ok _ _ _ _ _ Hupd).
      eexists _, _. split; [reflexivity|]. simpl. by apply Hdone.
  - split; [done|]. split; [|done]. intros p Hp. by apply elem_of_nil in Hp.
  - exists eg, w'. split; [done|].
    destruct Hfinal as [[Hex' Hfalse]|(Hex' & Hlay & Htrue)].
    + split; [done|]. intros _. exists false. split; [done|]. done.
    + split; [done|]. intros Hne. exists true. split.
      * apply Htrue. intros Hnil. apply Hne.
        rewrite <- (snd_enumerate input_list). by rewrite Hnil.
      * intros _. by rewrite snd_enumerate in Hlay.
Qed.

(** *** The whole run *)

Lemma stageable_archive P q :
  stageable archives self P q -> is_Some (archives !! q).
Proof. intros (prod & Hprod & _). by exists prod. Qed.

Lemma write_rtc_geotiff_total P input_list out w :
  well_formed_batch archives self scratch P input_list ->
  exists le g w',
    write_rtc_geotiff archives self input_list out scratch
      (epsg_of archives <$> input_list)
      (generate_nisar_dataset_name (StrList P))
      (frequencyA +:+ "layoverShadowMask") w = (Ok (le, g), w')
    /\ exist_all (gtiff_paths scratch
                    (generate_nisar_dataset_name (StrList P)) input_list) w'
    /\ (le = true -> exist_all (layover_paths scratch input_list) w').
Proof.
  intros (Hne & Hrb & Hcb & Hall & Htemp).
  assert (Harch : forall q, q ∈ input_list -> is_Some (archives !! q)).
  { intros q Hq. eapply stageable_archive. by apply Hall. }
  unfold write_rtc_geotiff.
  destruct (stage_loop_total P (np_float32 500) input_list w)
    as (loc & w1 & Hstage & Hex1 & Hst1); try done.
  { intros q Hq. by apply Hall. }
  rewrite (bind_Ok _ _ _ _ _ Hstage).
  destruct (harmonize_loop_total (generate_nisar_dataset_name (StrList P))
              input_list (majority_element (epsg_of archives <$> input_list))
              loc [] w1) as ([loc2 g2] & w2 & Hharm & Hex2 & Hst2);
    try done.
  { intros p Hp. by apply Htemp. }
  rewrite (bind_Ok _ _ _ _ _ Hharm). cbn [fst snd].
  destruct (layover_loop_total P input_list
              (majority_element (epsg_of archives <$> input_list))
              (np_float32 500) loc2 g2 w2)
    as ([le g3] & w3 & Hlay & Hex3 & Hflag); try done.
  rewrite (bind_Ok _ _ _ _ _ Hlay). cbn [fst snd] in *.
  destruct (Hflag Hne) as (b & -> & Hb).
  by exists b, g3, w3.
Qed.

(** On a well-formed batch the run returns: every loop of the staging
    phase and the mosaicking phase completes without raising. *)
Theorem process_rtc_hdf5_completes P input_list out mode prefix w :
  well_formed_batch archives self scratch P input_list ->
  exists w',
    process_rtc_hdf5 archives self input_list out scratch mode prefix w
    = (Ok tt, w').
Proof.
  intros Hwf.
  pose proof Hwf as (Hne & Hrb & Hcb & Hall & Htemp).
  assert (Harch : forall q, q ∈ input_list -> is_Some (archives !! q)).
  { intros q Hq. eapply stageable_archive. by apply Hall. }
  unfold process_rtc_hdf5.
  assert (Hpols : forall q, q ∈ input_list ->
            exists prod, archives !! q = Some prod
                         /\ np_sort (listOfPolarizations prod) = P).
  { intros q Hq. destruct (Hall q Hq) as [(prod & Hprod & Hpol & _) _].
    by exists prod. }
  rewrite (bind_Ok _ _ _ _ _
             (extract_nisar_polarization_total input_list P w Hne Hpols)).
  destruct (get_nisar_epsg_total input_list w Hne Harch) as [flag Hepsg].
  rewrite (bind_Ok _ _ _ _ _ Hepsg). cbn [fst snd].
  destruct (write_rtc_geotiff_total P input_list out w Hwf)
    as (le & g & w1 & Hwrite & Hex & Hlay).
  change (generate_nisar_layover_name "layoverShadowMask")
    with (frequencyA +:+ "layoverShadowMask").
  rewrite (bind_Ok _ _ _ _ _ Hwrite). cbn [fst snd].
  by apply mosaic_rtc_geotiff_total.
Qed.

End Completion.

(** The batch of ["/in/a.h5"] and ["/in/c.h5"] is well formed for the
    1 x 2 reader: both archives carry [HH] and a mask of the size of the
    channel, and their intermediate and temporary paths differ. *)
Example sample_batch_well_formed :
  well_formed_batch sample_archives reader_1x2 "/scratch" ["HH"%string]
                    ["/in/a.h5"%string; "/in/c.h5"%string].
Proof.
  assert (Hlayer : forall q' dp ds,
    q' ∈ ["/in/a.h5"%string; "/in/c.h5"%string] ->
    dp ∈ generate_nisar_dataset_name (StrList ["HH"%string]) ->
    gdal_Open sample_archives q' dp = Some ds ->
    RasterYSize ds = 2 /\ RasterXSize ds = 2).
  { intros q' dp ds Hq' Hdp Hopen.
    apply list_elem_of_singleton in Hdp as ->.
    apply elem_of_cons in Hq' as [->|Hq'];
      [|apply list_elem_of_singleton in Hq' as ->];
      vm_compute in Hopen; injection Hopen as <-; by vm_compute. }
  assert (Hmask : forall q' ds,
    q' ∈ ["/in/a.h5"%string; "/in/c.h5"%string] ->
    gdal_Open sample_archives q' (frequencyA +:+ "layoverShadowMask")
    = Some ds ->
    RasterYSize ds = 2 /\ RasterXSize ds = 2).
  { intros q' ds Hq' Hopen.
    apply elem_of_cons in Hq' as [->|Hq'];
      [|apply list_elem_of_singleton in Hq' as ->];
      vm_compute in Hopen; injection Hopen as <-; by vm_compute. }
  split; [done|]. split; [done|]. split; [done|]. split.
  - intros q Hq. split.
    + assert (Hprod : exists prod,
        sample_archives !! q = Some prod
        /\ np_sort (listOfPolarizations prod) = ["HH"%string]
        /\ xCoordinates prod <> [] /\ yCoordinates prod <> []
        /\ l1SlcGranules prod <> []
        /\ layers prod !! HHHH = gdal_Open sample_archives q HHHH
        /\ is_Some (layers prod !! HHHH)).
      { apply elem_of_cons in Hq as [->|Hq];
          [exists p_a|apply list_elem_of_singleton in Hq as ->; exists p_c];
          (split; [by vm_compute|]); do 4 (split; [done|]);
          (split; [by vm_compute|]); by eexists. }
      destruct Hprod as (prod & Hp & Hpol & Hx & Hy & Hg & Hopen & [ds Hds]).
      exists prod. do 5 (split; [done|]).
      intros dp Hdp. apply list_elem_of_singleton in Hdp as ->.
      exists ds. split; [exact Hds|].
      rewrite Hopen in Hds.
      destruct (Hlayer q _ ds Hq ltac:(by left) Hds) as [-> ->].
      by vm_compute.
    + intros ds_l Hopen. destruct (Hmask q ds_l Hq Hopen) as [Hr Hc].
      split; [done|]. split; [by rewrite Hc|].
      intros q' dp ds Hq' Hdp Hds.
      destruct (Hlayer q' dp ds Hq' Hdp Hds) as [-> _]. by rewrite Hr.
  - apply (proj1 (Forall_forall
      (fun p : string =>
         (p ∉ gtiff_paths "/scratch"
                (generate_nisar_dataset_name (StrList ["HH"%string]))
                ["/in/a.h5"%string; "/in/c.h5"%string])
         /\ (p ∉ layover_paths "/scratch"
                   ["/in/a.h5"%string; "/in/c.h5"%string])) _)).
    apply (bool_decide_unpack _). by vm_compute.
Qed.

(** The run on that batch returns, by the completion theorem. *)
Example sample_batch_completes :
  exists w', sample_run ["/in/a.h5"%string; "/in/c.h5"%string] = (Ok tt, w').
Proof.
  apply (process_rtc_hdf5_completes sample_archives reader_1x2 "/scratch"
           ["HH"%string]).
  exact sample_batch_well_formed.
Qed.

(* ===================================================================== *)
(** * Further properties of the code *)
(* ===================================================================== *)

(** ** The tiling engine: block counts, dropped remainders, block sizes
    that are not positive *)

Section Tiling.

Lemma elem_of_full_blocks block m s :
  s ∈ full_blocks block m ->
  exists k, 0 <= k < m /\ s = Slice (k * block) (k * block + block).
Proof.
  unfold full_blocks. intros Hs.
  apply list_elem_of_fmap in Hs as (k & -> & Hk).
  apply elem_of_seqZ in Hk. exists k. split; [lia|done].
Qed.

Lemma full_blocks_cover block m :
  0 < block -> 0 <= m -> covers_exactly (full_blocks block m) (m * block).
Proof.
  intros Hb Hm i. split.
  - intros (s & Hs & Hi). apply elem_of_full_blocks in Hs as (k & Hk & ->).
    unfold in_slice in Hi. simpl in Hi. nia.
  - intros Hi.
    pose proof (Z.div_mod i block ltac:(lia)).
    pose proof (Z.mod_pos_bound i block Hb).
    assert (0 <= i / block) by (apply Z.div_pos; lia).
    assert (i / block < m) by (apply Z.div_lt_upper_bound; lia).
    exists (Slice (i / block * block) (i / block * block + block)).
    split; [|unfold in_slice; simpl; lia].
    unfold full_blocks. apply list_elem_of_fmap. exists (i / block).
    split; [done|]. apply elem_of_seqZ. lia.
Qed.

Lemma slice_gen_no_combine total block :
  0 < block -> 0 <= total ->
  slice_gen total block false = Ok (full_blocks block (total / block)).
Proof.
  intros Hb Ht. unfold slice_gen.
  destruct (Z.eqb_spec block 0); [lia|]. simpl.
  rewrite py_range_blocks; [done|lia|]. apply Z.div_pos; lia.
Qed.

(** The first slice of a non-empty extent starts at the origin when a block
    fits, and one block before it when none does. *)
Lemma slice_gen_head total block :
  0 < block -> 0 < total ->
  exists s rest,
    slice_gen total block true = Ok (s :: rest)
    /\ start s = (if block <=? total then 0 else - block)
    /\ start s < stop s.
Proof.
  intros Hb Ht. destruct (Z.leb_spec block total) as [Hfit|Hshort].
  - destruct (slice_gen_shape total block Hb Hfit) as (Hm & [Hlo Hhi] & ->).
    set (m := total / block - 1) in *.
    destruct (full_blocks block m) as [|s l] eqn:E; simpl.
    + pose proof (length_full_blocks block m Hm) as Hlen.
      rewrite E in Hlen. simpl in Hlen.
      eexists _, _. split; [reflexivity|]. simpl. lia.
    + assert (Hs : full_blocks block m !! 0%nat = Some s) by by rewrite E.
      apply lookup_full_blocks in Hs as [-> _].
      eexists _, _. split; [reflexivity|]. simpl. lia.
  - rewrite slice_gen_short by lia.
    exists (Slice (- block) total), []. simpl. split; [done|]. lia.
Qed.

End Tiling.

(** When at least one block fits, [slice_gen] with [combine_rem=True]
    yields [total // block] slices that tile the extent; every slice is at
    least one block and less than two blocks long, and only a slice that
    ends at [total] is longer than a block. *)
Theorem slice_gen_blocks_when_block_fits (total block : Z) :
  0 < block <= total ->
  exists l,
    slice_gen total block true = Ok l
    /\ tiles l total block
    /\ Z.of_nat (length l) = total / block
    /\ forall s, s ∈ l ->
         block <= stop s - start s < 2 * block
         /\ (stop s - start s = block \/ stop s = total).
Proof.
  intros [Hb Ht].
  destruct (slice_gen_shape total block Hb Ht) as (Hm & [Hlo Hhi] & Heq).
  set (m := total / block - 1) in *.
  exists (full_blocks block m ++ [Slice (m * block) total]).
  split; [exact Heq|]. split; [by apply shape_tiles|]. split.
  - rewrite length_app, Nat2Z.inj_add, length_full_blocks by done.
    simpl. unfold m. lia.
  - intros s Hs. apply elem_of_app in Hs as [Hs|Hs].
    + apply elem_of_full_blocks in Hs as (k & _ & ->). simpl. lia.
    + apply list_elem_of_singleton in Hs as ->. simpl. lia.
Qed.

Lemma slice_gen_blocks_when_block_fits_witness :
  0 < 3 <= 10 /\
  exists l,
    slice_gen 10 3 true = Ok l
    /\ tiles l 10 3
    /\ Z.of_nat (length l) = 10 / 3
    /\ forall s, s ∈ l ->
         3 <= stop s - start s < 2 * 3
         /\ (stop s - start s = 3 \/ stop s = 10).
Proof.
  split; [lia|]. apply (slice_gen_blocks_when_block_fits 10 3). lia.
Defined.

(** With [combine_rem=False] the generator yields [total // block] slices
    of exactly one block each; they cover the indices below
    [total - total % block] and no other, so the remainder is dropped. *)
Theorem slice_gen_drops_remainder (total block : Z) :
  0 < block -> 0 <= total ->
  exists l,
    slice_gen total block false = Ok l
    /\ Z.of_nat (length l) = total / block
    /\ (forall s, s ∈ l -> stop s - start s = block)
    /\ covers_exactly l (total - total mod block).
Proof.
  intros Hb Ht.
  assert (Hq : 0 <= total / block) by (apply Z.div_pos; lia).
  exists (full_blocks block (total / block)).
  split; [by apply slice_gen_no_combine|].
  split; [by apply length_full_blocks|]. split.
  - intros s Hs. apply elem_of_full_blocks in Hs as (k & _ & ->). simpl. lia.
  - replace (total - total mod block) with (total / block * block).
    + by apply full_blocks_cover.
    + pose proof (Z.div_mod total block ltac:(lia)). lia.
Qed.

Lemma slice_gen_drops_remainder_witness :
  0 < 3 /\ 0 <= 10 /\
  exists l,
    slice_gen 10 3 false = Ok l
    /\ Z.of_nat (length l) = 10 / 3
    /\ (forall s, s ∈ l -> stop s - start s = 3)
    /\ covers_exactly l (10 - 10 mod 3).
Proof.
  split; [lia|]. split; [lia|].
  apply (slice_gen_drops_remainder 10 3); lia.
Defined.

(** A block size that is not positive: zero raises [ZeroDivisionError] at
    the floor division, and a negative one yields no slice at all, whatever
    [combine_rem] is, since the remainder of the floor division is never
    positive and the range runs downwards from 0. *)
Theorem slice_gen_block_not_positive
    (total block : Z) (combine_rem : bool) :
  block <= 0 -> 0 <= total ->
  slice_gen total block combine_rem
  = if block =? 0 then Raise ZeroDivisionError else Ok [].
Proof.
  intros Hb Ht. unfold slice_gen.
  destruct (Z.eqb_spec block 0) as [|Hnz]; [done|].
  pose proof (Z.div_mod total block Hnz) as Hdm.
  pose proof (Z.mod_neg_bound total block ltac:(lia)) as Hmod.
  cbv zeta.
  destruct (Z.ltb_spec 0 (total - total / block * block)) as [Hrem|Hrem];
    [lia|].
  rewrite andb_false_r. unfold py_range, range_len.
  destruct (Z.ltb_spec 0 block); [lia|].
  destruct (Z.ltb_spec block 0); [|lia].
  destruct (Z.ltb_spec (total / block * block) 0); [lia|]. reflexivity.
Qed.

Lemma slice_gen_block_not_positive_witness :
  slice_gen 10 (-3) true = Ok [] /\ slice_gen 10 0 false
  = Raise ZeroDivisionError.
Proof.
  split.
  - apply (slice_gen_block_not_positive 10 (-3) true); lia.
  - apply (slice_gen_block_not_positive 10 0 false); lia.
Defined.

(** ** The tiled raster writer: what it leaves on disk *)

Section WriterEdge.

Lemma ReadAsArray_negative ds xoff yoff xsize ysize :
  xoff < 0 \/ yoff < 0 -> ReadAsArray ds xoff yoff xsize ysize = None.
Proof.
  intros Hneg. unfold ReadAsArray.
  destruct (Z.leb_spec 0 xoff), (Z.leb_spec 0 yoff); simpl; try done; lia.
Qed.

(** With an extent shorter than its block size, the first block read lies
    outside the dataset. *)
Lemma write_blocks_short ds nr nc rb cb dv dst :
  0 < rb -> 0 < cb -> 0 < nr -> 0 < nc -> nr < rb \/ nc < cb ->
  write_blocks ds nr nc rb cb dv dst = (Raise TypeError, dst).
Proof.
  intros Hrb Hcb Hnr Hnc Hshort.
  destruct (slice_gen_head nr rb Hrb Hnr) as (sr & rows & Hrows & Hsr & _).
  destruct (slice_gen_head nc cb Hcb Hnc) as (sc & cols & Hcols & Hsc & _).
  unfold write_blocks, lift_res, bind. rewrite Hrows. unfold for_. simpl.
  unfold bind. rewrite Hcols. simpl. unfold bind, write_block.
  rewrite ReadAsArray_negative; [done|].
  rewrite Hsr, Hsc.
  destruct (Z.leb_spec rb nr), (Z.leb_spec cb nc); lia.
Qed.

Lemma sanitize_bounded x :
  np_isinf (sanitize (np_float32 500) x) = false
  /\ np_gt (sanitize (np_float32 500) x) (np_float32 500) = false
  /\ np_eq (sanitize (np_float32 500) x) (S754_zero false) = false.
Proof.
  unfold sanitize.
  destruct (np_isinf x) eqn:Hinf.
  - by vm_compute.
  - destruct (np_gt x (np_float32 500)) eqn:Hgt.
    + by vm_compute.
    + destruct (np_eq x (S754_zero false)) eqn:Heq; [by vm_compute|done].
Qed.

End WriterEdge.

(** On a source that holds at least one block of rows and one of columns,
    [read_write_rtc] returns; it leaves at the output path a raster with
    the size, CRS, geotransform and metadata given, in which every sample
    of the [num_rows] x [num_cols] window is the sanitized source sample
    and no other sample is present; it touches no other file and not the
    log. *)
Theorem read_write_rtc_writes_whole_raster
    self ds out nr nc rb cb dv g c meta w :
  0 < self_row_blk_size self <= nr -> 0 < self_col_blk_size self <= nc ->
  nr <= RasterYSize ds -> nc <= RasterXSize ds ->
  exists band,
    read_write_rtc self ds out nr nc rb cb dv g c meta w
    = (Ok tt,
       {| files :=
            <[out := RTif {| gt_height := nr; gt_width := nc; gt_crs := c;
                             gt_transform := g; gt_band := band;
                             gt_tags := meta |}]> (files w);
          log := log w |})
    /\ (forall r col, 0 <= r < nr -> 0 <= col < nc ->
          band !! (r, col) = Some (sanitize dv (band_value ds r col)))
    /\ (forall r col, ~ (0 <= r < nr /\ 0 <= col < nc) ->
          band !! (r, col) = None).
Proof.
  intros Hrb Hcb Hnr Hnc.
  destruct (read_write_rtc_total self ds out nr nc rb cb dv g c meta w
              Hrb Hcb Hnr Hnc)
    as (dst & Hrun & Hh & Hw & Hc & Hg & Ht & Hband).
  exists (gt_band dst). split.
  - rewrite Hrun. destruct dst. simpl in *. by subst.
  - split.
    + intros r col Hr Hcol. rewrite Hband. by rewrite decide_True.
    + intros r col Hout. rewrite Hband. by rewrite decide_False.
Qed.

Lemma read_write_rtc_writes_whole_raster_witness :
  exists band,
    read_write_rtc reader_1x2 hh_2x2 "/scratch/a_HH.tif" 2 2 7 7
      (np_float32 500) identity_transform "EPSG:32610" [] empty_world
    = (Ok tt,
       {| files :=
            <["/scratch/a_HH.tif"%string :=
                RTif {| gt_height := 2; gt_width := 2;
                        gt_crs := "EPSG:32610";
                        gt_transform := identity_transform;
                        gt_band := band; gt_tags := [] |}]>
              (files empty_world);
          log := log empty_world |})
    /\ (forall r col, 0 <= r < 2 -> 0 <= col < 2 ->
          band !! (r, col)
          = Some (sanitize (np_float32 500) (band_value hh_2x2 r col)))
    /\ (forall r col, ~ (0 <= r < 2 /\ 0 <= col < 2) ->
          band !! (r, col) = None).
Proof.
  apply (read_write_rtc_writes_whole_raster reader_1x2 hh_2x2);
    simpl; lia.
Defined.

(** The raster written does not depend on the block sizes of the reader,
    as long as one block of each fits the extent: the block sizes decide
    how the samples are read, not what is written. *)
Theorem read_write_rtc_same_for_fitting_block_sizes
    self1 self2 ds out nr nc rb cb dv g c meta w :
  0 < self_row_blk_size self1 <= nr -> 0 < self_col_blk_size self1 <= nc ->
  0 < self_row_blk_size self2 <= nr -> 0 < self_col_blk_size self2 <= nc ->
  nr <= RasterYSize ds -> nc <= RasterXSize ds ->
  read_write_rtc self1 ds out nr nc rb cb dv g c meta w
  = read_write_rtc self2 ds out nr nc rb cb dv g c meta w.
Proof.
  intros Hr1 Hc1 Hr2 Hc2 Hnr Hnc.
  destruct (read_write_rtc_total self1 ds out nr nc rb cb dv g c meta w
              Hr1 Hc1 Hnr Hnc)
    as (d1 & -> & Hh1 & Hw1 & Hcrs1 & Hg1 & Ht1 & Hb1).
  destruct (read_write_rtc_total self2 ds out nr nc rb cb dv g c meta w
              Hr2 Hc2 Hnr Hnc)
    as (d2 & -> & Hh2 & Hw2 & Hcrs2 & Hg2 & Ht2 & Hb2).
  assert (Hband : gt_band d1 = gt_band d2).
  { apply map_eq. intros [r col]. by rewrite Hb1, Hb2. }
  destruct d1, d2. simpl in *. by subst.
Qed.

Lemma read_write_rtc_same_for_fitting_block_sizes_witness :
  read_write_rtc (reader 1 2) hh_2x2 "/scratch/a_HH.tif" 2 2 1 2
    (np_float32 500) identity_transform "EPSG:32610" [] empty_world
  = read_write_rtc (reader 2 1) hh_2x2 "/scratch/a_HH.tif" 2 2 1 2
      (np_float32 500) identity_transform "EPSG:32610" [] empty_world.
Proof.
  apply (read_write_rtc_same_for_fitting_block_sizes (reader 1 2)
           (reader 2 1) hh_2x2); simpl; lia.
Defined.

(** A raster with fewer rows than the row block size, or fewer columns than
    the column block size, cannot be written: the first window asked of
    GDAL starts before the origin, no array comes back and the call raises
    [TypeError], leaving at the output path a raster with the header but no
    sample and no tag. *)
Theorem read_write_rtc_short_raster_raises
    self ds out nr nc rb cb dv g c meta w :
  0 < self_row_blk_size self -> 0 < self_col_blk_size self ->
  0 < nr -> 0 < nc ->
  nr < self_row_blk_size self \/ nc < self_col_blk_size self ->
  read_write_rtc self ds out nr nc rb cb dv g c meta w
  = (Raise TypeError,
     {| files :=
          <[out := RTif {| gt_height := nr; gt_width := nc; gt_crs := c;
                           gt_transform := g; gt_band := ∅;
                           gt_tags := [] |}]> (files w);
        log := log w |}).
Proof.
  intros Hrb Hcb Hnr Hnc Hshort. unfold read_write_rtc.
  rewrite (bind_Raise _ _ _ _ _
             (write_blocks_short ds nr nc _ _ dv _ Hrb Hcb Hnr Hnc Hshort)).
  reflexivity.
Qed.

Lemma read_write_rtc_short_raster_raises_witness :
  read_write_rtc (reader 3 2) hh_2x2 "/scratch/a_HH.tif" 2 2 3 2
    (np_float32 500) identity_transform "EPSG:32610" [] empty_world
  = (Raise TypeError,
     {| files :=
          <["/scratch/a_HH.tif"%string :=
              RTif {| gt_height := 2; gt_width := 2; gt_crs := "EPSG:32610";
                      gt_transform := identity_transform; gt_band := ∅;
                      gt_tags := [] |}]> (files empty_world);
        log := log empty_world |}).
Proof.
  apply (read_write_rtc_short_raster_raises (reader 3 2) hh_2x2);
    simpl; lia.
Defined.

(** On a raster of positive size, no sample [read_write_rtc] writes with
    the designated value 500 is infinite, above 500 or equal to zero,
    whether the call returns or raises; sanitizing a written sample again
    leaves it as it is. *)
Theorem written_samples_are_bounded self ds out nr nc rb cb g c meta w :
  0 < nr -> 0 < nc ->
  exists dst,
    files (snd (read_write_rtc self ds out nr nc rb cb (np_float32 500)
                  g c meta w)) !! out
    = Some (RTif dst)
    /\ forall r col y,
         gt_band dst !! (r, col) = Some y ->
         np_isinf y = false /\ np_gt y (np_float32 500) = false
         /\ np_eq y (S754_zero false) = false
         /\ sanitize (np_float32 500) y = y.
Proof.
  intros _ _.
  destruct (read_write_rtc_file self ds out nr nc rb cb (np_float32 500)
              g c meta w) as (dst & Hfile & Hsan).
  exists dst. split; [exact Hfile|].
  intros r col y Hy. rewrite (Hsan r col y Hy).
  destruct (sanitize_bounded (band_value ds r col)) as (Hinf & Hgt & Heq).
  do 3 (split; [done|]).
  unfold sanitize at 1. by rewrite Hinf, Hgt, Heq.
Qed.

Lemma written_samples_are_bounded_witness :
  exists dst,
    files (snd (read_write_rtc reader_1x2 hh_2x2 "/scratch/a_HH.tif" 2 2 1 2
                  (np_float32 500) identity_transform "EPSG:32610" []
                  empty_world)) !! "/scratch/a_HH.tif"
    = Some (RTif dst)
    /\ forall r col y,
         gt_band dst !! (r, col) = Some y ->
         np_isinf y = false /\ np_gt y (np_float32 500) = false
         /\ np_eq y (S754_zero false) = false
         /\ sanitize (np_float32 500) y = y.
Proof.
  apply (written_samples_are_bounded reader_1x2 hh_2x2 "/scratch/a_HH.tif"
           2 2 1 2 identity_transform "EPSG:32610" [] empty_world); lia.
Defined.

(** ** Names: the file-name identifier and the channel tag *)

Section Names.

Lemma str_split_nonempty c s : str_split c s <> [].
Proof.
  destruct s as [|a s]; simpl; [done|].
  destruct (Ascii.eqb a c); [done|]. by destruct (str_split c s).
Qed.

Lemma str_split_no_sep c s : str_mem c s = false -> str_split c s = [s].
Proof.
  induction s as [|a s IH]; simpl; [done|].
  intros Hm. apply orb_false_iff in Hm as [Ha Hs].
  rewrite Ha, (IH Hs). done.
Qed.

(** The first field of a split holds no separator and starts the string. *)
Lemma str_split_hd c s :
  str_mem c (hd EmptyString (str_split c s)) = false
  /\ String.prefix (hd EmptyString (str_split c s)) s = true.
Proof.
  induction s as [|a s [IH1 IH2]]; simpl; [done|].
  destruct (Ascii.eqb a c) eqn:Ha; simpl; [done|].
  pose proof (str_split_nonempty c s) as Hne.
  destruct (str_split c s) as [|p ps]; [done|]. simpl in *.
  rewrite Ha, IH1. split; [done|].
  by destruct (ascii_dec a a).
Qed.

(** The string is its first field, or its first field, the separator and
    the rest. *)
Lemma str_split_hd_rest c s :
  s = hd EmptyString (str_split c s)
  \/ exists rest, s = hd EmptyString (str_split c s) +:+ String c rest.
Proof.
  induction s as [|a s IH]; simpl; [by left|].
  destruct (Ascii.eqb a c) eqn:Ha; simpl.
  - apply Ascii.eqb_eq in Ha as ->. right. by exists s.
  - pose proof (str_split_nonempty c s) as Hne.
    destruct (str_split c s) as [|p ps]; [done|]. simpl in *.
    destruct IH as [->|[rest ->]]; [by left|].
    right. by exists rest.
Qed.

Lemma str_split_app c s1 s2 :
  str_split c (s1 +:+ String c s2) = str_split c s1 ++ str_split c s2.
Proof.
  induction s1 as [|a s1 IH]; simpl.
  - by rewrite Ascii.eqb_refl.
  - rewrite IH. destruct (Ascii.eqb a c); [done|].
    pose proof (str_split_nonempty c s1).
    by destruct (str_split c s1).
Qed.

(** The name of a dataset path under the [frequencyA] group. *)
Lemma Path_name_dataset t :
  str_mem "/" t = false -> t <> EmptyString -> t <> "."%string ->
  Path_name (frequencyA +:+ t) = t.
Proof.
  intros Hm Hne Hdot. unfold Path_name.
  change (frequencyA +:+ t)
    with ("/science/LSAR/GCOV/grids/frequencyA" +:+ String "/" t).
  rewrite str_split_app, (str_split_no_sep _ _ Hm), filter_app.
  rewrite (filter_cons_True _ t []) by done.
  rewrite filter_nil. by rewrite last_snoc.
Qed.

Lemma data_name_of_dataset p :
  String.length p = 2%nat -> str_mem "/" p = false ->
  data_name_of (frequencyA +:+ p +:+ p) = p.
Proof.
  intros Hlen Hm.
  destruct p as [|a [|b [|? ?]]]; try discriminate.
  simpl in Hm. apply orb_false_iff in Hm as [Ha Hb].
  rewrite orb_false_r in Hb.
  unfold data_name_of. rewrite Path_name_dataset; try done.
  simpl. by rewrite Ha, Hb.
Qed.

End Names.

(** The channel tag used in the file names, [Path(dataset_path).name[:2]],
    gives back the polarization the dataset path was generated from, for
    polarizations of two characters without a slash: the tags of the paths
    of [generate_nisar_dataset_name] are the polarizations, in order. *)
Theorem data_name_recovers_polarization (pols : list string) :
  Forall (fun p => String.length p = 2%nat /\ str_mem "/" p = false) pols ->
  data_name_of <$> generate_nisar_dataset_name (StrList pols) = pols.
Proof.
  intros Hall. unfold generate_nisar_dataset_name.
  rewrite <- list_fmap_compose.
  induction Hall as [|p l [Hlen Hm] _ IH]; [done|].
  rewrite fmap_cons, IH. f_equal. simpl. by apply data_name_of_dataset.
Qed.

Lemma data_name_recovers_polarization_witness :
  Forall (fun p => String.length p = 2%nat /\ str_mem "/" p = false)
         ["HH"; "HV"]%string
  /\ data_name_of <$> generate_nisar_dataset_name (StrList ["HH"; "HV"]%string)
     = ["HH"; "HV"]%string.
Proof.
  assert (H : Forall (fun p => String.length p = 2%nat
                               /\ str_mem "/" p = false)
                     ["HH"; "HV"]%string).
  { repeat constructor. }
  split; [exact H|].
  exact (data_name_recovers_polarization ["HH"; "HV"]%string H).
Defined.

(** [extract_file_name] raises [FileNotFoundError] on a path that does not
    exist and otherwise returns, without any effect, the part of the file
    stem before its first hyphen: the identifier holds no hyphen, and the
    stem is either the identifier itself or the identifier followed by a
    hyphen and the rest of the stem. *)
Theorem extract_file_name_identifier archives (input_rtc : string) w :
  match archives !! input_rtc with
  | None =>
      extract_file_name archives input_rtc w = (Raise FileNotFoundError, w)
  | Some _ =>
      exists file_name,
        extract_file_name archives input_rtc w = (Ok file_name, w)
        /\ str_mem "-" file_name = false
        /\ (Path_stem input_rtc = file_name
            \/ exists rest,
                 Path_stem input_rtc = file_name +:+ String "-" rest)
  end.
Proof.
  unfold extract_file_name.
  destruct (archives !! input_rtc) as [prod|]; [|done].
  exists (stem_prefix input_rtc). split; [done|]. unfold stem_prefix.
  destruct (str_split_hd "-" (Path_stem input_rtc)) as [Hm _].
  split; [done|]. apply str_split_hd_rest.
Qed.

(** ** Discovery: the EPSG flag, an empty input list, products without
    polarizations *)

(** On inputs that all exist, [get_nisar_epsg] returns the EPSG code of
    each input in order, and a flag that is [True] exactly when all the
    codes are the same; the state is left as it is. *)
Theorem get_nisar_epsg_same_flag archives (input_list : list string) w :
  input_list <> [] ->
  (forall q, q ∈ input_list -> is_Some (archives !! q)) ->
  exists flag,
    get_nisar_epsg archives input_list w
    = (Ok (epsg_of archives <$> input_list, flag), w)
    /\ (flag = true <->
        forall q q', q ∈ input_list -> q' ∈ input_list ->
                     epsg_of archives q = epsg_of archives q').
Proof.
  intros Hne Hall.
  destruct (get_nisar_epsg_total archives input_list w Hne Hall)
    as [flag Hrun].
  exists flag. split; [exact Hrun|].
  unfold get_nisar_epsg in Hrun.
  apply bind_Ok_inv in Hrun as (arr & w1 & _ & Hflag).
  destruct arr as [|e0 arr]; [discriminate|].
  injection Hflag as Harr <- _.
  destruct input_list as [|q0 l]; [done|].
  rewrite fmap_cons in Harr. injection Harr as -> ->.
  split.
  - intros Hall_eq q q' Hq Hq'.
    apply andb_prop in Hall_eq as [_ Hrest].
    rewrite forallb_forall in Hrest.
    assert (Hfirst : forall p, p ∈ q0 :: l ->
                               epsg_of archives p = epsg_of archives q0).
    { intros p Hp. apply elem_of_cons in Hp as [->|Hp]; [done|].
      apply Z.eqb_eq, Hrest, list_elem_of_In, list_elem_of_fmap.
      by exists p. }
    by rewrite (Hfirst q Hq), (Hfirst q' Hq').
  - intros Hsame. simpl. rewrite Z.eqb_refl. simpl. apply forallb_forall.
    intros e He.
    apply list_elem_of_In, list_elem_of_fmap in He as (p & -> & Hp).
    apply Z.eqb_eq. apply Hsame; [by right|left].
Qed.

Lemma get_nisar_epsg_same_flag_witness :
  exists flag,
    get_nisar_epsg sample_archives ["/in/a.h5"; "/in/c.h5"]%string empty_world
    = (Ok (epsg_of sample_archives <$> ["/in/a.h5"; "/in/c.h5"]%string, flag),
       empty_world)
    /\ (flag = true <->
        forall q q',
          q ∈ ["/in/a.h5"; "/in/c.h5"]%string ->
          q' ∈ ["/in/a.h5"; "/in/c.h5"]%string ->
          epsg_of sample_archives q = epsg_of sample_archives q').
Proof.
  apply (get_nisar_epsg_same_flag sample_archives
           ["/in/a.h5"; "/in/c.h5"]%string empty_world); [done|].
  intros q Hq. apply elem_of_cons in Hq as [->|Hq];
    [exists p_a|apply list_elem_of_singleton in Hq as ->; exists p_c];
    by vm_compute.
Defined.

(** An empty input list is not reported by the polarization check, which
    returns an empty list; the run then fails with [IndexError] at
    [epsg_array[0]], before anything is written. *)
Theorem empty_input_list_raises_index_error
    `{Collaborators} archives self out scratch mode prefix w :
  extract_nisar_polarization archives [] w = (Ok [], w)
  /\ get_nisar_epsg archives [] w = (Raise IndexError, w)
  /\ process_rtc_hdf5 archives self [] out scratch mode prefix w
     = (Raise IndexError, w).
Proof. repeat split. Qed.

Section NoChannel.

Context `{Collaborators}.
Variable archives : Archives.
Variable self : RTCReader.
Variable scratch : string.

Lemma stage_loop_no_channel dv (input_list : list string) loc w :
  (forall q, q ∈ input_list -> stageable archives self [] q) ->
  num_rows loc = None ->
  exists loc',
    fold_ (stage_input archives self scratch [] dv) input_list loc w
    = (Ok loc', w)
    /\ num_rows loc' = None.
Proof.
  revert loc. induction input_list as [|q l IH]; intros loc Hall Hnone; simpl.
  - by exists loc.
  - destruct (Hall q) as (prod & Hq & _ & Hx & Hy & Hgran & _); [left|].
    destruct (read_geodata_hdf5_total archives q prod w Hq Hx Hy)
      as ([g c] & Hgeo).
    destruct (read_metadata_hdf5_total archives q prod w Hq Hgran)
      as (meta & Hmeta).
    assert (Hstage : stage_input archives self scratch [] dv q loc w
                     = (Ok (bind_geodata loc g c meta), w)).
    { unfold stage_input.
      rewrite (bind_Ok _ _ _ _ _ (extract_file_name_total archives q prod w Hq)).
      rewrite (bind_Ok _ _ _ _ _ Hgeo), (bind_Ok _ _ _ _ _ Hmeta).
      reflexivity. }
    rewrite (bind_Ok _ _ _ _ _ Hstage).
    apply IH; [|done]. intros q' Hq'. apply Hall. by right.
Qed.

Lemma harmonize_loop_no_channel (input_list : list string) most acc w :
  (forall q, q ∈ input_list -> is_Some (archives !! q)) ->
  fold_ (harmonize_input archives scratch (epsg_of archives <$> input_list)
                         most [])
        (enumerate input_list) acc w
  = (Ok acc, w).
Proof.
  intros Hall.
  destruct (fold_progress
    (fun (_ : list (nat * string)) (b : Locals * DSWXGeogrid) (s : World) =>
       b = acc /\ s = w)
    (harmonize_input archives scratch (epsg_of archives <$> input_list)
                     most [])
    (enumerate input_list) acc w) as (b & s & Hrun & -> & ->); [|done|done].
  intros pre [i q] post b s Hx [-> ->].
  assert (Hiq : input_list !! i = Some q).
  { apply elem_of_enumerate. rewrite Hx. apply elem_of_app. right. left. }
  destruct (Hall q) as [prod Hq]; [by eapply list_elem_of_lookup_2|].
  exists acc, w. split; [|done].
  unfold harmonize_input. cbn [fst snd].
  rewrite (bind_Ok _ _ _ _ _ (extract_file_name_total archives q prod w Hq)).
  rewrite (epsg_lookup archives input_list i q Hiq).
  by destruct (negb _).
Qed.

End NoChannel.

(** A batch whose products all list no polarization has no channel, so the
    first loop never binds [num_rows] and [row_blk_size].  When the first
    input exposes the layover mask, the third loop reads them and the run
    raises [UnboundLocalError], nothing written; when it does not, the run
    returns with one warning and no file, mosaic or otherwise. *)
Theorem batch_without_polarizations
    `{Collaborators} archives self (q0 : string) (rest : list string)
    out scratch mode prefix w :
  (forall q, q ∈ q0 :: rest -> stageable archives self [] q) ->
  process_rtc_hdf5 archives self (q0 :: rest) out scratch mode prefix w
  = if exposes_layover archives q0
    then (Raise UnboundLocalError, w)
    else (Ok tt,
          {| files := files w;
             log := log w ++ [EvWarn ("HDF5:" +:+ q0 +:+ ":/" +:+ frequencyA
                                        +:+ "layoverShadowMask")] |}).
Proof.
  intros Hall.
  assert (Harch : forall q, q ∈ q0 :: rest -> is_Some (archives !! q)).
  { intros q Hq. destruct (Hall q Hq) as (prod & Hprod & _). by exists prod. }
  assert (Hpols : forall q, q ∈ q0 :: rest ->
            exists prod, archives !! q = Some prod
                         /\ np_sort (listOfPolarizations prod) = []).
  { intros q Hq. destruct (Hall q Hq) as (prod & Hprod & Hpol & _).
    by exists prod. }
  unfold process_rtc_hdf5.
  rewrite (bind_Ok _ _ _ _ _
             (extract_nisar_polarization_total archives (q0 :: rest) [] w
                ltac:(done) Hpols)).
  destruct (get_nisar_epsg_total archives (q0 :: rest) w ltac:(done) Harch)
    as [flag Hepsg].
  rewrite (bind_Ok _ _ _ _ _ Hepsg). cbn [fst snd].
  change (generate_nisar_dataset_name (StrList [])) with (@nil string).
  change (generate_nisar_layover_name "layoverShadowMask")
    with (frequencyA +:+ "layoverShadowMask").
  destruct (stage_loop_no_channel archives self scratch (np_float32 500)
              (q0 :: rest) no_locals w Hall eq_refl) as (loc & Hstage & Hrows).
  assert (Hwrite :
    write_rtc_geotiff archives self (q0 :: rest) out scratch
      (epsg_of archives <$> q0 :: rest) [] (frequencyA +:+ "layoverShadowMask")
      w
    = if exposes_layover archives q0
      then (Raise UnboundLocalError, w)
      else (Ok (false, []),
            {| files := files w;
               log := log w ++ [EvWarn ("HDF5:" +:+ q0 +:+ ":/" +:+ frequencyA
                                          +:+ "layoverShadowMask")] |})).
  { unfold write_rtc_geotiff. cbv zeta.
    rewrite (bind_Ok _ _ _ _ _ Hstage).
    rewrite (bind_Ok _ _ _ _ _
               (harmonize_loop_no_channel archives scratch (q0 :: rest)
                  _ (loc, []) w Harch)).
    cbn [fst snd].
    change (enumerate (q0 :: rest))
      with ((0%nat, q0) :: zip (seq 1 (length rest)) rest).
    cbn [fold_break]. unfold exposes_layover.
    destruct (gdal_Open archives q0 (frequencyA +:+ "layoverShadowMask"))
      as [ds|] eqn:Hmask.
    - destruct (Harch q0) as [prod Hq0]; [left|].
      assert (Hturn : forall acc,
        layover_input archives self scratch (epsg_of archives <$> q0 :: rest)
          (majority_element (epsg_of archives <$> q0 :: rest))
          (frequencyA +:+ "layoverShadowMask") (np_float32 500) loc
          (0%nat, q0) acc w
        = (Raise UnboundLocalError, w)).
      { intros acc. unfold layover_input. cbn [fst snd]. rewrite Hmask.
        rewrite (bind_Ok _ _ _ _ _
                   (extract_file_name_total archives q0 prod w Hq0)).
        by rewrite Hrows. }
      by rewrite (bind_Raise _ _ _ _ _ (bind_Raise _ _ _ _ _ (Hturn _))).
    - rewrite (bind_Ok _ _ _ _ _
                 (bind_Ok _ _ _ _ _
                    (layover_input_missing archives self scratch _ _ _ _ loc
                       0 q0 _ w Hmask))).
      reflexivity. }
  destruct (exposes_layover archives q0).
  - by rewrite (bind_Raise _ _ _ _ _ Hwrite).
  - rewrite (bind_Ok _ _ _ _ _ Hwrite). reflexivity.
Qed.

Lemma batch_without_polarizations_witness :
  sample_run ["/in/e.h5"%string]
  = (Ok tt,
     {| files := ∅;
        log := [EvWarn ("HDF5:/in/e.h5:/" +:+ frequencyA
                          +:+ "layoverShadowMask")] |}).
Proof.
  apply (@batch_without_polarizations vote sample_archives reader_1x2
           "/in/e.h5" [] "/out" "/scratch" "average" "mosaic" empty_world).
  intros q Hq. apply list_elem_of_singleton in Hq as ->.
  exists p_e. split; [by vm_compute|]. do 4 (split; [done|]).
  intros dp Hdp. by apply elem_of_nil in Hdp.
Defined.

(** ** The order of the channels, and the CRS string *)

Section ChannelOrder.

Variable archives : Archives.

Lemma sorted_insert_Permutation x l : sorted_insert x l ≡ₚ x :: l.
Proof.
  induction l as [|y l IH]; simpl; [done|].
  destruct (String.leb x y); [done|].
  rewrite IH. apply Permutation_swap.
Qed.

Lemma np_sort_Permutation l : np_sort l ≡ₚ l.
Proof.
  induction l as [|x l IH]; simpl; [done|].
  by rewrite sorted_insert_Permutation, IH.
Qed.

Lemma sorted_insert_ascending x l :
  ascending l = true -> ascending (sorted_insert x l) = true.
Proof.
  induction l as [|y l IH]; simpl; [done|]. intros Hl.
  destruct (String.leb x y) eqn:Hxy.
  - simpl. by rewrite Hxy.
  - assert (Hyx : String.leb y x = true).
    { destruct (String.leb_total x y) as [Habs|Hyx]; [congruence|done]. }
    destruct l as [|z l]; simpl in *; [by rewrite Hyx|].
    apply andb_prop in Hl as [Hyz Hl]. specialize (IH Hl).
    destruct (String.leb x z); simpl in *.
    + by rewrite Hyx.
    + by rewrite Hyz.
Qed.

Lemma np_sort_ascending l : ascending (np_sort l) = true.
Proof.
  induction l as [|x l IH]; simpl; [done|].
  by apply sorted_insert_ascending.
Qed.

(** What the loop of [extract_nisar_polarization] holds: nothing yet, or
    the sorted list of one of the products read. *)
Lemma fold_read_polarizations_source l acc w acc' w' :
  fold_ (read_polarizations archives) l acc w = (Ok acc', w') ->
  acc' = acc
  \/ exists q prod, q ∈ l /\ archives !! q = Some prod
                    /\ acc' = np_sort (listOfPolarizations prod).
Proof.
  revert acc w. induction l as [|q l IH]; intros acc w Hb.
  - simpl in Hb. injection Hb as <- _. by left.
  - simpl in Hb. apply bind_Ok_inv in Hb as (acc1 & w1 & Hstep & Hb).
    unfold read_polarizations in Hstep.
    destruct (archives !! q) as [prod|] eqn:Hq; [|discriminate].
    destruct (length acc =? 0)%nat.
    + injection Hstep as <- <-.
      destruct (IH _ _ Hb) as [->|(q' & prod' & Hq' & Hp & Hacc)].
      * right. exists q, prod. split; [left|done].
      * right. exists q', prod'. split; [by right|done].
    + destruct (np_all_eq _ _) as [[]|]; try discriminate.
      injection Hstep as <- <-.
      destruct (IH _ _ Hb) as [->|(q' & prod' & Hq' & Hp & Hacc)];
        [by left|].
      right. exists q', prod'. split; [by right|done].
Qed.

End ChannelOrder.

(** The polarizations [extract_nisar_polarization] returns are in the
    order of [np.sort], not in the order of the file: the list is
    ascending, and when it is not empty it is a permutation of the
    polarization list of one of the inputs. *)
Theorem extract_nisar_polarization_sorted
    archives (input_list : list string) w pols w' :
  extract_nisar_polarization archives input_list w = (Ok pols, w') ->
  ascending pols = true
  /\ (pols <> [] ->
      exists q prod, q ∈ input_list /\ archives !! q = Some prod
                     /\ pols ≡ₚ listOfPolarizations prod).
Proof.
  unfold extract_nisar_polarization. intros Hb.
  apply bind_Ok_inv in Hb as (acc & w1 & Hfold & Hb).
  injection Hb as <- _.
  destruct (fold_read_polarizations_source archives _ _ _ _ _ Hfold)
    as [->|(q & prod & Hq & Hp & ->)].
  - split; [done|]. by intros [].
  - split; [apply np_sort_ascending|]. intros _.
    exists q, prod. split; [done|]. split; [done|].
    apply np_sort_Permutation.
Qed.

Lemma extract_nisar_polarization_sorted_witness :
  ascending ["HH"; "VV"]%string = true
  /\ (["HH"; "VV"]%string <> [] ->
      exists q prod,
        q ∈ ["/in/g.h5"%string]
        /\ (<["/in/g.h5"%string :=
               sample_product ["VV"; "HH"]%string 32610 500015 []]>
              sample_archives) !! q = Some prod
        /\ ["HH"; "VV"]%string ≡ₚ listOfPolarizations prod).
Proof.
  apply (extract_nisar_polarization_sorted
           (<["/in/g.h5"%string :=
                sample_product ["VV"; "HH"]%string 32610 500015 []]>
              sample_archives)
           ["/in/g.h5"%string] empty_world ["HH"; "VV"]%string empty_world).
  vm_compute. reflexivity.
Defined.

Section CrsString.

Variable archives : Archives.

Lemma to_int_not_nil n : Z.to_int n <> Decimal.Pos Decimal.Nil
                         /\ Z.to_int n <> Decimal.Neg Decimal.Nil.
Proof.
  destruct n as [|p|p]; simpl; split; try discriminate;
    intros [= Hnil]; by apply (DecimalPos.Unsigned.to_uint_nonnil p).
Qed.

Lemma str_of_Z_inj n m : str_of_Z n = str_of_Z m -> n = m.
Proof.
  unfold str_of_Z. intros Heq.
  apply DecimalZ.to_int_inj.
  destruct (to_int_not_nil n) as [Hn1 Hn2].
  destruct (to_int_not_nil m) as [Hm1 Hm2].
  pose proof (NilZero.isi (Z.to_int n) Hn1 Hn2) as Hin.
  pose proof (NilZero.isi (Z.to_int m) Hm1 Hm2) as Him.
  rewrite Heq in Hin. rewrite Hin in Him. by injection Him.
Qed.

End CrsString.

(** The CRS string [read_geodata_hdf5] builds, ['EPSG:' + str(epsg)],
    identifies the EPSG code: two inputs get the same string exactly when
    their codes are equal, so the rasters an input is staged with carry a
    CRS that agrees with the code [get_nisar_epsg] compares. *)
Theorem crs_string_identifies_epsg archives (q1 q2 : string) g1 c1 g2 c2 w :
  read_geodata_hdf5 archives q1 w = (Ok (g1, c1), w) ->
  read_geodata_hdf5 archives q2 w = (Ok (g2, c2), w) ->
  (c1 = c2 <-> epsg_of archives q1 = epsg_of archives q2).
Proof.
  unfold read_geodata_hdf5, epsg_of. intros H1 H2.
  destruct (archives !! q1) as [p1|]; [|discriminate].
  destruct (archives !! q2) as [p2|]; [|discriminate].
  destruct (xCoordinates p1), (yCoordinates p1); try discriminate.
  destruct (xCoordinates p2), (yCoordinates p2); try discriminate.
  injection H1 as _ <-. injection H2 as _ <-. simpl. split.
  - intros Heq. apply str_of_Z_inj. by apply (append_inj_l "EPSG:").
  - by intros ->.
Qed.

Lemma crs_string_identifies_epsg_witness :
  ("EPSG:32610" = "EPSG:32611")%string
  <-> epsg_of sample_archives "/in/a.h5" = epsg_of sample_archives "/in/c.h5".
Proof.
  pose (ga := match fst (read_geodata_hdf5 sample_archives "/in/a.h5"
                           empty_world) with
              | Ok gc => fst gc
              | Raise _ => identity_transform
              end).
  pose (gc := match fst (read_geodata_hdf5 sample_archives "/in/c.h5"
                           empty_world) with
              | Ok gc => fst gc
              | Raise _ => identity_transform
              end).
  apply (crs_string_identifies_epsg sample_archives "/in/a.h5" "/in/c.h5"
           ga "EPSG:32610" gc "EPSG:32611" empty_world);
    vm_compute; reflexivity.
Defined.

(** ** Staging: the channel rasters of a batch *)

Section StageRasters.

Variable archives : Archives.
Variable self : RTCReader.
Variable scratch : string.

(** What a call to [read_write_rtc] that returns has done. *)
Lemma read_write_rtc_returns ds out nr nc rb cb dv g c meta w w' :
  read_write_rtc self ds out nr nc rb cb dv g c meta w = (Ok tt, w') ->
  exists dst,
    w' = {| files := <[out := RTif dst]> (files w); log := log w |}
    /\ raster_of ds dv nr nc c g meta dst.
Proof.
  intros Hrun.
  destruct (read_write_rtc_header self ds out nr nc rb cb dv g c meta w)
    as (d1 & Hf1 & Hh & Hw & Hc & Hg).
  destruct (read_write_rtc_file self ds out nr nc rb cb dv g c meta w)
    as (d2 & Hf2 & Hsan).
  rewrite Hrun in Hf1, Hf2. simpl in Hf1, Hf2.
  rewrite Hf1 in Hf2. injection Hf2 as <-.
  unfold read_write_rtc in Hrun.
  set (created := {| gt_height := nr; gt_width := nc; gt_crs := c;
                     gt_transform := g; gt_band := ∅; gt_tags := [] |}) in *.
  set (blocks := write_blocks _ _ _ _ _ _) in *.
  unfold bind, get, put, write_file, lift_res in Hrun.
  destruct (blocks created) as [[[]|e] d0] eqn:Hblocks;
    try rewrite Hblocks in Hrun; simpl in Hrun; [|discriminate].
  injection Hrun as <-. simpl in Hf1.
  rewrite lookup_insert_eq in Hf1. injection Hf1 as <-.
  eexists. split; [reflexivity|]. by repeat split.
Qed.

Lemma bind_singleton_fmap {A B} (f : A -> B) (l : list A) :
  (x ← l; [f x]) = f <$> l.
Proof.
  induction l as [|x l IH]; [done|]. by rewrite bind_cons, fmap_cons, IH.
Qed.

Lemma gtiff_paths_single data_path q :
  gtiff_paths scratch data_path [q]
  = (fun dp => gtiff_path scratch (stem_prefix q) (data_name_of dp))
      <$> data_path.
Proof.
  unfold gtiff_paths. rewrite bind_cons.
  change (@nil string ≫= _) with (@nil string).
  rewrite app_nil_r. apply bind_singleton_fmap.
Qed.

(** The geodata and the metadata of an input depend on the archive only. *)
Lemma read_geodata_hdf5_pure q w gc w1 :
  read_geodata_hdf5 archives q w = (Ok gc, w1) ->
  w1 = w /\ forall w0, read_geodata_hdf5 archives q w0 = (Ok gc, w0).
Proof.
  unfold read_geodata_hdf5. destruct (archives !! q); [|discriminate].
  destruct (xCoordinates _); [discriminate|].
  destruct (yCoordinates _); [discriminate|].
  intros [= <- <-]. done.
Qed.

Lemma read_metadata_hdf5_pure q w meta w1 :
  read_metadata_hdf5 archives q w = (Ok meta, w1) ->
  w1 = w /\ forall w0, read_metadata_hdf5 archives q w0 = (Ok meta, w0).
Proof.
  unfold read_metadata_hdf5. destruct (archives !! q); [|discriminate].
  destruct (l1SlcGranules _); [discriminate|].
  intros [= <- <-]. done.
Qed.

(** The channel loop of one input writes the channel rasters of that input
    and nothing else. *)
Lemma stage_fold_frame dv q g c meta dps loc w loc' w' :
  fold_ (fun dataset_path loc =>
    let data_name := data_name_of dataset_path in
    let output_gtiff := gtiff_path scratch (stem_prefix q) data_name in
    let loc := bind_output_gtiff loc output_gtiff in
    match gdal_Open archives q dataset_path with
    | None => raise AttributeError
    | Some h5_ds =>
        let num_cols := RasterXSize h5_ds in
        let num_rows := RasterYSize h5_ds in
        let row_blk_size := self_row_blk_size self in
        let col_blk_size := self_col_blk_size self in
        do _ <- read_write_rtc self h5_ds output_gtiff num_rows num_cols
                  row_blk_size col_blk_size dv g c meta;
        ret (bind_rows loc num_rows row_blk_size)
    end) dps loc w = (Ok loc', w') ->
  (forall p, p ∉ gtiff_paths scratch dps [q] ->
             files w' !! p = files w !! p)
  /\ log w' = log w.
Proof.
  rewrite gtiff_paths_single.
  revert loc w. induction dps as [|dp dps IH]; intros loc w Hb.
  - simpl in Hb. by injection Hb as _ <-.
  - simpl in Hb. apply bind_Ok_inv in Hb as (loc1 & w1 & Hstep & Hb).
    destruct (gdal_Open archives q dp) as [ds|] eqn:Hopen; [|discriminate].
    apply bind_Ok_inv in Hstep as ([] & w2 & Hwrite & Hstep).
    injection Hstep as <- <-.
    apply read_write_rtc_returns in Hwrite as (dst & -> & _).
    destruct (IH _ _ Hb) as [Hframe ->]. split; [|done].
    intros p Hp. rewrite fmap_cons in Hp.
    apply not_elem_of_cons in Hp as [Hne Hp].
    rewrite (Hframe p Hp). simpl. by rewrite lookup_insert_ne.
Qed.

(** When the paths it writes differ, each channel raster is written from
    the layer of that channel. *)
Lemma stage_fold_rasters dv q g c meta dps loc w loc' w' :
  fold_ (fun dataset_path loc =>
    let data_name := data_name_of dataset_path in
    let output_gtiff := gtiff_path scratch (stem_prefix q) data_name in
    let loc := bind_output_gtiff loc output_gtiff in
    match gdal_Open archives q dataset_path with
    | None => raise AttributeError
    | Some h5_ds =>
        let num_cols := RasterXSize h5_ds in
        let num_rows := RasterYSize h5_ds in
        let row_blk_size := self_row_blk_size self in
        let col_blk_size := self_col_blk_size self in
        do _ <- read_write_rtc self h5_ds output_gtiff num_rows num_cols
                  row_blk_size col_blk_size dv g c meta;
        ret (bind_rows loc num_rows row_blk_size)
    end) dps loc w = (Ok loc', w') ->
  NoDup (gtiff_paths scratch dps [q]) ->
  forall dp, dp ∈ dps ->
    exists ds t,
      gdal_Open archives q dp = Some ds
      /\ files w' !! gtiff_path scratch (stem_prefix q) (data_name_of dp)
         = Some (RTif t)
      /\ raster_of ds dv (RasterYSize ds) (RasterXSize ds) c g meta t.
Proof.
  revert loc w. induction dps as [|dp dps IH]; intros loc w Hb Hnd.
  - intros dp Hdp. by apply elem_of_nil in Hdp.
  - simpl in Hb. apply bind_Ok_inv in Hb as (loc1 & w1 & Hstep & Hb).
    destruct (gdal_Open archives q dp) as [ds|] eqn:Hopen; [|discriminate].
    apply bind_Ok_inv in Hstep as ([] & w2 & Hwrite & Hstep).
    injection Hstep as <- <-.
    apply read_write_rtc_returns in Hwrite as (dst & -> & Hdst).
    rewrite gtiff_paths_single, fmap_cons in Hnd.
    apply NoDup_cons in Hnd as [Hfresh Hnd].
    rewrite <- gtiff_paths_single in Hfresh, Hnd.
    intros dp' Hdp'. apply elem_of_cons in Hdp' as [->|Hdp'].
    + exists ds, dst. split; [done|]. split; [|done].
      destruct (stage_fold_frame dv q g c meta dps _ _ _ _ Hb) as [Hframe _].
      rewrite (Hframe _ Hfresh). simpl. apply lookup_insert_eq.
    + by apply (IH _ _ Hb Hnd).
Qed.

Lemma stage_input_frame data_path dv q loc w loc' w' :
  stage_input archives self scratch data_path dv q loc w = (Ok loc', w') ->
  (forall p, p ∉ gtiff_paths scratch data_path [q] ->
             files w' !! p = files w !! p)
  /\ log w' = log w.
Proof.
  unfold stage_input. intros Hb.
  apply bind_Ok_inv in Hb as (prefix & w1 & Hprefix & Hb).
  assert (prefix = stem_prefix q /\ w1 = w) as [-> ->].
  { unfold extract_file_name in Hprefix.
    destruct (archives !! q); [|discriminate]. by injection Hprefix. }
  apply bind_Ok_inv in Hb as ([g c] & w1 & Hgeo & Hb).
  apply read_geodata_hdf5_pure in Hgeo as [-> _].
  apply bind_Ok_inv in Hb as (meta & w1 & Hmeta & Hb).
  apply read_metadata_hdf5_pure in Hmeta as [-> _].
  simpl in Hb. by eapply stage_fold_frame.
Qed.

Lemma stage_input_rasters data_path dv q loc w loc' w' :
  stage_input archives self scratch data_path dv q loc w = (Ok loc', w') ->
  NoDup (gtiff_paths scratch data_path [q]) ->
  exists g c meta,
    (forall w0, read_geodata_hdf5 archives q w0 = (Ok (g, c), w0))
    /\ (forall w0, read_metadata_hdf5 archives q w0 = (Ok meta, w0))
    /\ forall dp, dp ∈ data_path ->
         exists ds t,
           gdal_Open archives q dp = Some ds
           /\ files w' !! gtiff_path scratch (stem_prefix q) (data_name_of dp)
              = Some (RTif t)
           /\ raster_of ds dv (RasterYSize ds) (RasterXSize ds) c g meta t.
Proof.
  unfold stage_input. intros Hb Hnd.
  apply bind_Ok_inv in Hb as (prefix & w1 & Hprefix & Hb).
  assert (prefix = stem_prefix q /\ w1 = w) as [-> ->].
  { unfold extract_file_name in Hprefix.
    destruct (archives !! q); [|discriminate]. by injection Hprefix. }
  apply bind_Ok_inv in Hb as ([g c] & w1 & Hgeo & Hb).
  apply read_geodata_hdf5_pure in Hgeo as [-> Hgeo].
  apply bind_Ok_inv in Hb as (meta & w1 & Hmeta & Hb).
  apply read_metadata_hdf5_pure in Hmeta as [-> Hmeta].
  simpl in Hb. exists g, c, meta. do 2 (split; [done|]).
  by apply (stage_fold_rasters dv q g c meta data_path _ _ _ _ Hb).
Qed.

Lemma stage_loop_frame data_path dv (input_list : list string)
    loc w loc' w' :
  fold_ (stage_input archives self scratch data_path dv) input_list loc w
  = (Ok loc', w') ->
  (forall p, p ∉ gtiff_paths scratch data_path input_list ->
             files w' !! p = files w !! p)
  /\ log w' = log w.
Proof.
  revert loc w. induction input_list as [|q l IH]; intros loc w Hb.
  - simpl in Hb. by injection Hb as _ <-.
  - simpl in Hb. apply bind_Ok_inv in Hb as (loc1 & w1 & Hstep & Hb).
    destruct (IH _ _ Hb) as [Hrest ->].
    destruct (stage_input_frame data_path dv q _ _ _ _ Hstep) as [Hq ->].
    split; [|done]. intros p Hp.
    change (q :: l) with ([q] ++ l) in Hp. rewrite gtiff_paths_app in Hp.
    apply not_elem_of_app in Hp as [Hp Hl].
    by rewrite (Hrest p Hl), (Hq p Hp).
Qed.

Lemma stage_loop_rasters data_path dv (input_list : list string)
    loc w loc' w' :
  fold_ (stage_input archives self scratch data_path dv) input_list loc w
  = (Ok loc', w') ->
  NoDup (gtiff_paths scratch data_path input_list) ->
  forall q dp, q ∈ input_list -> dp ∈ data_path ->
    exists ds g c meta t,
      gdal_Open archives q dp = Some ds
      /\ (forall w0, read_geodata_hdf5 archives q w0 = (Ok (g, c), w0))
      /\ (forall w0, read_metadata_hdf5 archives q w0 = (Ok meta, w0))
      /\ files w' !! gtiff_path scratch (stem_prefix q) (data_name_of dp)
         = Some (RTif t)
      /\ raster_of ds dv (RasterYSize ds) (RasterXSize ds) c g meta t.
Proof.
  revert loc w. induction input_list as [|q0 l IH]; intros loc w Hrun Hnd.
  - intros q dp Hq. by apply elem_of_nil in Hq.
  - simpl in Hrun. apply bind_Ok_inv in Hrun as (loc1 & w1 & Hstep & Hrun).
    change (q0 :: l) with ([q0] ++ l) in Hnd |- *.
    rewrite gtiff_paths_app in Hnd.
    apply NoDup_app in Hnd as (Hnd0 & Hdisj & Hndl).
    intros q dp Hq Hdp.
    apply elem_of_app in Hq as [Hq|Hq]; [|by apply (IH _ _ Hrun Hndl)].
    apply list_elem_of_singleton in Hq as ->.
    destruct (stage_input_rasters data_path dv q0 _ _ _ _ Hstep Hnd0)
      as (g & c & meta & Hg & Hm & Hr).
    destruct (Hr dp Hdp) as (ds & t & Hopen & Hfile & Ht).
    exists ds, g, c, meta, t. do 3 (split; [done|]). split; [|done].
    destruct (stage_loop_frame data_path dv l _ _ _ _ Hrun) as [Hframe _].
    rewrite Hframe; [done|].
    apply Hdisj. apply elem_of_gtiff_paths.
    exists q0, dp. split; [left|done].
Qed.

End StageRasters.

(** The rasters the first loop of [write_rtc_geotiff] leaves on a batch
    whose intermediate paths differ: the raster of each channel of each
    input has the size of that input's layer, the geotransform, CRS and
    metadata resolved from that input, and sanitized samples of that layer;
    no file other than the channel rasters is touched, and nothing is
    logged. *)
Theorem staged_rasters_come_from_their_own_input
    archives self scratch (data_path : list string) dv
    (input_list : list string) loc w loc' w' :
  fold_ (stage_input archives self scratch data_path dv) input_list loc w
  = (Ok loc', w') ->
  NoDup (gtiff_paths scratch data_path input_list) ->
  (forall q dp, q ∈ input_list -> dp ∈ data_path ->
     exists ds g c meta t,
       gdal_Open archives q dp = Some ds
       /\ read_geodata_hdf5 archives q w = (Ok (g, c), w)
       /\ read_metadata_hdf5 archives q w = (Ok meta, w)
       /\ files w' !! gtiff_path scratch (stem_prefix q) (data_name_of dp)
          = Some (RTif t)
       /\ raster_of ds dv (RasterYSize ds) (RasterXSize ds) c g meta t)
  /\ (forall p, p ∉ gtiff_paths scratch data_path input_list ->
                files w' !! p = files w !! p)
  /\ log w' = log w.
Proof.
  intros Hrun Hnd.
  destruct (stage_loop_frame archives self scratch data_path dv
              input_list loc w loc' w' Hrun) as [Hframe Hlog].
  split; [|done].
  intros q dp Hq Hdp.
  destruct (stage_loop_rasters archives self scratch data_path dv
              input_list loc w loc' w' Hrun Hnd q dp Hq Hdp)
    as (ds & g & c & meta & t & H1 & H2 & H3 & H4).
  by exists ds, g, c, meta, t.
Qed.

Lemma staged_rasters_come_from_their_own_input_witness :
  exists ds g c meta t,
    gdal_Open sample_archives "/in/a.h5" HHHH = Some ds
    /\ read_geodata_hdf5 sample_archives "/in/a.h5" empty_world
       = (Ok (g, c), empty_world)
    /\ read_metadata_hdf5 sample_archives "/in/a.h5" empty_world
       = (Ok meta, empty_world)
    /\ files (snd (sample_stage ["/in/a.h5"; "/in/f.h5"]%string))
         !! gtiff_path "/scratch" (stem_prefix "/in/a.h5") (data_name_of HHHH)
       = Some (RTif t)
    /\ raster_of ds (np_float32 500) (RasterYSize ds) (RasterXSize ds)
                 c g meta t.
Proof.
  pose (L := ["/in/a.h5"; "/in/f.h5"]%string).
  pose (loc' := match fst (sample_stage L) with
                | Ok l => l
                | Raise _ => no_locals
                end).
  assert (Hfold :
    fold_ (stage_input sample_archives reader_1x2 "/scratch" [HHHH]
                       (np_float32 500)) L no_locals empty_world
    = (Ok loc', snd (sample_stage L))).
  { vm_compute. reflexivity. }
  assert (Hnd : NoDup (gtiff_paths "/scratch" [HHHH] L)).
  { apply (bool_decide_unpack _). vm_compute. exact I. }
  destruct (staged_rasters_come_from_their_own_input sample_archives
              reader_1x2 "/scratch" [HHHH] (np_float32 500) L no_locals
              empty_world loc' _ Hfold Hnd) as [Hrasters _].
  apply (Hrasters "/in/a.h5"%string HHHH); [left|left].
Defined.

(** ** The whole run: its phases, the mosaics it writes, and [run] *)

Lemma str_length_app (a b : string) :
  String.length (a +:+ b) = (String.length a + String.length b)%nat.
Proof. induction a as [|c a IH]; simpl; [done|]. by rewrite IH. Qed.

Lemma append_inj_r (a b t : string) : a +:+ t = b +:+ t -> a = b.
Proof.
  revert b. induction a as [|c a IH]; intros [|d b]; simpl; intros Heq.
  - done.
  - apply (f_equal String.length) in Heq. simpl in Heq.
    rewrite !str_length_app in Heq. simpl in Heq. lia.
  - apply (f_equal String.length) in Heq. simpl in Heq.
    rewrite !str_length_app in Heq. simpl in Heq. lia.
  - injection Heq as -> Heq. f_equal. by apply IH.
Qed.

Lemma data_name_of_length dp : (String.length (data_name_of dp) <= 2)%nat.
Proof.
  unfold data_name_of. destruct (Path_name dp) as [|a [|b s]]; simpl; [lia..|].
  destruct s; simpl; lia.
Qed.

(** Two channels with the same mosaic path have the same tag, and no
    channel has the path of the layover mosaic. *)
Lemma mosaic_gtiff_path_inj out prefix dp dp' :
  mosaic_gtiff_path out prefix dp = mosaic_gtiff_path out prefix dp' ->
  data_name_of dp = data_name_of dp'.
Proof.
  unfold mosaic_gtiff_path. intros Heq.
  do 4 apply append_inj_l in Heq. by apply append_inj_r in Heq.
Qed.

Lemma mosaic_gtiff_path_not_layover out prefix dp :
  mosaic_gtiff_path out prefix dp <> layover_mosaic_gtiff_path out prefix.
Proof.
  unfold mosaic_gtiff_path, layover_mosaic_gtiff_path. intros Heq.
  do 3 apply append_inj_l in Heq.
  change ("_layover.tif"%string) with ("_" +:+ "layover" +:+ ".tif")%string
    in Heq.
  apply append_inj_l, append_inj_r in Heq.
  pose proof (data_name_of_length dp) as Hlen.
  rewrite Heq in Hlen. simpl in Hlen. lia.
Qed.

(** Lookups that agree on the paths give the same rasters. *)
Lemma Forall2_files_agree (m m' : gmap string Raster) paths rs :
  (forall p, p ∈ paths -> m' !! p = m !! p) ->
  Forall2 (fun p r => m' !! p = Some r) paths rs ->
  Forall2 (fun p r => m !! p = Some r) paths rs.
Proof.
  intros Hm HF. induction HF as [|p r paths rs Hp _ IH]; constructor.
  - rewrite <- Hm; [done|left].
  - apply IH. intros p' Hp'. apply Hm. by right.
Qed.

Section Phases.

Context `{Collaborators}.
Variable archives : Archives.
Variable self : RTCReader.

Lemma get_nisar_epsg_returns (input_list : list string) w ef w' :
  get_nisar_epsg archives input_list w = (Ok ef, w') ->
  w' = w /\ fst ef = epsg_of archives <$> input_list
  /\ input_list <> []
  /\ forall q, q ∈ input_list -> is_Some (archives !! q).
Proof.
  unfold get_nisar_epsg. intros Hb.
  apply bind_Ok_inv in Hb as (arr & w1 & Hfold & Hb).
  assert (Hgen : forall l acc arr w1,
    fold_ (fun input_rtc acc =>
             match archives !! input_rtc with
             | None => raise FileNotFoundError
             | Some src_h5 => ret (acc ++ [projection src_h5])
             end) l acc w = (Ok arr, w1) ->
    w1 = w /\ arr = acc ++ (epsg_of archives <$> l)
    /\ forall q, q ∈ l -> is_Some (archives !! q)).
  { clear. induction l as [|q l IH]; intros acc arr w1; simpl.
    - intros [= <- <-]. rewrite app_nil_r. repeat split.
      intros q Hq. by apply elem_of_nil in Hq.
    - intros Hb. apply bind_Ok_inv in Hb as (acc1 & w2 & Hstep & Hb).
      destruct (archives !! q) as [prod|] eqn:Hq; [|discriminate].
      injection Hstep as <- <-.
      apply IH in Hb as (-> & -> & Hall). split; [done|]. split.
      + unfold epsg_of at 2. rewrite Hq. simpl. by rewrite <- app_assoc.
      + intros q' Hq'. apply elem_of_cons in Hq' as [->|Hq'];
          [by eexists|by apply Hall]. }
  apply Hgen in Hfold as (-> & -> & Hall). simpl in Hb.
  destruct (epsg_of archives <$> input_list) as [|e0 arr'] eqn:Harr;
    [discriminate|].
  injection Hb as <- <-. split; [done|]. split; [done|]. split; [|done].
  intros ->. discriminate.
Qed.

(** The phases of a run that returns. *)
Lemma process_rtc_hdf5_phases (input_list : list string)
    out scratch mode prefix w w' :
  process_rtc_hdf5 archives self input_list out scratch mode prefix w
  = (Ok tt, w') ->
  exists pols le g w1,
    extract_nisar_polarization archives input_list w = (Ok pols, w)
    /\ input_list <> []
    /\ (forall q, q ∈ input_list -> is_Some (archives !! q))
    /\ write_rtc_geotiff archives self input_list out scratch
         (epsg_of archives <$> input_list)
         (generate_nisar_dataset_name (StrList pols))
         (frequencyA +:+ "layoverShadowMask") w = (Ok (le, g), w1)
    /\ mosaic_rtc_geotiff archives input_list
         (generate_nisar_dataset_name (StrList pols)) out scratch g []
         mode prefix le w1 = (Ok tt, w').
Proof.
  unfold process_rtc_hdf5. intros Hb.
  apply bind_Ok_inv in Hb as (pols & w1 & Hpols & Hb).
  assert (w1 = w) as ->.
  { pose proof (keeps_extract_nisar_polarization archives (eq w) input_list
                  w eq_refl) as Hw.
    rewrite Hpols in Hw. by simpl in Hw. }
  apply bind_Ok_inv in Hb as (ef & w2 & Hepsg & Hb).
  apply get_nisar_epsg_returns in Hepsg as (-> & Harr & Hne & Hall).
  apply bind_Ok_inv in Hb as ([le g] & w3 & Hwrite & Hb).
  rewrite Harr in Hwrite.
  exists pols, le, g, w3. by repeat split.
Qed.

Lemma mosaic_single_output_file_writes inputs nl output mode sd g w w' :
  mosaic_single_output_file inputs nl output mode sd g w = (Ok tt, w') ->
  exists rs, files w' = <[output := RMosaic rs mode g]> (files w).
Proof.
  unfold mosaic_single_output_file. intros Hb.
  apply bind_Ok_inv in Hb as ([] & w1 & Hemit & Hb).
  injection Hemit as <-.
  apply bind_Ok_inv in Hb as (rs & w2 & Hread & Hb).
  assert (Hfiles : files w2 = files w).
  { pose proof (keeps_fold (fun s : World => files s = files w)
                  (fun p acc => do r <- read_file p; ret (acc ++ [r]))
                  inputs []) as Hk.
    specialize (Hk (fun p acc =>
      keeps_bind _ _ _ (keeps_read_file _ p) (fun r => keeps_ret _ _))).
    specialize (Hk {| files := files w;
                      log := log w ++ [EvMosaic inputs output] |} eq_refl).
    by rewrite Hread in Hk. }
  injection Hb as <-. exists rs. simpl. by rewrite Hfiles.
Qed.


Lemma mosaic_written_kept mode g p out rs (m : gmap string Raster) :
  is_mosaic mode g (m !! p) ->
  is_mosaic mode g (<[out := RMosaic rs mode g]> m !! p).
Proof.
  intros Hp. destruct (decide (p = out)) as [->|Hne].
  - rewrite lookup_insert_eq. by exists rs.
  - by rewrite lookup_insert_ne.
Qed.

(** The files the mosaicking phase leaves: one mosaic per channel, the
    layover mosaic when asked for, and every other file as it was. *)
Lemma mosaic_rtc_geotiff_outputs (input_list data_path : list string)
    out scratch g nl mode prefix le w w' :
  mosaic_rtc_geotiff archives input_list data_path out scratch g nl mode
    prefix le w = (Ok tt, w') ->
  (forall dp, dp ∈ data_path ->
     is_mosaic mode g (files w' !! mosaic_gtiff_path out prefix dp))
  /\ (le = true ->
      is_mosaic mode g (files w' !! layover_mosaic_gtiff_path out prefix))
  /\ (forall p,
        p ∉ mosaic_gtiff_path out prefix <$> data_path ->
        p <> layover_mosaic_gtiff_path out prefix ->
        files w' !! p = files w !! p).
Proof.
  unfold mosaic_rtc_geotiff. intros Hb.
  apply bind_Ok_inv in Hb as ([] & w1 & Hloop & Hb).
  assert (Hchan :
    (forall dp, dp ∈ data_path ->
       is_mosaic mode g (files w1 !! mosaic_gtiff_path out prefix dp))
    /\ (forall p, is_mosaic mode g (files w !! p) ->
                  is_mosaic mode g (files w1 !! p))
    /\ (forall p, p ∉ mosaic_gtiff_path out prefix <$> data_path ->
                  files w1 !! p = files w !! p)).
  { clear Hb. revert w Hloop. unfold for_.
    induction data_path as [|dp dps IH]; intros w; simpl.
    - intros [= <-]. split; [|done].
      intros dp Hdp. by apply elem_of_nil in Hdp.
    - intros Hb. apply bind_Ok_inv in Hb as ([] & w2 & Hstep & Hb).
      apply bind_Ok_inv in Hstep as (lst & w3 & Hlst & Hstep).
      apply fold_extract_paths in Hlst as [-> ->].
      apply mosaic_single_output_file_writes in Hstep as [rs Hfiles].
      fold (mosaic_gtiff_path out prefix dp) in Hfiles.
      destruct (IH _ Hb) as (Hall & Hkept & Hframe).
      split; [|split].
      + intros dp' Hdp'. apply elem_of_cons in Hdp' as [->|Hdp'];
          [|by apply Hall].
        apply Hkept. rewrite Hfiles, lookup_insert_eq. by exists rs.
      + intros p Hp. apply Hkept. rewrite Hfiles.
        by apply mosaic_written_kept.
      + intros p Hp. apply not_elem_of_cons in Hp as [Hne Hp].
        rewrite (Hframe p Hp), Hfiles. by rewrite lookup_insert_ne. }
  destruct Hchan as (Hall & _ & Hframe).
  destruct le.
  - apply bind_Ok_inv in Hb as (lst & w2 & Hlst & Hb).
    apply fold_extract_paths in Hlst as [-> ->].
    apply mosaic_single_output_file_writes in Hb as [rs Hfiles].
    fold (layover_mosaic_gtiff_path out prefix) in Hfiles.
    split; [|split].
    + intros dp Hdp. rewrite Hfiles. apply mosaic_written_kept.
      by apply Hall.
    + intros _. rewrite Hfiles, lookup_insert_eq. by exists rs.
    + intros p Hp Hne. rewrite Hfiles, lookup_insert_ne by done.
      by apply Hframe.
  - injection Hb as <-. split; [done|]. split; [done|].
    intros p Hp _. by apply Hframe.
Qed.

(** The rasters the combination collaborator is given are those at its
    input paths when it is called. *)
Lemma fold_read_file_rasters inputs acc w rs w' :
  fold_ (fun p acc => do r <- read_file p; ret (acc ++ [r])) inputs acc w
  = (Ok rs, w') ->
  w' = w
  /\ exists rs', rs = acc ++ rs'
       /\ Forall2 (fun p r => files w !! p = Some r) inputs rs'.
Proof.
  revert acc. induction inputs as [|p inputs IH]; intros acc; simpl.
  - intros [= <- <-]. split; [done|]. exists []. by rewrite app_nil_r.
  - intros Hb. apply bind_Ok_inv in Hb as (acc1 & w1 & Hstep & Hb).
    apply bind_Ok_inv in Hstep as (r & w2 & Hread & Hstep).
    unfold read_file in Hread.
    destruct (files w !! p) as [r'|] eqn:Hp; [|discriminate].
    injection Hread as <- <-. injection Hstep as <- <-.
    apply IH in Hb as (-> & rs' & -> & HF). split; [done|].
    exists (r' :: rs'). split; [by rewrite <- app_assoc|].
    by constructor.
Qed.

Lemma mosaic_single_output_file_reads inputs nl output mode sd g w w' :
  mosaic_single_output_file inputs nl output mode sd g w = (Ok tt, w') ->
  exists rs,
    files w' = <[output := RMosaic rs mode g]> (files w)
    /\ Forall2 (fun p r => files w !! p = Some r) inputs rs.
Proof.
  unfold mosaic_single_output_file. intros Hb.
  apply bind_Ok_inv in Hb as ([] & w1 & Hemit & Hb).
  injection Hemit as <-.
  apply bind_Ok_inv in Hb as (rs & w2 & Hread & Hb).
  apply fold_read_file_rasters in Hread as (-> & rs' & -> & HF).
  injection Hb as <-. exists rs'. by split.
Qed.

(** The channel loop of [mosaic_rtc_geotiff], when no mosaic is written
    over a raster the loop reads. *)
Lemma channel_loop_contents (input_list dps : list string)
    out scratch g nl mode prefix w w1 :
  for_ dps (fun dataset_path =>
    let data_name := data_name_of dataset_path in
    do input_gtiff_list <-
      fold_ (fun input_rtc input_gtiff_list =>
               do input_prefix <- extract_file_name archives input_rtc;
               let input_gtiff :=
                 gtiff_path scratch input_prefix data_name in
               ret (input_gtiff_list ++ [input_gtiff]))
            input_list [];
    let output_mosaic_gtiff :=
      out +:+ "/" +:+ prefix +:+ "_" +:+ data_name +:+ ".tif" in
    mosaic_single_output_file input_gtiff_list nl
                              output_mosaic_gtiff mode scratch g) w
  = (Ok tt, w1) ->
  (forall dp dp' q, dp ∈ dps -> dp' ∈ dps -> q ∈ input_list ->
     mosaic_gtiff_path out prefix dp
     <> gtiff_path scratch (stem_prefix q) (data_name_of dp')) ->
  (forall p, p ∉ mosaic_gtiff_path out prefix <$> dps ->
             files w1 !! p = files w !! p)
  /\ (forall dp, dp ∈ dps ->
        exists rs,
          files w1 !! mosaic_gtiff_path out prefix dp
          = Some (RMosaic rs mode g)
          /\ Forall2 (fun p r => files w !! p = Some r)
               ((fun q => gtiff_path scratch (stem_prefix q)
                                     (data_name_of dp)) <$> input_list) rs).
Proof.
  revert w. unfold for_.
  induction dps as [|dp dps IH]; intros w; simpl.
  - intros [= <-] _. split; [done|].
    intros dp Hdp. by apply elem_of_nil in Hdp.
  - intros Hb Hdisj. apply bind_Ok_inv in Hb as ([] & w2 & Hstep & Hb).
    apply bind_Ok_inv in Hstep as (lst & w3 & Hlst & Hstep).
    apply fold_extract_paths in Hlst as [-> ->].
    apply mosaic_single_output_file_reads in Hstep as (rs & Hfiles & Hrs).
    fold (mosaic_gtiff_path out prefix dp) in Hfiles.
    simpl in Hrs.
    destruct (IH _ Hb) as (Hframe & Hall).
    { intros d d' q Hd Hd' Hq. apply Hdisj; [by right|by right|done]. }
    assert (Hback : forall dp', dp' ∈ dp :: dps ->
      forall rs',
        Forall2 (fun p r => files w2 !! p = Some r)
          ((fun q => gtiff_path scratch (stem_prefix q) (data_name_of dp'))
             <$> input_list) rs' ->
        Forall2 (fun p r => files w !! p = Some r)
          ((fun q => gtiff_path scratch (stem_prefix q) (data_name_of dp'))
             <$> input_list) rs').
    { intros dp' Hdp' rs'. apply Forall2_files_agree.
      intros p Hp. apply list_elem_of_fmap in Hp as (q & -> & Hq).
      rewrite Hfiles. apply lookup_insert_ne.
      apply Hdisj; [by left|done|done]. }
    split.
    + intros p Hp. apply not_elem_of_cons in Hp as [Hne Hp].
      rewrite (Hframe p Hp), Hfiles. by rewrite lookup_insert_ne.
    + intros dp' Hdp'.
      assert (Hcase : dp' ∈ dps
                      \/ (dp' = dp
                          /\ mosaic_gtiff_path out prefix dp
                             ∉ mosaic_gtiff_path out prefix <$> dps)
                      \/ (dp' = dp
                          /\ exists d, d ∈ dps
                               /\ data_name_of d = data_name_of dp)).
      { apply elem_of_cons in Hdp' as [->|Hdp']; [|by left].
        right.
        destruct (decide (mosaic_gtiff_path out prefix dp
                          ∈ mosaic_gtiff_path out prefix <$> dps))
          as [Hin|Hout]; [right|by left].
        split; [done|].
        apply list_elem_of_fmap in Hin as (d & Hd & Hin).
        exists d. split; [done|]. symmetry.
        by eapply mosaic_gtiff_path_inj. }
      destruct Hcase as [Hin|[[-> Hout]|[-> (d & Hd & Hdn)]]].
      * destruct (Hall dp' Hin) as (rs' & Hfile & Hrs').
        exists rs'. split; [done|]. by apply (Hback dp' Hdp').
      * exists rs. split; [|done].
        rewrite (Hframe _ Hout), Hfiles. apply lookup_insert_eq.
      * destruct (Hall d Hd) as (rs' & Hfile & Hrs').
        exists rs'. unfold mosaic_gtiff_path in *.
        rewrite <- Hdn. split; [done|].
        apply (Hback d); [by right|done].
Qed.

(** The files the mosaicking phase leaves when no mosaic is written over
    an intermediate raster: each mosaic combines the rasters found at the
    intermediate paths before the phase, one per input in input order. *)
Lemma mosaic_rtc_geotiff_contents (input_list data_path : list string)
    out scratch g nl mode prefix le w w' :
  mosaic_rtc_geotiff archives input_list data_path out scratch g nl mode
    prefix le w = (Ok tt, w') ->
  (forall p, p ∈ mosaic_gtiff_path out prefix <$> data_path ->
     (p ∉ gtiff_paths scratch data_path input_list)
     /\ (p ∉ layover_paths scratch input_list)) ->
  (forall dp, dp ∈ data_path ->
     exists rs,
       files w' !! mosaic_gtiff_path out prefix dp
       = Some (RMosaic rs mode g)
       /\ Forall2 (fun p r => files w !! p = Some r)
            ((fun q => gtiff_path scratch (stem_prefix q)
                                  (data_name_of dp)) <$> input_list) rs)
  /\ (if le
      then (exists rs,
             files w' !! layover_mosaic_gtiff_path out prefix
             = Some (RMosaic rs mode g)
             /\ Forall2 (fun p r => files w !! p = Some r)
                  (layover_paths scratch input_list) rs)
      else files w' !! layover_mosaic_gtiff_path out prefix
           = files w !! layover_mosaic_gtiff_path out prefix).
Proof.
  unfold mosaic_rtc_geotiff. intros Hb Hdisj.
  apply bind_Ok_inv in Hb as ([] & w1 & Hloop & Hb).
  apply channel_loop_contents in Hloop as (Hframe & Hall).
  2:{ intros dp dp' q Hdp Hdp' Hq Heq.
      destruct (Hdisj (mosaic_gtiff_path out prefix dp)) as [Hno _].
      { apply list_elem_of_fmap. by exists dp. }
      apply Hno. rewrite Heq. apply elem_of_gtiff_paths. by exists q, dp'. }
  assert (Hlm : layover_mosaic_gtiff_path out prefix
                ∉ mosaic_gtiff_path out prefix <$> data_path).
  { intros Hin. apply list_elem_of_fmap in Hin as (dp & Heq & _).
    symmetry in Heq. by apply mosaic_gtiff_path_not_layover in Heq. }
  destruct le.
  - apply bind_Ok_inv in Hb as (lst & w2 & Hlst & Hb).
    apply fold_extract_paths in Hlst as [-> ->].
    apply mosaic_single_output_file_reads in Hb as (rs & Hfiles & Hrs).
    fold (layover_mosaic_gtiff_path out prefix) in Hfiles.
    simpl in Hrs. split.
    + intros dp Hdp. destruct (Hall dp Hdp) as (rs' & Hfile & Hrs').
      exists rs'. split; [|done].
      rewrite Hfiles, lookup_insert_ne; [done|].
      intros Heq. symmetry in Heq.
      by apply mosaic_gtiff_path_not_layover in Heq.
    + exists rs. split; [by rewrite Hfiles, lookup_insert_eq|].
      apply (Forall2_files_agree _ (files w1)); [|exact Hrs].
      intros p Hp. apply Hframe. intros Hin.
      destruct (Hdisj p Hin) as [_ Hno]. by apply Hno.
  - injection Hb as <-. split; [done|]. by apply Hframe.
Qed.

End Phases.

(** A run that returns has mosaicked what the staging phase left: when no
    mosaic path is an intermediate path, the file at the mosaic path of
    every channel is the combination, in the mode asked for and over the
    geogrid the staging phase returned, of the intermediate rasters of that
    channel as the staging phase left them, one per input in input order.
    The layover mosaic is the same over the layover rasters when every
    input exposes the mask, and is not written otherwise. *)
Theorem returned_run_mosaics_the_staged_rasters
    `{Collaborators} archives self (input_list : list string)
    out scratch mode prefix pols w w' :
  process_rtc_hdf5 archives self input_list out scratch mode prefix w
  = (Ok tt, w') ->
  extract_nisar_polarization archives input_list w = (Ok pols, w) ->
  (forall p,
     p ∈ mosaic_gtiff_path out prefix
           <$> generate_nisar_dataset_name (StrList pols) ->
     (p ∉ gtiff_paths scratch (generate_nisar_dataset_name (StrList pols))
                      input_list)
     /\ (p ∉ layover_paths scratch input_list)) ->
  exists g w1,
    write_rtc_geotiff archives self input_list out scratch
      (epsg_of archives <$> input_list)
      (generate_nisar_dataset_name (StrList pols))
      (frequencyA +:+ "layoverShadowMask") w
    = (Ok (forallb (exposes_layover archives) input_list, g), w1)
    /\ (forall dp, dp ∈ generate_nisar_dataset_name (StrList pols) ->
          exists rs,
            files w' !! mosaic_gtiff_path out prefix dp
            = Some (RMosaic rs mode g)
            /\ Forall2 (fun p r => files w1 !! p = Some r)
                 ((fun q => gtiff_path scratch (stem_prefix q)
                                       (data_name_of dp)) <$> input_list)
                 rs)
    /\ (if forallb (exposes_layover archives) input_list
        then (exists rs,
               files w' !! layover_mosaic_gtiff_path out prefix
               = Some (RMosaic rs mode g)
               /\ Forall2 (fun p r => files w1 !! p = Some r)
                    (layover_paths scratch input_list) rs)
        else files w' !! layover_mosaic_gtiff_path out prefix
             = files w1 !! layover_mosaic_gtiff_path out prefix).
Proof.
  intros Hrun Hpols Hdisj.
  destruct (process_rtc_hdf5_phases archives self input_list out scratch
              mode prefix w w' Hrun)
    as (pols' & le & g & w1 & Hpols' & Hne & Hall & Hwrite & Hmosaic).
  rewrite Hpols in Hpols'. injection Hpols' as <-.
  pose proof (write_rtc_geotiff_flag _ _ _ _ _ _ _ _ _ _ _ Hwrite) as ->.
  exists g, w1. split; [exact Hwrite|].
  by apply (mosaic_rtc_geotiff_contents archives _ _ _ _ _ _ _ _ _ _ _
              Hmosaic).
Qed.

Lemma returned_run_mosaics_the_staged_rasters_witness :
  exists g w1,
    @write_rtc_geotiff vote sample_archives reader_1x2
      ["/in/a.h5"; "/in/c.h5"]%string "/out" "/scratch"
      (epsg_of sample_archives <$> ["/in/a.h5"; "/in/c.h5"]%string)
      (generate_nisar_dataset_name (StrList ["HH"%string]))
      (frequencyA +:+ "layoverShadowMask") empty_world
    = (Ok (forallb (exposes_layover sample_archives)
                   ["/in/a.h5"; "/in/c.h5"]%string, g), w1)
    /\ (forall dp, dp ∈ generate_nisar_dataset_name (StrList ["HH"%string]) ->
          exists rs,
            files (snd (sample_run ["/in/a.h5"; "/in/c.h5"]%string))
              !! mosaic_gtiff_path "/out" "mosaic" dp
            = Some (RMosaic rs "average" g)
            /\ Forall2 (fun p r => files w1 !! p = Some r)
                 ((fun q => gtiff_path "/scratch" (stem_prefix q)
                                       (data_name_of dp))
                    <$> ["/in/a.h5"; "/in/c.h5"]%string)
                 rs)
    /\ (if forallb (exposes_layover sample_archives)
                   ["/in/a.h5"; "/in/c.h5"]%string
        then (exists rs,
               files (snd (sample_run ["/in/a.h5"; "/in/c.h5"]%string))
                 !! layover_mosaic_gtiff_path "/out" "mosaic"
               = Some (RMosaic rs "average" g)
               /\ Forall2 (fun p r => files w1 !! p = Some r)
                    (layover_paths "/scratch"
                       ["/in/a.h5"; "/in/c.h5"]%string) rs)
        else files (snd (sample_run ["/in/a.h5"; "/in/c.h5"]%string))
               !! layover_mosaic_gtiff_path "/out" "mosaic"
             = files w1 !! layover_mosaic_gtiff_path "/out" "mosaic").
Proof.
  apply (@returned_run_mosaics_the_staged_rasters vote sample_archives
           reader_1x2 ["/in/a.h5"; "/in/c.h5"]%string "/out" "/scratch"
           "average" "mosaic" ["HH"%string] empty_world).
  - vm_compute. reflexivity.
  - vm_compute. reflexivity.
  - apply (proj1 (Forall_forall
      (fun p : string =>
         (p ∉ gtiff_paths "/scratch"
                (generate_nisar_dataset_name (StrList ["HH"%string]))
                ["/in/a.h5"; "/in/c.h5"]%string)
         /\ (p ∉ layover_paths "/scratch"
                   ["/in/a.h5"; "/in/c.h5"]%string)) _)).
    apply (bool_decide_unpack _). by vm_compute.
Defined.

(** [run] passes the scratch directory as output directory: when an input's
    file-name identifier equals the mosaic prefix, the mosaic of each
    channel is requested with an output path that is one of its own input
    paths, and it replaces the intermediate raster of that input. *)
Theorem run_mosaic_replaces_input_with_same_prefix
    `{Collaborators} archives cfg (q : string) w w' :
  run archives cfg w = (Ok tt, w') ->
  q ∈ input_file_path cfg ->
  stem_prefix q = mosaic_prefix cfg ->
  exists pols g,
    extract_nisar_polarization archives (input_file_path cfg) w = (Ok pols, w)
    /\ forall dp, dp ∈ generate_nisar_dataset_name (StrList pols) ->
         exists ins,
           (ins, gtiff_path (scratch_path cfg) (stem_prefix q)
                            (data_name_of dp)) ∈ mosaics (log w')
           /\ gtiff_path (scratch_path cfg) (stem_prefix q) (data_name_of dp)
              ∈ ins
           /\ is_mosaic (mosaic_mode cfg) g
                (files w' !! gtiff_path (scratch_path cfg) (stem_prefix q)
                                        (data_name_of dp)).
Proof.
  unfold run. cbv zeta. intros Hrun Hq Hprefix.
  rewrite (bind_Ok _ _ _ tt w) in Hrun by reflexivity.
  destruct (process_rtc_hdf5_phases archives _ _ _ _ _ _ _ _ Hrun)
    as (pols & le & g & w1 & Hpols & Hne & Hall & Hwrite & Hmosaic).
  exists pols, g. split; [done|]. intros dp Hdp.
  match type of Hwrite with
  | write_rtc_geotiff _ ?self ?l ?o ?s ?e ?d ?lp _ = _ =>
      pose proof (keeps_write_rtc_geotiff archives self (mosaics (log w))
                    l o s e d lp w eq_refl) as Hw1
  end.
  rewrite Hwrite in Hw1. simpl in Hw1.
  pose proof (mosaic_rtc_geotiff_requested archives _ _ _ _ _ _ _ _ _ _ _ _
                Hw1 Hmosaic) as Hreq.
  destruct (mosaic_rtc_geotiff_outputs archives _ _ _ _ _ _ _ _ _ _ _ Hmosaic)
    as (Hchan & _ & _).
  exists ((fun q' => gtiff_path (scratch_path cfg) (stem_prefix q')
                                (data_name_of dp)) <$> input_file_path cfg).
  split; [|split].
  - unfold requested in Hreq. rewrite Hreq.
    apply elem_of_app. right. apply elem_of_app. left.
    apply list_elem_of_fmap. exists dp. split; [|done].
    unfold channel_mosaic. rewrite Hprefix. reflexivity.
  - apply list_elem_of_fmap. by exists q.
  - rewrite Hprefix. apply (Hchan dp Hdp).
Qed.

Lemma run_mosaic_replaces_input_with_same_prefix_witness :
  exists pols g,
    extract_nisar_polarization sample_archives (input_file_path sample_cfg)
      empty_world = (Ok pols, empty_world)
    /\ forall dp, dp ∈ generate_nisar_dataset_name (StrList pols) ->
         exists ins,
           (ins, gtiff_path (scratch_path sample_cfg) (stem_prefix "/in/a.h5")
                            (data_name_of dp))
           ∈ mosaics (log (snd (@run vote sample_archives sample_cfg
                                  empty_world)))
           /\ gtiff_path (scratch_path sample_cfg) (stem_prefix "/in/a.h5")
                         (data_name_of dp) ∈ ins
           /\ is_mosaic (mosaic_mode sample_cfg) g
                (files (snd (@run vote sample_archives sample_cfg empty_world))
                   !! gtiff_path (scratch_path sample_cfg)
                                 (stem_prefix "/in/a.h5") (data_name_of dp)).
Proof.
  apply (@run_mosaic_replaces_input_with_same_prefix vote sample_archives
           sample_cfg "/in/a.h5" empty_world).
  - vm_compute. reflexivity.
  - left.
  - reflexivity.
Defined.

(** ** Temporary files *)

Section Temporary.

Context `{Collaborators}.
Variable archives : Archives.
Variable self : RTCReader.
Variable scratch : string.
Variable T : list string.

(** A reprojection that returns has moved its temporary file away. *)
Lemma reproject_step_clears input_gtiff temp_gtiff stale most g w g' w' :
  (do _ <- change_epsg_tif input_gtiff temp_gtiff most 255;
   do geogrid_in <- update_geogrid g stale;
   do _ <- os_replace temp_gtiff input_gtiff;
   ret geogrid_in) w = (Ok g', w') ->
  temp_gtiff ∈ T -> input_gtiff ∉ T ->
  no_file T w -> no_file T w'.
Proof.
  intros Hb Htemp Hin Hno.
  assert (Hne : input_gtiff <> temp_gtiff) by (by intros ->).
  destruct (reproject_step most _ _ _ _ _ _ _ Hb Hne)
    as [_ Hframe].
  apply bind_Ok_inv in Hb as ([] & w1 & Hwarp & Hb).
  apply bind_Ok_inv in Hb as (g1 & w2 & Hupd & Hb).
  apply bind_Ok_inv in Hb as ([] & w3 & Hrep & Hb).
  injection Hb as _ <-.
  assert (Hgone : files w3 !! temp_gtiff = None).
  { unfold os_replace in Hrep.
    destruct (files w2 !! temp_gtiff); [|discriminate].
    injection Hrep as <-. simpl.
    rewrite lookup_insert_ne by done. apply lookup_delete_eq. }
  intros p Hp. destruct (decide (p = temp_gtiff)) as [->|Hpt]; [done|].
  rewrite Hframe; [by apply Hno| |done]. by intros ->.
Qed.


(** The channel loop of an input that is reprojected. *)
Lemma reproject_fold_clears most prefix dps acc w acc' w' :
  fold_ (fun dataset_path acc =>
    let loc := fst acc in
    let geogrid_in := snd acc in
    let data_name := data_name_of dataset_path in
    let input_gtiff := gtiff_path scratch prefix data_name in
    let temp_gtiff := temp_gtiff_path scratch prefix data_name in
    do _ <- change_epsg_tif input_gtiff temp_gtiff most 255;
    match output_gtiff loc with
    | None => raise UnboundLocalError
    | Some output_gtiff =>
        do geogrid_in <- update_geogrid geogrid_in output_gtiff;
        do _ <- os_replace temp_gtiff input_gtiff;
        ret (loc, geogrid_in)
    end) dps acc w = (Ok acc', w') ->
  (forall dp, dp ∈ dps ->
     temp_gtiff_path scratch prefix (data_name_of dp) ∈ T
     /\ gtiff_path scratch prefix (data_name_of dp) ∉ T) ->
  no_file T w -> no_file T w'.
Proof.
  revert acc w. induction dps as [|dp dps IH]; intros acc w Hb Hpaths Hno.
  - simpl in Hb. by injection Hb as _ <-.
  - simpl in Hb. apply bind_Ok_inv in Hb as (acc1 & w1 & Hstep & Hb).
    destruct (Hpaths dp) as [Htemp Hin]; [left|].
    apply (IH _ _ Hb); [intros dp' Hdp'; apply Hpaths; by right|].
    destruct (output_gtiff (fst acc)) as [stale|] eqn:Hstale.
    2:{ apply bind_Ok_inv in Hstep as ([] & w2 & _ & Hstep). discriminate. }
    apply (reproject_step_clears
             (gtiff_path scratch prefix (data_name_of dp))
             (temp_gtiff_path scratch prefix (data_name_of dp))
             stale most (snd acc) w (snd acc1) w1); try done.
    apply bind_Ok_inv in Hstep as ([] & w2 & Hwarp & Hstep).
    apply bind_Ok_inv in Hstep as (g1 & w3 & Hupd & Hstep).
    apply bind_Ok_inv in Hstep as ([] & w4 & Hrep & Hstep).
    injection Hstep as <- <-. simpl.
    rewrite (bind_Ok _ _ _ _ _ Hwarp), (bind_Ok _ _ _ _ _ Hupd).
    by rewrite (bind_Ok _ _ _ _ _ Hrep).
Qed.

Lemma harmonize_input_clears epsg_array most data_path n q acc w acc' w' :
  harmonize_input archives scratch epsg_array most data_path (n, q) acc w
  = (Ok acc', w') ->
  (forall dp, dp ∈ data_path ->
     temp_gtiff_path scratch (stem_prefix q) (data_name_of dp) ∈ T
     /\ gtiff_path scratch (stem_prefix q) (data_name_of dp) ∉ T) ->
  no_file T w -> no_file T w'.
Proof.
  unfold harmonize_input. simpl. intros Hb Hpaths Hno.
  apply bind_Ok_inv in Hb as (prefix & w1 & Hprefix & Hb).
  unfold extract_file_name in Hprefix.
  destruct (archives !! q); [|discriminate].
  injection Hprefix as <- <-.
  destruct (epsg_array !! n) as [e|]; [|discriminate].
  destruct (negb (e =? most)).
  - by eapply reproject_fold_clears.
  - apply conforming_fold in Hb as ->. done.
Qed.

Lemma harmonize_loop_clears epsg_array most data_path
    (ixs : list (nat * string)) acc w acc' w' :
  fold_ (harmonize_input archives scratch epsg_array most data_path)
        ixs acc w = (Ok acc', w') ->
  (forall ix dp, ix ∈ ixs -> dp ∈ data_path ->
     temp_gtiff_path scratch (stem_prefix (snd ix)) (data_name_of dp) ∈ T
     /\ gtiff_path scratch (stem_prefix (snd ix)) (data_name_of dp) ∉ T) ->
  no_file T w -> no_file T w'.
Proof.
  revert acc w. induction ixs as [|[n q] ixs IH]; intros acc w Hb Hpaths Hno.
  - simpl in Hb. by injection Hb as _ <-.
  - simpl in Hb. apply bind_Ok_inv in Hb as (acc1 & w1 & Hstep & Hb).
    apply (IH _ _ Hb); [intros ix dp Hix; apply Hpaths; by right|].
    apply (harmonize_input_clears _ _ _ _ _ _ _ _ _ Hstep); [|done].
    intros dp Hdp. apply (Hpaths (n, q) dp); [left|done].
Qed.

(** One turn of the layover loop. *)
Lemma layover_input_clears epsg_array most lp dv loc n q acc w r w' :
  layover_input archives self scratch epsg_array most lp dv loc (n, q) acc w
  = (Ok r, w') ->
  temp_layover_gtiff_path scratch q ∈ T ->
  layover_gtiff_path scratch q ∉ T ->
  no_file T w -> no_file T w'.
Proof.
  unfold layover_input. simpl. intros Hb Htemp Hin Hno.
  destruct (gdal_Open archives q lp) as [ds|].
  2:{ injection Hb as _ <-. exact Hno. }
  apply bind_Ok_inv in Hb as (prefix & w1 & Hprefix & Hb).
  unfold extract_file_name in Hprefix.
  destruct (archives !! q) eqn:Hq; [|discriminate].
  injection Hprefix as <- <-.
  destruct (num_rows loc) as [nr|], (row_blk_size loc) as [rb|],
    (geotransform loc) as [g|], (crs loc) as [c|],
    (dswx_metadata_dict loc) as [meta|]; try discriminate.
  apply bind_Ok_inv in Hb as ([] & w2 & Hwrite & Hb).
  fold (layover_gtiff_path scratch q) in *.
  fold (temp_layover_gtiff_path scratch q) in *.
  apply read_write_rtc_returns in Hwrite as (dst & Hw2 & _).
  assert (Hno2 : no_file T w2).
  { intros p Hp. rewrite Hw2. simpl.
    rewrite lookup_insert_ne; [by apply Hno|]. by intros <-. }
  clear Hw2.
  destruct (epsg_array !! n) as [e|]; [|discriminate].
  destruct (negb (e =? most)).
  - apply bind_Ok_inv in Hb as (prefix' & w3 & Hprefix & Hb).
    unfold extract_file_name in Hprefix. rewrite Hq in Hprefix.
    injection Hprefix as <- <-.
    fold (layover_gtiff_path scratch q) in *.
    fold (temp_layover_gtiff_path scratch q) in *.
    apply (reproject_step_clears
             (layover_gtiff_path scratch q)
             (temp_layover_gtiff_path scratch q)
             (layover_gtiff_path scratch q) most (snd acc) w2 (snd (fst r))
             w');
      try done.
    apply bind_Ok_inv in Hb as ([] & w4 & Hwarp & Hb).
    apply bind_Ok_inv in Hb as (g1 & w5 & Hupd & Hb).
    apply bind_Ok_inv in Hb as ([] & w6 & Hrep & Hb).
    injection Hb as <- <-. simpl.
    rewrite (bind_Ok _ _ _ _ _ Hwarp), (bind_Ok _ _ _ _ _ Hupd).
    by rewrite (bind_Ok _ _ _ _ _ Hrep).
  - apply bind_Ok_inv in Hb as (g1 & w3 & Hupd & Hb).
    injection Hb as _ <-.
    unfold update_geogrid in Hupd.
    apply bind_Ok_inv in Hupd as (r1 & w0 & Hread & Hupd).
    unfold read_file in Hread.
    destruct (files _ !! _); [|discriminate].
    injection Hread as _ <-. by injection Hupd as _ <-.
Qed.

Lemma layover_loop_clears epsg_array most lp dv loc
    (ixs : list (nat * string)) acc w eg w' :
  fold_break (layover_input archives self scratch epsg_array most lp dv loc)
             ixs acc w = (Ok eg, w') ->
  (forall ix, ix ∈ ixs ->
     temp_layover_gtiff_path scratch (snd ix) ∈ T
     /\ layover_gtiff_path scratch (snd ix) ∉ T) ->
  no_file T w -> no_file T w'.
Proof.
  revert acc w. induction ixs as [|[n q] ixs IH]; intros acc w Hb Hpaths Hno.
  - simpl in Hb. by injection Hb as _ <-.
  - simpl in Hb. apply bind_Ok_inv in Hb as (r & w1 & Hstep & Hb).
    destruct (Hpaths (n, q)) as [Htemp Hin]; [left|].
    pose proof (layover_input_clears _ _ _ _ _ _ _ _ _ _ _ Hstep Htemp Hin Hno)
      as Hno1.
    destruct (snd r).
    + by injection Hb as _ <-.
    + apply (IH _ _ Hb); [intros ix Hix; apply Hpaths; by right|done].
Qed.

End Temporary.

(** No temporary file is left behind by a staging phase that returns: when
    the temporary paths of the batch differ from its intermediate paths and
    none of them is a file before the call, none of them is a file after
    [write_rtc_geotiff]. *)
Theorem write_rtc_geotiff_leaves_no_temporary_file
    `{Collaborators} archives self (input_list : list string) out scratch
    epsg_array (data_path : list string) lp w lg w' :
  write_rtc_geotiff archives self input_list out scratch epsg_array
                    data_path lp w = (Ok lg, w') ->
  (forall p, p ∈ temp_paths scratch data_path input_list ->
     (p ∉ gtiff_paths scratch data_path input_list)
     /\ (p ∉ layover_paths scratch input_list)) ->
  no_file (temp_paths scratch data_path input_list) w ->
  no_file (temp_paths scratch data_path input_list) w'.
Proof.
  unfold write_rtc_geotiff. intros Hb Hdisj Hno.
  set (T := temp_paths scratch data_path input_list) in *.
  apply bind_Ok_inv in Hb as (loc & w1 & Hstage & Hb).
  apply bind_Ok_inv in Hb as (acc & w2 & Hharm & Hb).
  apply bind_Ok_inv in Hb as (eg & w3 & Hlay & Hb).
  assert (w3 = w') as ->.
  { destruct (fst eg); [by injection Hb|discriminate]. }
  assert (Hq : forall ix, ix ∈ enumerate input_list -> snd ix ∈ input_list).
  { intros [i q] Hix. apply elem_of_enumerate in Hix.
    by eapply list_elem_of_lookup_2. }
  assert (Hno1 : no_file T w1).
  { destruct (stage_loop_frame archives self scratch data_path _ _ _ _ _ _
                Hstage) as [Hframe _].
    intros p Hp. rewrite Hframe; [by apply Hno|]. by apply Hdisj. }
  assert (Hno2 : no_file T w2).
  { apply (harmonize_loop_clears archives scratch T _ _ _ _ _ _ _ _ Hharm);
      [|done].
    intros ix dp Hix Hdp.
    assert (Htemp : temp_gtiff_path scratch (stem_prefix (snd ix))
                                    (data_name_of dp) ∈ T).
    { unfold T, temp_paths. apply elem_of_app. left.
      apply list_elem_of_bind. exists (snd ix). split; [|by apply Hq].
      apply list_elem_of_bind. exists dp. split; [|done].
      by apply list_elem_of_singleton. }
    split; [done|]. intros Hin.
    destruct (Hdisj _ Hin) as [Hng _]. apply Hng.
    apply elem_of_gtiff_paths. exists (snd ix), dp. split; [by apply Hq|done]. }
  apply (layover_loop_clears archives self scratch T _ _ _ _ _ _ _ _ _ _ Hlay);
    [|done].
  intros ix Hix.
  assert (Htemp : temp_layover_gtiff_path scratch (snd ix) ∈ T).
  { unfold T, temp_paths. apply elem_of_app. right.
    apply list_elem_of_fmap. exists (snd ix). split; [done|by apply Hq]. }
  split; [done|]. intros Hin.
  destruct (Hdisj _ Hin) as [_ Hnl]. apply Hnl.
  unfold layover_paths. apply list_elem_of_fmap.
  exists (snd ix). split; [done|by apply Hq].
Qed.

Lemma write_rtc_geotiff_leaves_no_temporary_file_witness :
  no_file (temp_paths "/scratch" [HHHH]
                      ["/in/c.h5"; "/in/a.h5"; "/in/f.h5"]%string)
          (snd (sample_write ["/in/c.h5"; "/in/a.h5"; "/in/f.h5"]%string
                             [32611; 32610; 32610])).
Proof.
  pose (L := ["/in/c.h5"; "/in/a.h5"; "/in/f.h5"]%string).
  pose (E := [32611; 32610; 32610]).
  pose (lg := match fst (sample_write L E) with
              | Ok x => x
              | Raise _ => (false, [])
              end).
  apply (@write_rtc_geotiff_leaves_no_temporary_file vote sample_archives
           reader_1x2 L "/out" "/scratch" E [HHHH] layoverShadowMask
           empty_world lg).
  - vm_compute. reflexivity.
  - apply (proj1 (Forall_forall
      (fun p : string =>
         (p ∉ gtiff_paths "/scratch" [HHHH] L)
         /\ (p ∉ layover_paths "/scratch" L)) _)).
    apply (bool_decide_unpack _). by vm_compute.
  - intros p _. apply lookup_empty.
Defined.

(** ** A batch in one CRS *)

Section Conforming.

Context `{Collaborators}.
Variable archives : Archives.
Variable self : RTCReader.
Variable scratch : string.
Variable epsg_array : list Z.
Variable most : Z.
Hypothesis conforming :
  forall (i : nat) e, epsg_array !! i = Some e -> e = most.

Lemma only_tif_written_refl w : only_tif_written w w.
Proof. intros p. by left. Qed.

Lemma only_tif_written_trans w1 w2 w3 :
  only_tif_written w1 w2 -> only_tif_written w2 w3 ->
  only_tif_written w1 w3.
Proof.
  intros H12 H23 p. destruct (H23 p) as [Heq|Htif]; [|by right].
  rewrite Heq. apply H12.
Qed.

Lemma only_tif_written_insert w out dst :
  only_tif_written w
    {| files := <[out := RTif dst]> (files w); log := log w |}.
Proof.
  intros p. simpl. destruct (decide (p = out)) as [->|Hne].
  - right. exists dst. apply lookup_insert_eq.
  - left. by rewrite lookup_insert_ne.
Qed.

Lemma stage_fold_only_tif dv q g c meta dps loc w loc' w' :
  fold_ (fun dataset_path loc =>
    let data_name := data_name_of dataset_path in
    let output_gtiff := gtiff_path scratch (stem_prefix q) data_name in
    let loc := bind_output_gtiff loc output_gtiff in
    match gdal_Open archives q dataset_path with
    | None => raise AttributeError
    | Some h5_ds =>
        let num_cols := RasterXSize h5_ds in
        let num_rows := RasterYSize h5_ds in
        let row_blk_size := self_row_blk_size self in
        let col_blk_size := self_col_blk_size self in
        do _ <- read_write_rtc self h5_ds output_gtiff num_rows num_cols
                  row_blk_size col_blk_size dv g c meta;
        ret (bind_rows loc num_rows row_blk_size)
    end) dps loc w = (Ok loc', w') ->
  only_tif_written w w'.
Proof.
  revert loc w. induction dps as [|dp dps IH]; intros loc w Hb.
  - simpl in Hb. injection Hb as _ <-. apply only_tif_written_refl.
  - simpl in Hb. apply bind_Ok_inv in Hb as (loc2 & w2 & Hturn & Hb).
    destruct (gdal_Open archives q dp) as [ds|]; [|discriminate].
    apply bind_Ok_inv in Hturn as ([] & w3 & Hwrite & Hturn).
    injection Hturn as <- <-.
    apply read_write_rtc_returns in Hwrite as (dst & -> & _).
    eapply only_tif_written_trans; [apply only_tif_written_insert|].
    by eapply IH.
Qed.

Lemma stage_loop_only_tif data_path dv (input_list : list string)
    loc w loc' w' :
  fold_ (stage_input archives self scratch data_path dv) input_list loc w
  = (Ok loc', w') ->
  only_tif_written w w'.
Proof.
  revert loc w. induction input_list as [|q l IH]; intros loc w Hb.
  - simpl in Hb. injection Hb as _ <-. apply only_tif_written_refl.
  - simpl in Hb. apply bind_Ok_inv in Hb as (loc1 & w1 & Hstep & Hb).
    apply (only_tif_written_trans _ w1); [|by eapply IH].
    clear Hb IH. unfold stage_input in Hstep.
    apply bind_Ok_inv in Hstep as (prefix & w2 & Hprefix & Hstep).
    assert (prefix = stem_prefix q /\ w2 = w) as [-> ->].
    { unfold extract_file_name in Hprefix.
      destruct (archives !! q); [|discriminate]. by injection Hprefix. }
    apply bind_Ok_inv in Hstep as ([g c] & w2 & Hgeo & Hstep).
    apply read_geodata_hdf5_pure in Hgeo as [-> _].
    apply bind_Ok_inv in Hstep as (meta & w2 & Hmeta & Hstep).
    apply read_metadata_hdf5_pure in Hmeta as [-> _].
    simpl in Hstep. by eapply stage_fold_only_tif.
Qed.

(** The channel loop of an input in the most frequent CRS registers the
    raster of each channel. *)
Lemma conforming_fold_geogrid prefix dps acc w acc' w' :
  fold_ (fun dataset_path acc =>
    let loc := fst acc in
    let geogrid_in := snd acc in
    let data_name := data_name_of dataset_path in
    let output_gtiff := gtiff_path scratch prefix data_name in
    let loc := bind_output_gtiff loc output_gtiff in
    do geogrid_in <- update_geogrid geogrid_in output_gtiff;
    ret (loc, geogrid_in)) dps acc w = (Ok acc', w') ->
  fst <$> snd acc'
  = (fst <$> snd acc)
    ++ ((fun dp => gtiff_path scratch prefix (data_name_of dp)) <$> dps).
Proof.
  revert acc w. induction dps as [|dp dps IH]; intros acc w Hb.
  - simpl in Hb. injection Hb as <- _. by rewrite app_nil_r.
  - simpl in Hb. apply bind_Ok_inv in Hb as (acc1 & w1 & Hstep & Hb).
    apply IH in Hb. rewrite Hb. clear Hb.
    apply bind_Ok_inv in Hstep as (g1 & w2 & Hupd & Hstep).
    injection Hstep as <- _.
    unfold update_geogrid in Hupd.
    apply bind_Ok_inv in Hupd as (r & w3 & _ & Hupd).
    injection Hupd as <- _. simpl.
    by rewrite fmap_app, <- app_assoc.
Qed.

Lemma harmonize_loop_conforming data_path (ixs : list (nat * string))
    acc w acc' w' :
  fold_ (harmonize_input archives scratch epsg_array most data_path)
        ixs acc w = (Ok acc', w') ->
  w' = w
  /\ fst <$> snd acc'
     = (fst <$> snd acc) ++ gtiff_paths scratch data_path (snd <$> ixs).
Proof.
  revert acc w. induction ixs as [|[n q] ixs IH]; intros acc w Hb.
  - simpl in Hb. injection Hb as <- <-. by rewrite app_nil_r.
  - simpl in Hb. apply bind_Ok_inv in Hb as (acc1 & w1 & Hstep & Hb).
    apply IH in Hb as [-> Hg]. rewrite Hg. clear Hg IH.
    unfold harmonize_input in Hstep. simpl in Hstep.
    apply bind_Ok_inv in Hstep as (prefix & w2 & Hprefix & Hstep).
    unfold extract_file_name in Hprefix.
    destruct (archives !! q); [|discriminate].
    injection Hprefix as <- <-.
    destruct (epsg_array !! n) as [e|] eqn:He; [|discriminate].
    rewrite (conforming n e He), Z.eqb_refl in Hstep. simpl in Hstep.
    pose proof (conforming_fold _ _ _ _ _ _ _ Hstep) as ->.
    apply conforming_fold_geogrid in Hstep. rewrite Hstep.
    split; [done|].
    change (snd <$> (n, q) :: ixs) with ([q] ++ (snd <$> ixs)).
    by rewrite gtiff_paths_app, gtiff_paths_single, <- app_assoc.
Qed.

(** The layover loop registers the layover raster of each input up to the
    first one without a mask, and ends with the flag telling whether every
    input had one. *)
Lemma layover_loop_conforming lp dv loc (ixs : list (nat * string))
    acc w eg w' :
  fold_break (layover_input archives self scratch epsg_array most lp dv loc)
             ixs acc w = (Ok eg, w') ->
  only_tif_written w w'
  /\ fst <$> snd eg
     = (fst <$> snd acc)
       ++ layover_paths scratch
            (take_while (exposes_layer archives lp) (snd <$> ixs))
  /\ fst eg = match ixs with
              | [] => fst acc
              | _ => Some (forallb (exposes_layer archives lp) (snd <$> ixs))
              end.
Proof.
  revert acc w. induction ixs as [|[n q] ixs IH]; intros acc w Hb.
  - simpl in Hb. injection Hb as <- <-.
    split; [apply only_tif_written_refl|].
    simpl. by rewrite app_nil_r.
  - simpl in Hb. apply bind_Ok_inv in Hb as (r & w1 & Hstep & Hb).
    unfold layover_input in Hstep. simpl in Hstep.
    rewrite fmap_cons. cbn [snd take_while forallb].
    unfold exposes_layer at 1 3.
    destruct (gdal_Open archives q lp) as [ds|].
    2:{ injection Hstep as <- <-. simpl in Hb. injection Hb as <- <-.
        split; [intros p; by left|]. simpl.
        by rewrite app_nil_r. }
    apply bind_Ok_inv in Hstep as (prefix & w2 & Hprefix & Hstep).
    unfold extract_file_name in Hprefix.
    destruct (archives !! q) eqn:Hq; [|discriminate].
    injection Hprefix as <- <-.
    destruct (num_rows loc) as [nr|], (row_blk_size loc) as [rb|],
      (geotransform loc) as [g|], (crs loc) as [c|],
      (dswx_metadata_dict loc) as [meta|]; try discriminate.
    apply bind_Ok_inv in Hstep as ([] & w2 & Hwrite & Hstep).
    fold (layover_gtiff_path scratch q) in *.
    apply read_write_rtc_returns in Hwrite as (dst & Hw2 & _).
    destruct (epsg_array !! n) as [e|] eqn:He; [|discriminate].
    rewrite (conforming n e He), Z.eqb_refl in Hstep. simpl in Hstep.
    apply bind_Ok_inv in Hstep as (g1 & w3 & Hupd & Hstep).
    injection Hstep as <- <-. simpl in Hb.
    unfold update_geogrid in Hupd.
    apply bind_Ok_inv in Hupd as (r1 & w0 & Hread & Hupd).
    unfold read_file in Hread.
    destruct (files w2 !! _); [|discriminate].
    injection Hread as _ <-. injection Hupd as <- <-.
    destruct (IH _ _ Hb) as (Htif & Hg & Hk). simpl in Hg, Hk.
    split; [|split].
    + eapply only_tif_written_trans; [|exact Htif].
      rewrite Hw2. apply only_tif_written_insert.
    + rewrite Hg, fmap_app. simpl. by rewrite <- app_assoc.
    + rewrite Hk. by destruct ixs.
Qed.

End Conforming.

(** When the EPSG code of every input is the most frequent one, nothing is
    reprojected by a staging phase that returns: every file it leaves is
    as it was before or is a GeoTIFF the reader wrote; the geogrid has
    registered the raster of each channel of each input, in input order,
    followed by the layover raster of each input before the first one
    without a mask, and of no other; and the flag returned tells whether
    every input has a mask. *)
Theorem conforming_batch_registers_every_raster
    `{Collaborators} archives self (input_list : list string) out scratch
    epsg_array (data_path : list string) lp w le g w' :
  write_rtc_geotiff archives self input_list out scratch epsg_array
                    data_path lp w = (Ok (le, g), w') ->
  (forall (i : nat) e,
     epsg_array !! i = Some e -> e = majority_element epsg_array) ->
  only_tif_written w w'
  /\ fst <$> g
     = gtiff_paths scratch data_path input_list
       ++ layover_paths scratch
            (take_while (exposes_layer archives lp) input_list)
  /\ le = forallb (exposes_layer archives lp) input_list.
Proof.
  unfold write_rtc_geotiff. intros Hb Hconf.
  apply bind_Ok_inv in Hb as (loc & w1 & Hstage & Hb).
  apply bind_Ok_inv in Hb as (acc & w2 & Hharm & Hb).
  apply bind_Ok_inv in Hb as (eg & w3 & Hlay & Hb).
  destruct (fst eg) as [le'|] eqn:Hle; [|discriminate].
  injection Hb as -> <- ->.
  apply stage_loop_only_tif in Hstage.
  apply (harmonize_loop_conforming archives scratch epsg_array _ Hconf)
    in Hharm as [-> Hg1].
  apply (layover_loop_conforming archives self scratch epsg_array _ Hconf)
    in Hlay as (Htif & Hg2 & Hk).
  rewrite snd_enumerate in Hg1, Hg2, Hk. simpl in Hg1.
  split; [by eapply only_tif_written_trans|]. split.
  - rewrite Hg2. simpl. by rewrite Hg1.
  - rewrite Hle in Hk.
    destruct (enumerate input_list); simpl in Hk; [discriminate|].
    by injection Hk.
Qed.

Lemma conforming_batch_registers_every_raster_witness :
  only_tif_written empty_world
    (snd (sample_write ["/in/a.h5"; "/in/b.h5"; "/in/f.h5"]%string
                       [32610; 32610; 32610]))
  /\ fst <$> snd (match fst (sample_write
                               ["/in/a.h5"; "/in/b.h5"; "/in/f.h5"]%string
                               [32610; 32610; 32610]) with
                  | Ok lg => lg
                  | Raise _ => (false, [])
                  end)
     = gtiff_paths "/scratch" [HHHH]
         ["/in/a.h5"; "/in/b.h5"; "/in/f.h5"]%string
       ++ layover_paths "/scratch"
            (take_while (exposes_layer sample_archives layoverShadowMask)
               ["/in/a.h5"; "/in/b.h5"; "/in/f.h5"]%string)
  /\ false = forallb (exposes_layer sample_archives layoverShadowMask)
              ["/in/a.h5"; "/in/b.h5"; "/in/f.h5"]%string.
Proof.
  pose (L := ["/in/a.h5"; "/in/b.h5"; "/in/f.h5"]%string).
  pose (E := [32610; 32610; 32610]).
  pose (lg := match fst (sample_write L E) with
              | Ok x => x
              | Raise _ => (false, [])
              end).
  apply (@conforming_batch_registers_every_raster vote sample_archives
           reader_1x2 L "/out" "/scratch" E [HHHH] layoverShadowMask
           empty_world false (snd lg)).
  - vm_compute. reflexivity.
  - intros [|[|[|i]]] e; simpl; intros [=]; subst; by vm_compute.
Defined.

(** ** The paths the staging phase touches *)

Section RunFrame.

Context `{Collaborators}.
Variable archives : Archives.
Variable self : RTCReader.
Variable scratch : string.

Lemma gtiff_path_not_temp prefix data_name :
  gtiff_path scratch prefix data_name
  <> temp_gtiff_path scratch prefix data_name.
Proof.
  unfold gtiff_path, temp_gtiff_path. intros Heq.
  do 3 apply append_inj_l in Heq.
  apply (f_equal String.length) in Heq. simpl in Heq.
  rewrite !str_length_app in Heq. simpl in Heq. lia.
Qed.

Lemma reproject_fold_frame most prefix dps acc w acc' w' p :
  fold_ (fun dataset_path acc =>
    let loc := fst acc in
    let geogrid_in := snd acc in
    let data_name := data_name_of dataset_path in
    let input_gtiff := gtiff_path scratch prefix data_name in
    let temp_gtiff := temp_gtiff_path scratch prefix data_name in
    do _ <- change_epsg_tif input_gtiff temp_gtiff most 255;
    match output_gtiff loc with
    | None => raise UnboundLocalError
    | Some output_gtiff =>
        do geogrid_in <- update_geogrid geogrid_in output_gtiff;
        do _ <- os_replace temp_gtiff input_gtiff;
        ret (loc, geogrid_in)
    end) dps acc w = (Ok acc', w') ->
  (forall dp, dp ∈ dps ->
     p <> gtiff_path scratch prefix (data_name_of dp)
     /\ p <> temp_gtiff_path scratch prefix (data_name_of dp)) ->
  files w' !! p = files w !! p.
Proof.
  revert acc w. induction dps as [|dp dps IH]; intros acc w Hb Hp.
  - simpl in Hb. by injection Hb as _ <-.
  - simpl in Hb. apply bind_Ok_inv in Hb as (acc1 & w1 & Hstep & Hb).
    destruct (Hp dp) as [Hne1 Hne2]; [left|].
    rewrite (IH _ _ Hb) by (intros dp' Hdp'; apply Hp; by right).
    destruct (output_gtiff (fst acc)) as [stale|] eqn:Hstale.
    2:{ apply bind_Ok_inv in Hstep as ([] & w2 & _ & Hstep). discriminate. }
    assert (Hrep :
      (do _ <- change_epsg_tif (gtiff_path scratch prefix (data_name_of dp))
                 (temp_gtiff_path scratch prefix (data_name_of dp)) most 255;
       do geogrid_in <- update_geogrid (snd acc) stale;
       do _ <- os_replace (temp_gtiff_path scratch prefix (data_name_of dp))
                 (gtiff_path scratch prefix (data_name_of dp));
       ret geogrid_in) w = (Ok (snd acc1), w1)).
    { apply bind_Ok_inv in Hstep as ([] & w2 & Hwarp & Hstep).
      apply bind_Ok_inv in Hstep as (g1 & w3 & Hupd & Hstep).
      apply bind_Ok_inv in Hstep as ([] & w4 & Hmove & Hstep).
      injection Hstep as <- <-. simpl.
      rewrite (bind_Ok _ _ _ _ _ Hwarp), (bind_Ok _ _ _ _ _ Hupd).
      by rewrite (bind_Ok _ _ _ _ _ Hmove). }
    apply reproject_step in Hrep as [_ Hframe];
      [by apply Hframe|apply gtiff_path_not_temp].
Qed.

Lemma harmonize_loop_frame epsg_array most data_path
    (ixs : list (nat * string)) acc w acc' w' p :
  fold_ (harmonize_input archives scratch epsg_array most data_path)
        ixs acc w = (Ok acc', w') ->
  (forall ix dp, ix ∈ ixs -> dp ∈ data_path ->
     p <> gtiff_path scratch (stem_prefix (snd ix)) (data_name_of dp)
     /\ p <> temp_gtiff_path scratch (stem_prefix (snd ix)) (data_name_of dp)) ->
  files w' !! p = files w !! p.
Proof.
  revert acc w. induction ixs as [|[n q] ixs IH]; intros acc w Hb Hp.
  - simpl in Hb. by injection Hb as _ <-.
  - simpl in Hb. apply bind_Ok_inv in Hb as (acc1 & w1 & Hstep & Hb).
    rewrite (IH _ _ Hb) by (intros ix dp Hix; apply Hp; by right).
    unfold harmonize_input in Hstep. simpl in Hstep.
    apply bind_Ok_inv in Hstep as (prefix & w2 & Hprefix & Hstep).
    unfold extract_file_name in Hprefix.
    destruct (archives !! q); [|discriminate].
    injection Hprefix as <- <-.
    destruct (epsg_array !! n) as [e|]; [|discriminate].
    destruct (negb (e =? most)).
    + apply (reproject_fold_frame _ _ _ _ _ _ _ _ Hstep).
      intros dp Hdp. apply (Hp (n, q) dp); [left|done].
    + by apply conforming_fold in Hstep as ->.
Qed.

Lemma layover_loop_frame epsg_array most lp dv loc
    (ixs : list (nat * string)) acc w eg w' p :
  fold_break (layover_input archives self scratch epsg_array most lp dv loc)
             ixs acc w = (Ok eg, w') ->
  (forall ix, ix ∈ ixs ->
     p <> layover_gtiff_path scratch (snd ix)
     /\ p <> temp_layover_gtiff_path scratch (snd ix)) ->
  files w' !! p = files w !! p.
Proof.
  revert acc w. induction ixs as [|[n q] ixs IH]; intros acc w Hb Hp.
  - simpl in Hb. by injection Hb as _ <-.
  - simpl in Hb. apply bind_Ok_inv in Hb as (r & w1 & Hstep & Hb).
    destruct (Hp (n, q)) as [Hne1 Hne2]; [left|].
    assert (Hturn : files w1 !! p = files w !! p).
    { destruct (gdal_Open archives q lp) as [ds|] eqn:Hds.
      - destruct (layover_input_files archives self scratch epsg_array most
                    lp dv loc n q acc w r w1 ds Hstep Hds)
          as (e & dst & _ & _ & _ & Hframe).
        by apply Hframe.
      - rewrite (layover_input_missing archives self scratch epsg_array most
                   lp dv loc n q acc w Hds) in Hstep.
        by injection Hstep as _ <-. }
    destruct (snd r).
    + by injection Hb as _ <-.
    + rewrite (IH _ _ Hb) by (intros ix Hix; apply Hp; by right). done.
Qed.

End RunFrame.

(** A staging phase that returns has touched no file but the intermediate
    rasters of the batch, channel and layover, and their temporary files:
    the reader writes the intermediate paths, the reprojection goes from
    an intermediate path to its temporary twin, and [os.replace] moves the
    twin back; every other path holds what it held before. *)
Theorem write_rtc_geotiff_touches_only_its_own_paths
    `{Collaborators} archives self (input_list : list string) out scratch
    epsg_array (data_path : list string) lp w lg w' (p : string) :
  write_rtc_geotiff archives self input_list out scratch epsg_array
                    data_path lp w = (Ok lg, w') ->
  p ∉ gtiff_paths scratch data_path input_list ->
  p ∉ layover_paths scratch input_list ->
  p ∉ temp_paths scratch data_path input_list ->
  files w' !! p = files w !! p.
Proof.
  intros Hwrite Hgt Hlay Htemp.
  unfold write_rtc_geotiff in Hwrite.
  apply bind_Ok_inv in Hwrite as (loc & w2 & Hstage & Hwrite).
  apply bind_Ok_inv in Hwrite as (acc & w3 & Hharm & Hwrite).
  apply bind_Ok_inv in Hwrite as (eg & w4 & Hloop & Hwrite).
  assert (w4 = w') as ->.
  { destruct (fst eg); [by injection Hwrite|discriminate]. }
  assert (Hq : forall ix, ix ∈ enumerate input_list -> snd ix ∈ input_list).
  { intros [i q] Hix. apply elem_of_enumerate in Hix.
    by eapply list_elem_of_lookup_2. }
  rewrite (layover_loop_frame archives self scratch _ _ _ _ _ _ _ _ _ _ p
             Hloop).
  2:{ intros ix Hix. split; intros ->.
      - apply Hlay. unfold layover_paths. apply list_elem_of_fmap.
        exists (snd ix). split; [done|by apply Hq].
      - apply Htemp. unfold temp_paths. apply elem_of_app. right.
        apply list_elem_of_fmap. exists (snd ix). split; [done|by apply Hq]. }
  rewrite (harmonize_loop_frame archives scratch _ _ _ _ _ _ _ _ p Hharm).
  2:{ intros ix dp Hix Hdp. split; intros ->.
      - apply Hgt. apply elem_of_gtiff_paths.
        exists (snd ix), dp. split; [by apply Hq|done].
      - apply Htemp. unfold temp_paths. apply elem_of_app. left.
        apply list_elem_of_bind. exists (snd ix). split; [|by apply Hq].
        apply list_elem_of_bind. exists dp. split; [|done].
        by apply list_elem_of_singleton. }
  destruct (stage_loop_frame archives self scratch _ _ _ _ _ _ _ Hstage)
    as [Hframe _].
  by apply Hframe.
Qed.

Lemma write_rtc_geotiff_touches_only_its_own_paths_witness :
  files (snd (sample_write ["/in/c.h5"; "/in/a.h5"; "/in/f.h5"]%string
                           [32611; 32610; 32610]))
    !! "/scratch/c_HH.tif.aux.xml"%string
  = files empty_world !! "/scratch/c_HH.tif.aux.xml"%string.
Proof.
  pose (L := ["/in/c.h5"; "/in/a.h5"; "/in/f.h5"]%string).
  pose (E := [32611; 32610; 32610]).
  pose (lg := match fst (sample_write L E) with
              | Ok x => x
              | Raise _ => (false, [])
              end).
  apply (@write_rtc_geotiff_touches_only_its_own_paths vote sample_archives
           reader_1x2 L "/out" "/scratch" E [HHHH] layoverShadowMask
           empty_world lg).
  - vm_compute. reflexivity.
  - apply (bool_decide_unpack _). by vm_compute.
  - apply (bool_decide_unpack _). by vm_compute.
  - apply (bool_decide_unpack _). by vm_compute.
Defined.

(** ** The membership functions [smf] and [zmf] *)

Section FloatOrder.

Lemma SFcompare_antisym x y c :
  SFcompare x y = Some c -> SFcompare y x = Some (CompOpp c).
Proof.
  destruct x as [sx|sx| |sx mx ex], y as [sy|sy| |sy my ey]; simpl;
    try discriminate; intros [= <-];
    repeat match goal with b : bool |- _ => destruct b end; simpl;
    try reflexivity.
  - rewrite (Z.compare_antisym ex ey).
    destruct (ex ?= ey); simpl; try reflexivity.
    change (Pos.compare_cont Eq my mx) with (Pos.compare my mx).
    change (Pos.compare_cont Eq mx my) with (Pos.compare mx my).
    by rewrite (Pos.compare_antisym mx my).
  - rewrite (Z.compare_antisym ex ey).
    destruct (ex ?= ey); simpl; try reflexivity.
    change (Pos.compare_cont Eq my mx) with (Pos.compare my mx).
    change (Pos.compare_cont Eq mx my) with (Pos.compare mx my).
    rewrite (Pos.compare_antisym mx my). by destruct (mx ?= my)%positive.
Qed.

Lemma SFcompare_total x y :
  x <> S754_nan -> y <> S754_nan -> is_Some (SFcompare x y).
Proof. destruct x, y; simpl; try done; intros; by eexists. Qed.

Lemma SFltb_SFleb_false x y : SFltb x y = true -> SFleb y x = false.
Proof.
  unfold SFltb, SFleb.
  destruct (SFcompare x y) as [[]|] eqn:E; try discriminate.
  intros _. by rewrite (SFcompare_antisym _ _ _ E).
Qed.

Lemma SFleb_false_SFltb x y :
  x <> S754_nan -> y <> S754_nan -> SFleb x y = false -> SFltb y x = true.
Proof.
  intros Hx Hy. unfold SFltb, SFleb.
  destruct (SFcompare_total x y Hx Hy) as [c E]. rewrite E.
  rewrite (SFcompare_antisym _ _ _ E). by destruct c.
Qed.

Lemma SFltb_SFleb x y : SFltb x y = true -> SFleb x y = true.
Proof. unfold SFltb, SFleb. by destruct (SFcompare x y) as [[]|]. Qed.

Lemma SFleb_nan_l y : SFleb S754_nan y = false.
Proof. reflexivity. Qed.

Lemma SFleb_nan_r x : SFleb x S754_nan = false.
Proof. unfold SFleb. by destruct x. Qed.

Lemma SFleb_not_nan x y : SFleb x y = true -> x <> S754_nan /\ y <> S754_nan.
Proof.
  intros Hle. split; intros ->.
  - by rewrite SFleb_nan_l in Hle.
  - by rewrite SFleb_nan_r in Hle.
Qed.

Lemma SFleb_trans x y z :
  SFleb x y = true -> SFleb y z = true -> SFleb x z = true.
Proof.
  unfold SFleb.
  destruct x as [sx|sx| |sx mx ex], y as [sy|sy| |sy my ey],
           z as [sz|sz| |sz mz ez]; simpl; try discriminate;
    repeat match goal with b : bool |- _ => destruct b end; simpl;
    try discriminate; try reflexivity; intros H1 H2; cmp_cases;
    try reflexivity; try lia.
Qed.

(** Below a threshold that is itself below another one. *)
Lemma SFleb_below x lo hi :
  x <> S754_nan -> SFleb lo hi = true -> SFleb lo x = false ->
  SFleb x hi = true.
Proof.
  intros Hx Hle Hnot.
  destruct (SFleb_not_nan _ _ Hle) as [Hlo _].
  apply (SFleb_trans x lo hi); [|done].
  apply SFltb_SFleb. by apply SFleb_false_SFltb.
Qed.

End FloatOrder.

(** [smf] outside the thresholds: an element at or above [maxv] maps to 1
    whatever [minv] is; an element at or below [minv] and below [maxv] maps
    to 0; a NaN maps to 0; and when the thresholds coincide or are inverted
    ([maxv <= minv] as [float32]) the function is the step at [maxv] on
    every element that is not a NaN, the division by a zero width
    notwithstanding. *)
Theorem smf_saturates (values : list spec_float) (minv maxv : spec_float)
    (i : nat) (v : spec_float) :
  values !! i = Some v ->
  smf values minv maxv !! i = Some (smf_value minv maxv v)
  /\ (np_ge (f32_of_f64 v) (f32_of_f64 maxv) = true ->
      smf_value minv maxv v = np_float32 1)
  /\ (np_le (f32_of_f64 v) (f32_of_f64 minv) = true ->
      np_ge (f32_of_f64 v) (f32_of_f64 maxv) = false ->
      smf_value minv maxv v = np_float32 0)
  /\ (f32_of_f64 v = S754_nan -> smf_value minv maxv v = S754_zero false)
  /\ (SFleb (f32_of_f64 maxv) (f32_of_f64 minv) = true ->
      f32_of_f64 v <> S754_nan ->
      smf_value minv maxv v
      = if np_ge (f32_of_f64 v) (f32_of_f64 maxv)
        then np_float32 1 else np_float32 0).
Proof.
  intros Hv. split.
  { unfold smf. by rewrite list_lookup_fmap, Hv. }
  unfold smf_value. cbv zeta. unfold np_ge, np_le.
  split; [|split; [|split]].
  - by intros ->.
  - by intros -> ->.
  - intros ->. by rewrite !SFleb_nan_l, !SFleb_nan_r.
  - intros Hle Hnan.
    destruct (SFleb (f32_of_f64 maxv) (f32_of_f64 v)) eqn:Hge; [done|].
    by rewrite (SFleb_below _ _ _ Hnan Hle Hge).
Qed.

Lemma smf_saturates_witness :
  smf [f64_of_Z 50; f64_of_Z 3] (f64_of_Z 5) (f64_of_Z 40) !! 0%nat
  = Some (np_float32 1)
  /\ smf [f64_of_Z 50; f64_of_Z 3] (f64_of_Z 5) (f64_of_Z 40) !! 1%nat
     = Some (np_float32 0).
Proof.
  destruct (smf_saturates [f64_of_Z 50; f64_of_Z 3] (f64_of_Z 5)
              (f64_of_Z 40) 0%nat (f64_of_Z 50) eq_refl)
    as (Hhi & Hone & _).
  destruct (smf_saturates [f64_of_Z 50; f64_of_Z 3] (f64_of_Z 5)
              (f64_of_Z 40) 1%nat (f64_of_Z 3) eq_refl)
    as (Hlo & _ & Hzero & _).
  split.
  - rewrite Hhi, Hone; reflexivity.
  - rewrite Hlo, Hzero; reflexivity.
Defined.

(** Strictly between the thresholds [smf] is the S-shaped curve: the
    second membership, [1 - 2 ((v - maxv) / (maxv - minv))^2], from the
    centre upwards, and the first, [2 ((v - minv) / (maxv - minv))^2],
    below it, all in [float32]. *)
Theorem smf_between_thresholds (values : list spec_float)
    (minv maxv : spec_float) (i : nat) (v : spec_float) :
  values !! i = Some v ->
  SFltb (f32_of_f64 minv) (f32_of_f64 v) = true ->
  SFltb (f32_of_f64 v) (f32_of_f64 maxv) = true ->
  smf values minv maxv !! i
  = Some
      (if np_ge (f32_of_f64 v)
                (f32_of_f64 (f64_div (f64_add minv maxv) (f64_of_Z 2)))
       then f32_sub (np_float32 1)
              (f32_mul (np_float32 2)
                 (f32_mul
                    (f32_div (f32_sub (f32_of_f64 v) (f32_of_f64 maxv))
                             (f32_of_f64 (f64_sub maxv minv)))
                    (f32_div (f32_sub (f32_of_f64 v) (f32_of_f64 maxv))
                             (f32_of_f64 (f64_sub maxv minv)))))
       else if np_le (f32_of_f64 v)
                     (f32_of_f64 (f64_div (f64_add minv maxv) (f64_of_Z 2)))
       then f32_mul (np_float32 2)
              (f32_mul
                 (f32_div (f32_sub (f32_of_f64 v) (f32_of_f64 minv))
                          (f32_of_f64 (f64_sub maxv minv)))
                 (f32_div (f32_sub (f32_of_f64 v) (f32_of_f64 minv))
                          (f32_of_f64 (f64_sub maxv minv))))
       else S754_zero false).
Proof.
  intros Hv Hlo Hhi. unfold smf. rewrite list_lookup_fmap, Hv. simpl.
  f_equal. unfold smf_value. cbv zeta. unfold np_ge, np_le.
  rewrite (SFltb_SFleb _ _ Hlo), (SFltb_SFleb _ _ Hhi),
          (SFltb_SFleb_false _ _ Hlo), (SFltb_SFleb_false _ _ Hhi).
  rewrite andb_true_r. simpl.
  by destruct (SFleb (f32_of_f64 (f64_div _ _)) (f32_of_f64 v)).
Qed.

Lemma smf_between_thresholds_witness :
  smf [f64_of_Z 10] (f64_of_Z 5) (f64_of_Z 45) !! 0%nat
  = Some (S754_finite false 8388608 (-28)).
Proof.
  rewrite (smf_between_thresholds [f64_of_Z 10] (f64_of_Z 5) (f64_of_Z 45)
             0%nat (f64_of_Z 10) eq_refl eq_refl eq_refl).
  vm_compute. reflexivity.
Defined.

(** Strictly between the thresholds, [zmf] takes the value of
    [membership_right], [2 ((v - maxv) / (maxv - minv))^2], up to the
    centre and is 0 above it: [mask_right] is the same mask as [mask_left],
    so [membership_left] is overwritten wherever it was assigned and the
    upper half is never assigned. *)
Theorem zmf_between_thresholds (values : list spec_float)
    (minv maxv : spec_float) (i : nat) (v : spec_float) :
  values !! i = Some v ->
  SFltb minv v = true -> SFltb v maxv = true ->
  zmf values minv maxv !! i
  = Some (if np_le v (f64_div (f64_add minv maxv) (f64_of_Z 2))
          then f64_mul (f64_of_Z 2)
                 (f64_mul
                    (f64_div (f64_sub v maxv) (f64_sub maxv minv))
                    (f64_div (f64_sub v maxv) (f64_sub maxv minv)))
          else S754_zero false).
Proof.
  intros Hv Hlo Hhi. unfold zmf. rewrite list_lookup_fmap, Hv. simpl.
  f_equal. unfold zmf_value. cbv zeta. unfold np_ge, np_le.
  rewrite (SFltb_SFleb _ _ Hlo), (SFltb_SFleb_false _ _ Hlo),
          (SFltb_SFleb_false _ _ Hhi). simpl.
  by destruct (SFleb v _).
Qed.

Lemma zmf_between_thresholds_witness :
  zmf [f64_of_Z 1; f64_of_Z 6] (f64_of_Z 0) (f64_of_Z 8) !! 0%nat
  = Some (f64_div (f64_of_Z 49) (f64_of_Z 32))
  /\ zmf [f64_of_Z 1; f64_of_Z 6] (f64_of_Z 0) (f64_of_Z 8) !! 1%nat
     = Some (S754_zero false).
Proof.
  split.
  - rewrite (zmf_between_thresholds [f64_of_Z 1; f64_of_Z 6] (f64_of_Z 0)
               (f64_of_Z 8) 0%nat (f64_of_Z 1) eq_refl eq_refl eq_refl).
    vm_compute. reflexivity.
  - rewrite (zmf_between_thresholds [f64_of_Z 1; f64_of_Z 6] (f64_of_Z 0)
               (f64_of_Z 8) 1%nat (f64_of_Z 6) eq_refl eq_refl eq_refl).
    vm_compute. reflexivity.
Defined.

(** [zmf] outside the thresholds: 1 at or below [minv], also for an element
    at or above [maxv]; 0 at or above [maxv] otherwise; a NaN maps to 0;
    and with thresholds that coincide or are inverted it is the step at
    [minv] on every element that is not a NaN. *)
Theorem zmf_saturates (values : list spec_float) (minv maxv : spec_float)
    (i : nat) (v : spec_float) :
  values !! i = Some v ->
  zmf values minv maxv !! i = Some (zmf_value minv maxv v)
  /\ (np_le v minv = true -> zmf_value minv maxv v = f64_of_Z 1)
  /\ (np_le v minv = false -> np_ge v maxv = true ->
      zmf_value minv maxv v = f64_of_Z 0)
  /\ (v = S754_nan -> zmf_value minv maxv v = S754_zero false)
  /\ (SFleb maxv minv = true -> v <> S754_nan ->
      zmf_value minv maxv v
      = if np_le v minv then f64_of_Z 1 else f64_of_Z 0).
Proof.
  intros Hv. split.
  { unfold zmf. by rewrite list_lookup_fmap, Hv. }
  unfold zmf_value. cbv zeta. unfold np_ge, np_le.
  split; [|split; [|split]].
  - by intros ->.
  - by intros -> ->.
  - intros ->. by rewrite !SFleb_nan_l, !SFleb_nan_r.
  - intros Hle Hnan. destruct (SFleb v minv) eqn:Hlow; [done|].
    destruct (SFleb_not_nan _ _ Hle) as [_ Hmin].
    assert (Hgt : SFltb minv v = true) by by apply SFleb_false_SFltb.
    assert (Hge : SFleb maxv v = true).
    { apply (SFleb_trans maxv minv v); [done|by apply SFltb_SFleb]. }
    by rewrite Hge.
Qed.

Lemma zmf_saturates_witness :
  zmf [f64_of_Z 7; S754_nan] (f64_of_Z 7) (f64_of_Z 7) !! 0%nat
  = Some (f64_of_Z 1)
  /\ zmf [f64_of_Z 7; S754_nan] (f64_of_Z 7) (f64_of_Z 7) !! 1%nat
     = Some (S754_zero false).
Proof.
  destruct (zmf_saturates [f64_of_Z 7; S754_nan] (f64_of_Z 7) (f64_of_Z 7)
              0%nat (f64_of_Z 7) eq_refl) as (Hat & Hone & _).
  destruct (zmf_saturates [f64_of_Z 7; S754_nan] (f64_of_Z 7) (f64_of_Z 7)
              1%nat S754_nan eq_refl) as (Hnan & _ & _ & Hzero & _).
  split.
  - rewrite Hat, Hone; reflexivity.
  - rewrite Hnan, Hzero; reflexivity.
Defined.
